(** * Launch-CTRL: the event orchestration pipeline, embedded in Rocq

    A shallow embedding of the server side of Launch-CTRL:
    - [server/policy/store.js]        (module [PolicyStore])
    - [server/utils/policy.js]        (module [UtilsPolicy])
    - [server/bus/incidentBus.js]     (module [IncidentBus])
    - [server/bus/deltaEmitter.js]    (module [DeltaEmitter])
    - [server/supervisor/store.js], [server/supervisor/pipeline.js],
      [server/agents/correlationAgent.js], [server/agents/troubleshooting.js],
      [server/agents/rca.js]          (modules [SupervisorStore], [Supervisor],
      [CorrelationAgent], [TroubleshootingAgent],
      [RcaAgent])
    - the streaming handler of Agent A (module [CorrelationStream]), the
      helpers of [server/utils/policy.js] and [server/supervisor/pipeline.js]
      (modules [PolicyModes], [Pipeline]), the ring buffer of
      [server/bus/incidentBus.js] (module [BusBuffer]), [server/tools/state.js]
      (module [ToolsState]), the views of Agent C (module [RcaViews]) and the
      start of the Supervisor (module [SupervisorStart])

    Conventions of the embedding.
    - JavaScript strings are Rocq strings; [toLowerCase], [trim] and the
      case-insensitive patterns are the ASCII ones, which is what they are on
      the ASCII texts the program compares against.
    - A property that may be absent is an [option]: [None] is [undefined],
      and [null] as well wherever the code treats the two alike ([??], [||],
      [?.], a truth test). Where the code tells them apart, [None] is
      [undefined] alone: in [toCanonical] ([value === undefined]) a [null]
      setting is a supplied value, the text that [String()] makes of it; and
      the services that [ingest] compares with [!==] are strings or absent,
      a snapshot of the simulator holding no [null] there.
    - A plain object used as a map (the [sites] of a snapshot, the views of
      the Delta Emitter) is the association list of its own entries. It
      behaves as one for every key that names no member of
      [Object.prototype] ([Js.plain_key]); a statement that needs this
      assumes it.
    - Counters and millisecond clocks are unbounded integers.
    - The tower simulator, the wall clock and the text renderers of the
      JavaScript runtime are an abstract environment ([Env]).
    - [async] functions are run to completion one after the other; the
      server-sent-event fan-out ([res.write], [bus.emit('supervisor', ...)],
      [console.log]) is output only and is not part of the state. *)

From stdpp Require Import gmap strings list fin_maps.
From Stdlib Require Import ZArith Ascii String List Lia Permutation DecimalString.
From Stdlib Require DecimalNat DecimalFacts.
Import ListNotations.

Local Open Scope string_scope.
Local Open Scope Z_scope.

(** ** JavaScript primitives used by the sources *)

Module Js.

(** [String.prototype.toLowerCase] on ASCII text. *)
Definition lower_ascii (c : ascii) : ascii :=
  let n := nat_of_ascii c in
  if ((65 <=? n)%nat && (n <=? 90)%nat)%bool then ascii_of_nat (n + 32) else c.

Fixpoint toLowerCase (s : string) : string :=
  match s with
  | EmptyString => EmptyString
  | String c r => String (lower_ascii c) (toLowerCase r)
  end.

(** Truthiness of a string-valued property: absent and empty are falsy. *)
Definition truthy (o : option string) : bool :=
  match o with
  | Some (String _ _) => true
  | _ => false
  end.

(** [a || b] on string-valued properties. *)
Definition or_ (a b : option string) : option string :=
  if truthy a then a else b.

(** [String(a || '')]. *)
Definition str_or_empty (a : option string) : string :=
  match a with
  | Some s => s
  | None => EmptyString
  end.

(** [a ?? d]. *)
Definition nullish {A} (a : option A) (d : A) : A :=
  match a with
  | Some x => x
  | None => d
  end.

(** [hay.includes(needle)]. *)
Fixpoint includes (needle hay : string) : bool :=
  if String.prefix needle hay then true
  else match hay with
       | EmptyString => false
       | String _ r => includes needle r
       end.

(** ASCII white space, as removed by [String.prototype.trim]. *)
Definition is_space (c : ascii) : bool :=
  let n := nat_of_ascii c in
  ((n =? 32)%nat || ((9 <=? n)%nat && (n <=? 13)%nat))%bool.

Fixpoint trimStart (s : string) : string :=
  match s with
  | String c r => if is_space c then trimStart r else s
  | EmptyString => EmptyString
  end.

Fixpoint trimEnd (s : string) : string :=
  match s with
  | EmptyString => EmptyString
  | String c r =>
      match trimEnd r with
      | EmptyString => if is_space c then EmptyString else String c EmptyString
      | r' => String c r'
      end
  end.

Definition trim (s : string) : string := trimEnd (trimStart s).

(** [arr.join(sep)]. *)
Fixpoint join (sep : string) (l : list string) : string :=
  match l with
  | [] => EmptyString
  | [x] => x
  | x :: r => x ++ sep ++ join sep r
  end.

(** [`${n}`] for a natural number. *)
Definition nat_to_string (n : nat) : string :=
  NilZero.string_of_uint (Nat.to_uint n).

(** [arr.push(x); if (arr.length > cap) arr.shift()]. *)
Definition push_ring {A} (cap : nat) (x : A) (l : list A) : list A :=
  let l' := (l ++ [x])%list in
  if (cap <? List.length l')%nat then List.tl l' else l'.

(** An insertion-ordered [Map] with string keys. *)
Definition Map (V : Type) := list (string * V).

Fixpoint map_get {V} (k : string) (m : Map V) : option V :=
  match m with
  | [] => None
  | (k', v) :: r => if String.eqb k k' then Some v else map_get k r
  end.

Definition map_has {V} (k : string) (m : Map V) : bool :=
  match map_get k m with Some _ => true | None => false end.

Fixpoint map_set {V} (k : string) (v : V) (m : Map V) : Map V :=
  match m with
  | [] => [(k, v)]
  | (k', v') :: r =>
      if String.eqb k k' then (k, v) :: r else (k', v') :: map_set k v r
  end.

Definition map_keys {V} (m : Map V) : list string := List.map fst m.
Definition map_values {V} (m : Map V) : list V := List.map snd m.

(** The names of the members that a plain object inherits from
    [Object.prototype]. A read [obj[k]] with such a name finds the
    inherited member where [obj] has no entry of its own for [k], and the
    write [obj['__proto__'] = v] adds no entry. With every other key a
    plain object reads and writes its own entries only. *)
Definition Object_prototype : list string :=
  ["constructor"; "__proto__"; "hasOwnProperty"; "isPrototypeOf"; "propertyIsEnumerable";
   "toString"; "toLocaleString"; "valueOf"; "__defineGetter__"; "__defineSetter__";
   "__lookupGetter__"; "__lookupSetter__"].

Definition plain_key (k : string) : bool :=
  negb (existsb (String.eqb k) Object_prototype).

Definition plain_keys (l : list string) : bool := forallb plain_key l.

(** What a function that may [throw] produces. *)
Inductive Completion (A : Type) : Type :=
| Throw (message : string)
| Return (value : A).
Arguments Throw {A} message.
Arguments Return {A} value.

End Js.

(** ** server/policy/store.js *)

Module PolicyStore.
Import Js.

Record Policy := mkPolicy {
  alarmPrioritization : string;
  waysOfWorking : string;
  kpiAlignment : string;
  updatedAt : string;
  version : Z;
  source : option string;
}.

(** A patch: each of the three settings is supplied or not. *)
Record Patch := mkPatch {
  patch_alarmPrioritization : option string;
  patch_waysOfWorking : option string;
  patch_kpiAlignment : option string;
}.

Definition DEFAULT_POLICY (loadedAt : string) : Policy :=
  {| alarmPrioritization := "Critical First";
     waysOfWorking := "Human intervention at critical steps";
     kpiAlignment := ">95%";
     updatedAt := loadedAt;
     version := 1;
     source := None |}.

Definition ALARM_OPTIONS : list string := ["Critical First"; "Adaptive Correlation"].
Definition WOW_OPTIONS : list string := ["E2E automation"; "Human intervention at critical steps"].
Definition KPI_OPTIONS : list string := [">95%"; "75%"].

(** [arr.reduce((m, v) => (m.set(String(v).toLowerCase(), v), m), new Map())] *)
Definition toCanonMap (arr : list string) : Map string :=
  fold_left (fun m v => map_set (toLowerCase v) v m) arr [].

Definition ALARM_CANON := toCanonMap ALARM_OPTIONS.
Definition WOW_CANON := toCanonMap WOW_OPTIONS.
Definition KPI_CANON := toCanonMap KPI_OPTIONS.

Definition must_be_one_of (label : string) (map : Map string) : string :=
  label ++ " must be one of: " ++ join ", " (map_values map).

Definition toCanonical (value : option string) (map : Map string) (label : string)
  : Completion (option string) :=
  match value with
  | None => Return None
  | Some v =>
      let k := toLowerCase v in
      let canon := map_get k map in
      if truthy canon then Return canon
      else Throw (must_be_one_of label map)
  end.

(** [validatePatch]: the three settings are checked in turn; the first
    one that matches no option throws. The result holds the canonical
    strings of the supplied settings. *)
Definition validatePatch (patch : Patch) : Completion Patch :=
  match toCanonical (patch_alarmPrioritization patch) ALARM_CANON "alarmPrioritization" with
  | Throw m => Throw m
  | Return a =>
      match toCanonical (patch_waysOfWorking patch) WOW_CANON "waysOfWorking" with
      | Throw m => Throw m
      | Return w =>
          match toCanonical (patch_kpiAlignment patch) KPI_CANON "kpiAlignment" with
          | Throw m => Throw m
          | Return k => Return (mkPatch a w k)
          end
      end
  end.

Definition getPolicy (policy : Policy) : Policy := policy.

(** [setPolicy(patch, source)] at the instant rendered [nowIso], on the
    stored [policy]: the completion and the stored policy afterwards. *)
Definition setPolicy (patch : Patch) (src : string) (nowIso : string) (policy : Policy)
  : Completion Policy * Policy :=
  match validatePatch patch with
  | Throw m => (Throw m, policy)
  | Return valid =>
      let policy' :=
        {| alarmPrioritization := nullish (patch_alarmPrioritization valid) (alarmPrioritization policy);
           waysOfWorking := nullish (patch_waysOfWorking valid) (waysOfWorking policy);
           kpiAlignment := nullish (patch_kpiAlignment valid) (kpiAlignment policy);
           updatedAt := nowIso;
           version := version policy + 1;
           source := Some src |} in
      (Return (getPolicy policy'), policy')
  end.

(** A supplied value matches an option of [opts] up to letter case. *)
Definition matches (opts : list string) (v : string) : Prop :=
  exists o, In o opts /\ toLowerCase v = toLowerCase o.

(** The option of [opts] that [v] stands for, when supplied. *)
Definition canonical_of (opts : list string) (supplied : option string) (old new : string) : Prop :=
  match supplied with
  | None => new = old
  | Some v => In new opts /\ toLowerCase v = toLowerCase new
  end.

Definition all_supplied_match (p : Patch) : Prop :=
  (forall v, patch_alarmPrioritization p = Some v -> matches ALARM_OPTIONS v) /\
  (forall v, patch_waysOfWorking p = Some v -> matches WOW_OPTIONS v) /\
  (forall v, patch_kpiAlignment p = Some v -> matches KPI_OPTIONS v).

Definition some_supplied_mismatch (p : Patch) : Prop :=
  (exists v, patch_alarmPrioritization p = Some v /\ ~ matches ALARM_OPTIONS v) \/
  (exists v, patch_waysOfWorking p = Some v /\ ~ matches WOW_OPTIONS v) \/
  (exists v, patch_kpiAlignment p = Some v /\ ~ matches KPI_OPTIONS v).

(** The stored policy only ever holds option strings. *)
Definition valid (p : Policy) : Prop :=
  In (alarmPrioritization p) ALARM_OPTIONS /\
  In (waysOfWorking p) WOW_OPTIONS /\
  In (kpiAlignment p) KPI_OPTIONS.

End PolicyStore.

(** ** server/utils/policy.js *)

Module UtilsPolicy.
Import Js.

(** The sources of the patterns [/ServiceUnavailable/i], ... *)
Definition CRITICAL_PATTERNS : list string :=
  ["ServiceUnavailable"; "HeartbeatFailure"; "MainsFailure"].

(** [rx.test(s)] for a literal pattern with the [i] flag: [s] contains the
    pattern, letter case ignored. *)
Definition test_i (pattern s : string) : bool :=
  includes (toLowerCase pattern) (toLowerCase s).

Definition isCriticalAlarm (alarm : string) : bool :=
  match alarm with
  | EmptyString => false
  | _ => existsb (fun rx => test_i rx alarm) CRITICAL_PATTERNS
  end.

Definition NOISE_ALARMS : list string := ["unknown"; "heartbeat"; "noop"].

Definition isNoiseAlarm (alarm : string) : bool :=
  let a := toLowerCase alarm in
  existsb (String.eqb a) NOISE_ALARMS.

End UtilsPolicy.

(** ** The snapshot of the fleet and the events of the bus *)

Module Tower.

(** One site of a snapshot. [antenna1], [antenna2] hold
    [site.antennaN?.service], a string or nothing; [alarms] is [None] when
    it is not an array. *)
Record Site := mkSite {
  mains : option string;
  siteAlive : option bool;
  batteryPercent : option Z;
  antenna1 : option string;
  antenna2 : option string;
  alarms : option (list string);
}.

(** [state.sites]: the entries of the object in enumeration order. *)
Definition Sites := Js.Map Site.

(** A normalized event, as the producers build it and the consumers read
    it. Every property is optional. *)
Record BusEvent := mkEvent {
  ev_type : option string;
  ev_siteId : option string;
  ev_alarm : option string;
  ev_timestamp : option string;
  ev_ts : option string;
  ev_source : option string;
  ev_bootstrap : option bool;
  ev_antenna : option string;
  ev_from : option string;
  ev_to : option string;
}.

Definition with_type (t : string) (e : BusEvent) : BusEvent :=
  {| ev_type := Some t; ev_siteId := ev_siteId e; ev_alarm := ev_alarm e;
     ev_timestamp := ev_timestamp e; ev_ts := ev_ts e; ev_source := ev_source e;
     ev_bootstrap := ev_bootstrap e; ev_antenna := ev_antenna e;
     ev_from := ev_from e; ev_to := ev_to e |}.

End Tower.

(** ** server/bus/incidentBus.js and the listeners attached to it *)

Module IncidentBus.
Import Js Tower.

(** The functions that the sources register on [incidentBus]. *)
Inductive Listener :=
| BufferAndFanOut          (* incidentBus.js: store in the ring, write to SSE clients *)
| AlarmTap (name : string) (* supervisor/store.js: console.log taps *)
| SupervisorHandleEvent    (* supervisor/store.js: evt => handleEvent(evt) *)
| AgentA_onIncident.       (* correlationAgent.js: evt => this._onIncident(evt) *)

(** An [EventEmitter]: the registrations, oldest first. *)
Definition Emitter := list (string * Listener).

Definition on (name : string) (l : Listener) (em : Emitter) : Emitter :=
  (em ++ [(name, l)])%list.

Definition listeners (name : string) (em : Emitter) : list Listener :=
  List.map snd (List.filter (fun r => String.eqb (fst r) name) em).

(** [emitter.emit(name, evt)]: the calls made, in order. *)
Definition emit (name : string) (evt : BusEvent) (em : Emitter) : list (Listener * BusEvent) :=
  List.map (fun l => (l, evt)) (listeners name em).

(** incidentBus.js, at module load. *)
Definition incidentBus : Emitter := on "event" BufferAndFanOut [].

(** [onIncident(listener)] of incidentBus.js. *)
Definition onIncident (l : Listener) (em : Emitter) : Emitter := on "event" l em.

(** [publish(evt)] of incidentBus.js. *)
Definition publish (evt : BusEvent) (em : Emitter) : list (Listener * BusEvent) :=
  emit "event" evt em.

(** supervisor/store.js, at module load: the three taps, then
    [onIncident = (cb) => incidentBus.on('bus.event', cb)] applied to the
    handler. *)
Definition supervisor_wiring (em : Emitter) : Emitter :=
  on "bus.event" SupervisorHandleEvent
    (on "service.changed" (AlarmTap "service.changed")
      (on "alarm.cleared" (AlarmTap "alarm.cleared")
        (on "alarm.raised" (AlarmTap "alarm.raised") em))).

(** correlationAgent.js, [_attachBus], run by each [start()]. *)
Definition agentA_attachBus (em : Emitter) : Emitter := onIncident AgentA_onIncident em.

(** The emitters the server can reach: the load-time wiring, then any
    number of Agent A starts. *)
Inductive reachable : Emitter -> Prop :=
| reach_load : reachable (supervisor_wiring incidentBus)
| reach_start em : reachable em -> reachable (agentA_attachBus em).

(** A batch of [emit] calls, in order. *)
Definition deliver (em : Emitter) (emissions : list (string * BusEvent))
  : list (Listener * BusEvent) :=
  List.flat_map (fun c => emit (fst c) (snd c) em) emissions.

End IncidentBus.

(** ** server/bus/deltaEmitter.js *)

Module DeltaEmitter.
Import Js Tower.

(** [new Set(arr)]: the distinct members in order of first insertion. *)
Fixpoint newSet (arr : list string) : list string :=
  match arr with
  | [] => []
  | x :: r => x :: List.filter (fun y => negb (String.eqb y x)) (newSet r)
  end.

Definition set_has (x : string) (s : list string) : bool :=
  existsb (String.eqb x) s.

Record Service := mkService { svc_antenna1 : option string; svc_antenna2 : option string }.

(** The views [out], [this.lastAlarmsBySite] and [this.lastServiceBySite]
    are plain objects keyed by site id, kept here as the association lists
    of their own entries: that is what [out[siteId] = ...] builds and what
    [view[siteId] ?? ...] reads as long as the site ids are plain keys
    ([plain_snapshot], [plain_views] below). *)
Definition extractAlarmsBySite (state : option Sites) : Map (list string) :=
  fold_left
    (fun out e => map_set (fst e) (newSet (nullish (alarms (snd e)) [])) out)
    (nullish state []) [].

Definition extractServiceBySite (state : option Sites) : Map Service :=
  fold_left
    (fun out e => map_set (fst e) (mkService (antenna1 (snd e)) (antenna2 (snd e))) out)
    (nullish state []) [].

Definition cloneMapOfSets (m : Map (list string)) : Map (list string) :=
  fold_left (fun out e => map_set (fst e) (newSet (snd e)) out) m [].

Definition spread {V} (m : Map V) : Map V :=
  fold_left (fun out e => map_set (fst e) (snd e) out) m [].

Record State := mkState {
  bootstrapEmit : bool;
  lastAlarmsBySite : option (Map (list string));
  lastServiceBySite : option (Map Service);
}.

Definition BOOTSTRAP_EMIT_CURRENT := true.

(** [new DeltaEmitter(bus, options)]. *)
Definition constructor (options_bootstrapEmit : option bool) : State :=
  mkState (nullish options_bootstrapEmit BOOTSTRAP_EMIT_CURRENT) None None.

Definition reset (st : State) : State :=
  mkState (bootstrapEmit st) None None.

(** What [this.bus.emit] was called with, oldest first. *)
Definition Emissions := list (string * BusEvent).

Definition emitBoth (type : string) (payload : BusEvent) (bus : Emissions) : Emissions :=
  (bus ++ [(type, payload); ("event", with_type type payload)])%list.

Definition alarm_payload (siteId alarm ts : string) (bootstrap : option bool) : BusEvent :=
  {| ev_type := None; ev_siteId := Some siteId; ev_alarm := Some alarm;
     ev_timestamp := None; ev_ts := Some ts; ev_source := Some "delta";
     ev_bootstrap := bootstrap; ev_antenna := None; ev_from := None; ev_to := None |}.

Definition service_payload (siteId antenna : string) (from to : option string) (ts : string) : BusEvent :=
  {| ev_type := None; ev_siteId := Some siteId; ev_alarm := None;
     ev_timestamp := None; ev_ts := Some ts; ev_source := Some "delta";
     ev_bootstrap := None; ev_antenna := Some antenna; ev_from := from; ev_to := to |}.

(** The alarm loop body of [ingest] for one site. *)
Definition alarm_deltas (ts siteId : string) (prevSet nextSet : list string) (bus : Emissions) : Emissions :=
  let bus1 :=
    fold_left
      (fun b alarm =>
         if negb (set_has alarm prevSet)
         then emitBoth "alarm.raised" (alarm_payload siteId alarm ts None) b else b)
      nextSet bus in
  fold_left
    (fun b alarm =>
       if negb (set_has alarm nextSet)
       then emitBoth "alarm.cleared" (alarm_payload siteId alarm ts None) b else b)
    prevSet bus1.

Definition opt_string_eqb (a b : option string) : bool :=
  match a, b with
  | Some x, Some y => String.eqb x y
  | None, None => true
  | _, _ => false
  end.

(** The service loop body of [ingest] for one site. *)
Definition service_deltas (ts siteId : string) (prev next : Service) (bus : Emissions) : Emissions :=
  let bus1 :=
    if negb (opt_string_eqb (svc_antenna1 prev) (svc_antenna1 next))
    then emitBoth "service.changed"
           (service_payload siteId "antenna1" (svc_antenna1 prev) (svc_antenna1 next) ts) bus
    else bus in
  if negb (opt_string_eqb (svc_antenna2 prev) (svc_antenna2 next))
  then emitBoth "service.changed"
         (service_payload siteId "antenna2" (svc_antenna2 prev) (svc_antenna2 next) ts) bus1
  else bus1.

Definition noService : Service := mkService None None.

(** [ingest(newState)] at the instant rendered [ts]: what the bus was
    called with, and the emitter afterwards. *)
Definition ingest (ts : string) (newState : option Sites) (st : State) : Emissions * State :=
  let curAlarms := extractAlarmsBySite newState in
  let curService := extractServiceBySite newState in
  let stored := mkState (bootstrapEmit st) (Some (cloneMapOfSets curAlarms)) (Some (spread curService)) in
  match lastAlarmsBySite st, lastServiceBySite st with
  | Some lastA, Some lastS =>
      let allSites := newSet (map_keys lastA ++ map_keys curAlarms) in
      let bus1 :=
        fold_left
          (fun b siteId =>
             alarm_deltas ts siteId
               (nullish (map_get siteId lastA) [])
               (nullish (map_get siteId curAlarms) []) b)
          allSites [] in
      let allSitesSvc := newSet (map_keys lastS ++ map_keys curService) in
      let bus2 :=
        fold_left
          (fun b siteId =>
             service_deltas ts siteId
               (nullish (map_get siteId lastS) noService)
               (nullish (map_get siteId curService) noService) b)
          allSitesSvc bus1 in
      (bus2, stored)
  | _, _ =>
      let bus :=
        if bootstrapEmit st then
          fold_left
            (fun b e =>
               fold_left
                 (fun b' alarm =>
                    emitBoth "alarm.raised" (alarm_payload (fst e) alarm ts (Some true)) b')
                 (snd e) b)
            curAlarms []
        else [] in
      (bus, stored)
  end.

(** The unified envelopes of a batch of emissions: what was emitted on
    the channel ['event']. *)
Definition envelopes (bus : Emissions) : list BusEvent :=
  List.map snd (List.filter (fun c => String.eqb (fst c) "event") bus).

(** The site ids of a snapshot, and those of the stored views, name no
    member of [Object.prototype]. *)
Definition plain_snapshot (state : option Sites) : bool :=
  plain_keys (map_keys (nullish state [])).

Definition plain_views (st : State) : bool :=
  (plain_keys (map_keys (nullish (lastAlarmsBySite st) [])) &&
   plain_keys (map_keys (nullish (lastServiceBySite st) [])))%bool.

End DeltaEmitter.

(** ** The environment: tower simulator, wall clock, text renderers *)

(** The simulator behind [server/tower/client.js] is an external process.
    [World] is its state together with the wall clock; a request is a
    transition of it. [sim_state] answers [GET /state] with
    [body?.state?.sites], or [None] when the request fails or the body has no
    such object. *)
Class Env := {
  World : Type;
  Date_now : World -> Z;
  toISOString : Z -> string;
  Date_getTime : string -> option Z;
  JSON_stringify : list (string * option string) -> string;
  sim_state : World -> option Tower.Sites * World;
  sim_power : string -> string -> World -> World;
  sim_rru : string -> string -> string -> World -> World;
  sim_sleep : Z -> World -> World;
}.

(** ** The state of the server *)

Module State.
Import Js Tower.

Inductive Status := idle | running | paused | stopped.

Definition Status_eqb (a b : Status) : bool :=
  match a, b with
  | idle, idle | running, running | paused, paused | stopped, stopped => true
  | _, _ => false
  end.

(** A step of a mitigation plan: [{ action, args: { siteId, antenna }, reason }]. *)
Record Step := mkStep {
  step_action : string;
  step_siteId : string;
  step_antenna : option string;
  step_reason : string;
}.

Record Approval := mkApproval {
  appr_id : string;
  appr_siteId : string;
  appr_actions : list Step;
  appr_reason : string;
  appr_createdAt : string;
}.

(** The [supervisor] object of supervisor/store.js. *)
Record Supervisor := mkSupervisor {
  status : Status;
  startedAt : option Z;
  runtimeSec : Z;
  tasksRouted : Z;
  lastNote : option string;
  logs : list string;
  approvals : list Approval;
  nextApprovalId : nat;
}.

(** What the three agent classes have in common. *)
Record Agent := mkAgent {
  agent_name : string;
  agent_status : Status;
  agent_startedAt : option Z;
  agent_runtimeSec : Z;
  agent_tasks : Z;
  agent_lastTask : option string;
  agent_logs : list string;
}.

(** A case of Agent C's casebook. *)
Record Case := mkCase {
  case_ts : string;
  case_siteId : string;
  case_cause : string;
  case_actions : list Step;
  case_resolution : string;
  case_ongoing : bool;
  case_dispatchSuggested : bool;
  case_summary : string;
}.

(** A value of Agent C's [_lastBySite]. *)
Record Last := mkLast { last_cause : string; last_resolution : string; last_ts : Z }.

(** What was asked of the simulator and how long was slept, oldest
    first: a history kept beside the state, to state what a call did. *)
Inductive Effect :=
| GetState (response : option Sites)
| Power (sites state : string)
| Rru (site antenna state : string)
| Sleep (ms : Z).

Definition is_device_request (e : Effect) : bool :=
  match e with
  | Power _ _ | Rru _ _ _ => true
  | _ => false
  end.

Section WithEnv.
Context {E : Env}.

Record Sys := mkSys {
  supervisor : Supervisor;
  policy : PolicyStore.Policy;
  autoEnabled : bool;               (* supervisor/pipeline.js *)
  agentA : Agent;
  agentA_windowMs : Z;
  agentA_delegation : string;
  agentB : Agent;
  agentC : Agent;
  casebook : list Case;
  lastBySite : gmap string Last;
  bus : IncidentBus.Emitter;
  world : World;
  history : list Effect;
}.

Definition with_supervisor (f : Supervisor -> Supervisor) (s : Sys) : Sys :=
  mkSys (f (supervisor s)) (policy s) (autoEnabled s) (agentA s) (agentA_windowMs s)
    (agentA_delegation s) (agentB s) (agentC s) (casebook s) (lastBySite s) (bus s)
    (world s) (history s).

Definition with_agentA (f : Agent -> Agent) (s : Sys) : Sys :=
  mkSys (supervisor s) (policy s) (autoEnabled s) (f (agentA s)) (agentA_windowMs s)
    (agentA_delegation s) (agentB s) (agentC s) (casebook s) (lastBySite s) (bus s)
    (world s) (history s).

Definition with_agentA_knobs (windowMs : Z) (delegation : string) (em : IncidentBus.Emitter)
  (s : Sys) : Sys :=
  mkSys (supervisor s) (policy s) (autoEnabled s) (agentA s) windowMs
    delegation (agentB s) (agentC s) (casebook s) (lastBySite s) em
    (world s) (history s).

Definition with_agentB (f : Agent -> Agent) (s : Sys) : Sys :=
  mkSys (supervisor s) (policy s) (autoEnabled s) (agentA s) (agentA_windowMs s)
    (agentA_delegation s) (f (agentB s)) (agentC s) (casebook s) (lastBySite s) (bus s)
    (world s) (history s).

Definition with_agentC (f : Agent -> Agent) (s : Sys) : Sys :=
  mkSys (supervisor s) (policy s) (autoEnabled s) (agentA s) (agentA_windowMs s)
    (agentA_delegation s) (agentB s) (f (agentC s)) (casebook s) (lastBySite s) (bus s)
    (world s) (history s).

Definition with_casebook (f : list Case -> list Case) (s : Sys) : Sys :=
  mkSys (supervisor s) (policy s) (autoEnabled s) (agentA s) (agentA_windowMs s)
    (agentA_delegation s) (agentB s) (agentC s) (f (casebook s)) (lastBySite s) (bus s)
    (world s) (history s).

Definition with_lastBySite (f : gmap string Last -> gmap string Last) (s : Sys) : Sys :=
  mkSys (supervisor s) (policy s) (autoEnabled s) (agentA s) (agentA_windowMs s)
    (agentA_delegation s) (agentB s) (agentC s) (casebook s) (f (lastBySite s)) (bus s)
    (world s) (history s).

(** One interaction with the outside: the world moves on and the
    history grows by one entry. *)
Definition with_world (w : World) (e : Effect) (s : Sys) : Sys :=
  mkSys (supervisor s) (policy s) (autoEnabled s) (agentA s) (agentA_windowMs s)
    (agentA_delegation s) (agentB s) (agentC s) (casebook s) (lastBySite s) (bus s)
    w (history s ++ [e])%list.

(** [Date.now()] and [new Date().toISOString()]. *)
Definition now (s : Sys) : Z := Date_now (world s).
Definition nowIso (s : Sys) : string := toISOString (now s).

(** [Math.floor((Date.now() - startedAt.getTime()) / 1000)]. *)
Definition elapsedSec (s : Sys) (since : Z) : Z := (now s - since) / 1000.

End WithEnv.

(** ** server/tower/client.js, as the agents call it *)

Section TowerClient.
Context {E : Env}.

(** [await getState().catch(() => null)], then [snap?.state?.sites]. *)
Definition getState (s : Sys) : option Sites * Sys :=
  let (r, w) := sim_state (world s) in
  (r, with_world w (GetState r) s).

(** [await power({ sites, state }).catch(() => null)]. *)
Definition power (sites state : string) (s : Sys) : Sys :=
  with_world (sim_power sites state (world s)) (Power sites state) s.

(** [await rru({ site, antenna, state }).catch(() => null)]. *)
Definition rru (site antenna state : string) (s : Sys) : Sys :=
  with_world (sim_rru site antenna state (world s)) (Rru site antenna state) s.

(** [await this._sleep(ms)]. *)
Definition _sleep (ms : Z) (s : Sys) : Sys :=
  with_world (sim_sleep ms (world s)) (Sleep ms) s.

(** [_fetchSite(siteId)], the same in Agent B and Agent C: the site's own
    entry in [sites]. For a [siteId] that is no [plain_key] and has no
    entry, the code's [sites?.[siteId]] finds the inherited member
    instead of nothing. *)
Definition _fetchSite (siteId : string) (s : Sys) : option Site * Sys :=
  let (r, s') := getState s in
  (match r with
   | Some sites => map_get siteId sites
   | None => None
   end, s').

End TowerClient.

End State.

(** ** server/supervisor/store.js: logging, notes, approvals *)

Module SupervisorStore.
Import Js Tower State.

Definition set_logs (l : list string) (sup : Supervisor) : Supervisor :=
  mkSupervisor (status sup) (startedAt sup) (runtimeSec sup) (tasksRouted sup)
    (lastNote sup) l (approvals sup) (nextApprovalId sup).

Definition set_lastNote (n : option string) (sup : Supervisor) : Supervisor :=
  mkSupervisor (status sup) (startedAt sup) (runtimeSec sup) (tasksRouted sup)
    n (logs sup) (approvals sup) (nextApprovalId sup).

Definition set_lifecycle (st : Status) (since : option Z) (rt : Z) (sup : Supervisor) : Supervisor :=
  mkSupervisor st since rt (tasksRouted sup)
    (lastNote sup) (logs sup) (approvals sup) (nextApprovalId sup).

Definition set_tasksRouted (n : Z) (sup : Supervisor) : Supervisor :=
  mkSupervisor (status sup) (startedAt sup) (runtimeSec sup) n
    (lastNote sup) (logs sup) (approvals sup) (nextApprovalId sup).

Definition set_approvals (l : list Approval) (next : nat) (sup : Supervisor) : Supervisor :=
  mkSupervisor (status sup) (startedAt sup) (runtimeSec sup) (tasksRouted sup)
    (lastNote sup) (logs sup) l next.

(** The supervisor at module load. *)
Definition initial : Supervisor :=
  mkSupervisor idle None 0 0 None [] [] 1.

(** The line [`[${iso}] [${tag}] ${msg}`]. *)
Definition line (iso tag msg : string) : string :=
  "[" ++ iso ++ "] [" ++ tag ++ "] " ++ msg.

Section WithEnv.
Context {E : Env}.

Definition _log (msg : string) (s : Sys) : Sys :=
  with_supervisor
    (fun sup => set_logs (push_ring 2000 (line (nowIso s) "SUPERVISOR" msg) (logs sup)) sup) s.

Definition note (message : string) (s : Sys) : Sys :=
  _log ("note: " ++ message) (with_supervisor (set_lastNote (Some message)) s).

(** [supervisorNote(message)] of tools/supervisorNote.js (no [meta]). *)
Definition supervisorNote (message : string) (s : Sys) : Sys := note message s.

Definition addApprovalRequest (siteId : string) (actions : list Step) (reason : string) (s : Sys)
  : Approval * Sys :=
  let id := nat_to_string (nextApprovalId (supervisor s)) in
  let item := mkApproval id siteId actions reason (nowIso s) in
  let s1 := with_supervisor
              (fun sup => set_approvals (approvals sup ++ [item]) (S (nextApprovalId sup)) sup) s in
  let s2 := with_supervisor
              (set_lastNote (Some ("Approval requested #" ++ id ++ " for " ++ siteId))) s1 in
  let s3 := _log ("approval.requested → #" ++ id ++ " site=" ++ siteId ++ " reason=" ++
                  String (ascii_of_nat 34) reason ++ String (ascii_of_nat 34) " steps=" ++
                  nat_to_string (List.length actions)) s2 in
  (item, s3).

Definition listApprovals (s : Sys) : list Approval := approvals (supervisor s).

(** [approvals.findIndex(a => a.id === id)] then [splice(idx, 1)]. *)
Fixpoint remove_first (id : string) (l : list Approval) : option (Approval * list Approval) :=
  match l with
  | [] => None
  | a :: r =>
      if String.eqb (appr_id a) id then Some (a, r)
      else match remove_first id r with
           | Some (x, r') => Some (x, a :: r')
           | None => None
           end
  end.

Definition resolveApproval (id decision : string) (s : Sys) : option Approval * Sys :=
  match remove_first id (approvals (supervisor s)) with
  | None => (None, s)
  | Some (item, rest) =>
      let s1 := with_supervisor
                  (fun sup => set_approvals rest (nextApprovalId sup) sup) s in
      let s2 := with_supervisor
                  (set_lastNote (Some ("Approval " ++ decision ++ " for #" ++ id))) s1 in
      (Some item,
       _log ("approval." ++ decision ++ " → #" ++ id ++ " site=" ++ appr_siteId item) s2)
  end.

Definition incrementTasksRouted (n : Z) (s : Sys) : Sys :=
  with_supervisor (fun sup => set_tasksRouted (tasksRouted sup + n) sup) s.

(** [isE2E()]. *)
Definition isE2E (s : Sys) : bool :=
  String.eqb (toLowerCase (PolicyStore.waysOfWorking (policy s))) "e2e automation".

(** [autoEffective()]: the policy allows it, or the stored toggle is on. *)
Definition autoEffective (s : Sys) : bool :=
  let polAllows := isE2E s in
  let stored := autoEnabled s in
  (polAllows || stored)%bool.

End WithEnv.
End SupervisorStore.

(** ** What the three agent classes share: log, start, stop *)

Module AgentBase.
Import Js Tower State.

Definition set_agent_logs (l : list string) (a : Agent) : Agent :=
  mkAgent (agent_name a) (agent_status a) (agent_startedAt a) (agent_runtimeSec a)
    (agent_tasks a) (agent_lastTask a) l.

Definition set_agent_lifecycle (st : Status) (since : option Z) (rt : Z) (a : Agent) : Agent :=
  mkAgent (agent_name a) st since rt (agent_tasks a) (agent_lastTask a) (agent_logs a).

(** [this.lastTask = t; this.tasks += 1]. *)
Definition set_agent_task (t : string) (a : Agent) : Agent :=
  mkAgent (agent_name a) (agent_status a) (agent_startedAt a) (agent_runtimeSec a)
    (agent_tasks a + 1) (Some t) (agent_logs a).

(** [_log(msg)] at the instant rendered [iso]. *)
Definition _log (iso msg : string) (a : Agent) : Agent :=
  set_agent_logs
    (push_ring 2000 (SupervisorStore.line iso (agent_name a) msg) (agent_logs a)) a.

(** [start()] of Agent B and Agent C at the instant [t], rendered [iso]. *)
Definition start (t : Z) (iso : string) (a : Agent) : Agent :=
  match agent_status a with
  | running => a
  | _ => _log iso "started" (set_agent_lifecycle running (Some t) (agent_runtimeSec a) a)
  end.

(** [stop()] of the three agents. *)
Definition stop (t : Z) (iso : string) (a : Agent) : Agent :=
  match agent_status a with
  | running =>
      let delta := (t - nullish (agent_startedAt a) t) / 1000 in
      _log iso ("stopped (accumulated " ++ NilZero.string_of_int (Z.to_int delta) ++ "s)")
        (set_agent_lifecycle stopped None (agent_runtimeSec a + delta) a)
  | _ =>
      _log iso "stopped (no-op)"
        (set_agent_lifecycle stopped (agent_startedAt a) (agent_runtimeSec a) a)
  end.

(** A new agent: [constructor(name)]. *)
Definition constructor (iso name initMsg : string) (tasks : Z) : Agent :=
  _log iso initMsg (mkAgent name stopped None 0 tasks None []).

End AgentBase.

(** ** server/agents/correlationAgent.js (Agent A) *)

(** The batch entry point [correlate] and the life cycle. The streaming
    handler [_onIncident] is a separate entry point, reached from the bus
    and not from the Supervisor; it and its per-site buffers are the module
    [CorrelationStream] further down. *)
Module CorrelationAgent.
Import Js Tower State UtilsPolicy.

Record Incident := mkIncident {
  inc_siteId : string;
  inc_start : option string;
  inc_end : option string;
  inc_count : nat;
  inc_types : list (option string);
  inc_events : list BusEvent;
}.

(** The incident being built: [cur]. *)
Record Cur := mkCur {
  cur_start : option string;
  cur_end : option string;
  cur_count : nat;
  cur_types : list (option string);
  cur_events : list BusEvent;
}.

Definition opt_eqb (a b : option string) : bool :=
  match a, b with
  | Some x, Some y => String.eqb x y
  | None, None => true
  | _, _ => false
  end.

(** [set.add(x)]. *)
Definition set_add (x : option string) (s : list (option string)) : list (option string) :=
  if existsb (opt_eqb x) s then s else (s ++ [x])%list.

(** [String(policy?.alarmPrioritization || '').toLowerCase() || 'critical first'] *)
Definition policyMode (p : PolicyStore.Policy) : string :=
  match toLowerCase (PolicyStore.alarmPrioritization p) with
  | EmptyString => "critical first"
  | m => m
  end.

(** [e.type || e.alarm || 'unknown']. *)
Definition typ (e : BusEvent) : string :=
  str_or_empty (or_ (or_ (ev_type e) (ev_alarm e)) (Some "unknown")).

(** The predicate given to [events.filter]. *)
Definition keeps (mode : string) (e : BusEvent) : bool :=
  let siteId := nullish (ev_siteId e) "unknown" in
  if (negb (truthy (Some siteId)) || String.eqb siteId "unknown")%bool then false
  else if isNoiseAlarm (typ e) then false
  else if (String.eqb mode "critical first" && negb (isCriticalAlarm (typ e)))%bool then false
  else true.

Definition groupBySite (filtered : list BusEvent) : Map (list BusEvent) :=
  fold_left
    (fun bySite e =>
       let k := str_or_empty (ev_siteId e) in
       map_set k (nullish (map_get k bySite) [] ++ [e])%list bySite)
    filtered [].

Definition newCur (ev : BusEvent) : Cur :=
  mkCur (ev_timestamp ev) (ev_timestamp ev) 1 [or_ (ev_type ev) (ev_alarm ev)] [ev].

Definition extend (cur : Cur) (ev : BusEvent) : Cur :=
  mkCur (cur_start cur) (ev_timestamp ev) (S (cur_count cur))
    (set_add (or_ (ev_type ev) (ev_alarm ev)) (cur_types cur))
    (cur_events cur ++ [ev])%list.

Definition PUSH (site : string) (cur : option Cur) (incidents : list Incident) : list Incident :=
  match cur with
  | None => incidents
  | Some c =>
      (incidents ++
         [mkIncident site (cur_start c) (cur_end c) (cur_count c) (cur_types c) (cur_events c)])%list
  end.

Section WithEnv.
Context {E : Env}.

(** [new Date(ts).getTime()]; [None] is [NaN]. *)
Definition getTime (ts : option string) : option Z :=
  match ts with
  | Some s => Date_getTime s
  | None => None
  end.

(** The comparator [new Date(a.timestamp) - new Date(b.timestamp)] is
    positive. *)
Definition later (a b : BusEvent) : bool :=
  match getTime (ev_timestamp a), getTime (ev_timestamp b) with
  | Some x, Some y => y <? x
  | _, _ => false
  end.

(** [list.sort(comparator)]: a stable sort. *)
Fixpoint insert (x : BusEvent) (l : list BusEvent) : list BusEvent :=
  match l with
  | [] => [x]
  | y :: r => if later x y then y :: insert x r else x :: y :: r
  end.

Fixpoint sort (l : list BusEvent) : list BusEvent :=
  match l with
  | [] => []
  | x :: r => insert x (sort r)
  end.

(** [t - last <= WINDOW_MS]. *)
Definition within (t last : option Z) (WINDOW_MS : Z) : bool :=
  match t, last with
  | Some x, Some y => x - y <=? WINDOW_MS
  | _, _ => false
  end.

(** One turn of the loop over the sorted events of a site. *)
Definition window_step (WINDOW_MS : Z) (site : string)
  (acc : option Cur * list Incident) (ev : BusEvent) : option Cur * list Incident :=
  let (cur, incidents) := acc in
  let t := getTime (ev_timestamp ev) in
  match cur with
  | None => (Some (newCur ev), incidents)
  | Some c =>
      let last := getTime (cur_end c) in
      if within t last WINDOW_MS then (Some (extend c ev), incidents)
      else (Some (newCur ev), PUSH site cur incidents)
  end.

(** The body of the loop over [bySite.entries()]. *)
Definition correlate_site (WINDOW_MS : Z) (incidents : list Incident)
  (entry : string * list BusEvent) : list Incident :=
  let (site, list) := entry in
  let (cur, incidents') :=
    fold_left (window_step WINDOW_MS site) (sort list) (None, incidents) in
  PUSH site cur incidents'.

Definition correlate_incidents (mode : string) (WINDOW_MS : Z) (events : list BusEvent)
  : list Incident :=
  let filtered := List.filter (keeps mode) events in
  fold_left (correlate_site WINDOW_MS) (groupBySite filtered) [].

(** [correlate(events)]: the incidents, and the agent afterwards. *)
Definition correlate (events : list BusEvent) (s : Sys) : list Incident * Sys :=
  let mode := policyMode (PolicyStore.getPolicy (policy s)) in
  let filtered := List.filter (keeps mode) events in
  let incidents := correlate_incidents mode (agentA_windowMs s) events in
  let lastTask :=
    "correlated " ++ nat_to_string (List.length filtered) ++ " events → " ++
    nat_to_string (List.length incidents) ++ " incidents" in
  (incidents,
   with_agentA
     (fun a => AgentBase._log (nowIso s) lastTask (AgentBase.set_agent_task lastTask a)) s).

(** [start()]. *)
Definition start (s : Sys) : Sys :=
  match agent_status (agentA s) with
  | running => s
  | _ =>
      let s1 :=
        if String.eqb (agentA_delegation s) "disabled" then s
        else with_agentA (AgentBase._log (nowIso s) "delegation disabled (policy enforced)") s in
      let s2 :=
        with_agentA
          (fun a => AgentBase.set_agent_lifecycle running (Some (now s)) (agent_runtimeSec a) a) s1 in
      let s3 :=
        with_agentA_knobs (5 * 60 * 1000) "disabled" (IncidentBus.agentA_attachBus (bus s2)) s2 in
      with_agentA (AgentBase._log (nowIso s) "started (listening to incident bus)") s3
  end.

(** [stop()]. *)
Definition stop (s : Sys) : Sys :=
  with_agentA (AgentBase.stop (now s) (nowIso s)) s.

End WithEnv.
End CorrelationAgent.

(** ** server/agents/troubleshooting.js (Agent B) *)

Module TroubleshootingAgent.
Import Js Tower State.

Definition MAX_SWEEPS : nat := 3.
Definition MAX_RRU_ATTEMPTS : nat := 3.
Definition RECHECK_MS : Z := 1200.
Definition BOOT_SETTLE_MS : Z := 2500.
Definition BETWEEN_ACTION_MS : Z := 500.

Record Alarm := mkAlarm { code : string; detail : string }.

(** [{ ok, error }]. *)
Record Outcome := mkOutcome { ok : bool; error : option string }.

(** What [mitigateSite] returns. *)
Inductive MitigateResult :=
| Failed (err : string)
| ApprovalRequired (plan : list Step) (alarms : list Alarm) (site : Site)
| Mitigated (site : Site) (actionsTaken : list Step)
    (clearedAlarms remainingAlarms : list Alarm) (passes : nat) (allClear : bool).

Definition res_ok (r : MitigateResult) : bool :=
  match r with Mitigated _ _ _ _ _ _ => true | _ => false end.

Definition res_error (r : MitigateResult) : option string :=
  match r with
  | Failed e => Some e
  | ApprovalRequired _ _ _ => Some "approval_required"
  | Mitigated _ _ _ _ _ _ => None
  end.

Definition res_plan (r : MitigateResult) : option (list Step) :=
  match r with ApprovalRequired p _ _ => Some p | _ => None end.

Definition res_allClear (r : MitigateResult) : bool :=
  match r with Mitigated _ _ _ _ _ c => c | _ => false end.

Definition res_actionsTaken (r : MitigateResult) : option (list Step) :=
  match r with Mitigated _ a _ _ _ _ => Some a | _ => None end.

Definition equals (v : string) (o : option string) : bool :=
  match o with Some s => String.eqb s v | None => false end.

(** [!site.siteAlive]. *)
Definition not_alive (site : Site) : bool :=
  match siteAlive site with Some true => false | _ => true end.

Definition Z_to_string (z : Z) : string := NilZero.string_of_int (Z.to_int z).

(** The text of a property inside a template literal. *)
Definition show (o : option string) : string := nullish o "undefined".
Definition show_bool (o : option bool) : string :=
  match o with Some true => "true" | Some false => "false" | None => "undefined" end.
Definition show_Z (o : option Z) : string :=
  match o with Some z => Z_to_string z | None => "undefined" end.

Definition _detectAlarms (site : option Site) : list Alarm :=
  match site with
  | None => []
  | Some site =>
      let batt := nullish (batteryPercent site) 100 in
      ((if equals "off" (mains site) then [mkAlarm "Mains.Off" "Grid power off"] else []) ++
       (if match siteAlive site with Some false => true | _ => false end
        then [mkAlarm "Site.Down" "Site not reachable/booting"] else []) ++
       (if equals "Unavailable" (antenna1 site)
        then [mkAlarm "Antenna.A1.Unavailable" "A1 RRU/service down"] else []) ++
       (if equals "Unavailable" (antenna2 site)
        then [mkAlarm "Antenna.A2.Unavailable" "A2 RRU/service down"] else []) ++
       (if (equals "off" (mains site) && (batt <? 40))%bool
        then [mkAlarm "Battery.Low.GridDown" ("Battery " ++ Z_to_string batt ++ "% with grid down")]
        else []))%list
  end.

Definition has_code (c : string) (alarms : list Alarm) : bool :=
  existsb (fun a => String.eqb (code a) c) alarms.

Definition _buildPlan (siteId : string) (site : Site) : list Alarm * list Step :=
  let alarms := _detectAlarms (Some site) in
  let batt := nullish (batteryPercent site) 100 in
  let a1Up := equals "Available" (antenna1 site) in
  let a2Up := equals "Available" (antenna2 site) in
  let steps :=
    ((if has_code "Mains.Off" alarms
      then [mkStep "power.on" siteId None "Restore grid power"] else []) ++
     (if has_code "Antenna.A1.Unavailable" alarms
      then [mkStep "rru.ensure" siteId (Some "a1") "Heal A1 to Available"] else []) ++
     (if has_code "Antenna.A2.Unavailable" alarms
      then [mkStep "rru.ensure" siteId (Some "a2") "Heal A2 to Available"] else []) ++
     (if (equals "off" (mains site) && (batt <? 40) && a1Up && a2Up)%bool
      then [mkStep "rru.off" siteId (Some "a2") "Extend autonomy; keep A1 only"] else []))%list in
  (alarms, steps).

(** [antenna === 'a1' ? s?.antenna1?.service : s?.antenna2?.service]. *)
Definition service_of (antenna : string) (s : option Site) : option string :=
  match s with
  | None => None
  | Some site => if String.eqb antenna "a1" then antenna1 site else antenna2 site
  end.

Definition newline : string := String (ascii_of_nat 10) EmptyString.

Section WithEnv.
Context {E : Env}.

Definition _log (msg : string) (s : Sys) : Sys :=
  with_agentB (AgentBase._log (nowIso s) msg) s.

Definition start (s : Sys) : Sys := with_agentB (AgentBase.start (now s) (nowIso s)) s.
Definition stop (s : Sys) : Sys := with_agentB (AgentBase.stop (now s) (nowIso s)) s.

Fixpoint _waitAndGet (siteId : string) (tries : nat) (ms : Z) (s : Sys) : option Site * Sys :=
  match tries with
  | O => (None, s)
  | S n =>
      let s1 := _sleep ms s in
      let (last, s2) := _fetchSite siteId s1 in
      match last with
      | Some _ => (last, s2)
      | None => _waitAndGet siteId n ms s2
      end
  end.

Definition attempt_text (attempt : nat) : string :=
  "(attempt " ++ nat_to_string attempt ++ "/" ++ nat_to_string MAX_RRU_ATTEMPTS ++ ")".

(** The body of the loop of [_healRadio] for the attempt numbered
    [attempt]: [true] when it returned [{ ok: true }]. *)
Definition heal_attempt (attempt : nat) (siteId antenna : string) (s : Sys) : bool * Sys :=
  let s1 := rru siteId antenna "on" s in
  let s2 := _log ("RRU ON issued " ++ siteId ++ " " ++ antenna ++ " " ++ attempt_text attempt) s1 in
  let s3 := _sleep RECHECK_MS s2 in
  let (r, s4) := _fetchSite siteId s3 in
  let (r', s5) :=
    match r with
    | Some site =>
        if (equals "on" (mains site) && not_alive site)%bool then
          let s' := _log ("waiting siteAlive after RRU ON on " ++ siteId ++ "…") s4 in
          let (w, s'') := _waitAndGet siteId 3 RECHECK_MS s' in
          (match w with Some _ => w | None => r end, s'')
        else (r, s4)
    | None => (r, s4)
    end in
  if equals "Available" (service_of antenna r') then (true, s5)
  else
    let s6 := rru siteId antenna "off" s5 in
    let s7 := _log ("RRU RESET step (OFF) " ++ siteId ++ " " ++ antenna ++
                    " (attempt " ++ nat_to_string attempt ++ ")") s6 in
    let s8 := _sleep 400 s7 in
    let s9 := rru siteId antenna "on" s8 in
    let s10 := _log ("RRU RESET step (ON) " ++ siteId ++ " " ++ antenna ++
                     " (attempt " ++ nat_to_string attempt ++ ")") s9 in
    let s11 := _sleep RECHECK_MS s10 in
    let (r2, s12) := _fetchSite siteId s11 in
    (equals "Available" (service_of antenna r2), s12).

(** [for (attempt = ...; attempt <= MAX_RRU_ATTEMPTS; attempt++)] with
    [remaining] turns left, then the lines after the loop. *)
Fixpoint heal_loop (remaining attempt : nat) (siteId antenna : string) (s : Sys) : Outcome * Sys :=
  match remaining with
  | O =>
      (mkOutcome false (Some "rru_unavailable"),
       _log ("RRU HEAL failed " ++ siteId ++ " " ++ antenna ++ " after " ++
             nat_to_string MAX_RRU_ATTEMPTS ++ " attempt(s)") s)
  | S n =>
      let (done, s') := heal_attempt attempt siteId antenna s in
      if done then (mkOutcome true None, s')
      else heal_loop n (S attempt) siteId antenna s'
  end.

Definition _healRadio (siteId antenna : string) (s : Sys) : Outcome * Sys :=
  heal_loop MAX_RRU_ATTEMPTS 1 siteId antenna s.

Definition _applyStep (step : Step) (s : Sys) : Outcome * Sys :=
  let action := step_action step in
  let siteId := step_siteId step in
  let antenna := show (step_antenna step) in
  if negb (truthy (Some action)) then (mkOutcome true None, s)
  else if String.eqb action "power.on" then
    let s1 := power siteId "on" s in
    let s2 := _log ("power ON issued for " ++ siteId) s1 in
    let s3 := SupervisorStore.supervisorNote ("Troubleshooting: powered ON " ++ siteId) s2 in
    (mkOutcome true None, _sleep BOOT_SETTLE_MS s3)
  else if String.eqb action "rru.off" then
    let s1 := rru siteId antenna "off" s in
    (mkOutcome true None, _log ("RRU OFF issued " ++ siteId ++ " " ++ antenna) s1)
  else if String.eqb action "rru.ensure" then _healRadio siteId antenna s
  else if String.eqb action "rru.on" then
    let s1 := rru siteId antenna "on" s in
    (mkOutcome true None, _log ("RRU ON issued " ++ siteId ++ " " ++ antenna) s1)
  else (mkOutcome true None, s).

Definition args_json (step : Step) : string :=
  JSON_stringify
    (("siteId", Some (step_siteId step)) ::
     match step_antenna step with Some a => [("antenna", Some a)] | None => [] end).

Definition planText (steps : list Step) : string :=
  join newline
    (List.map (fun st => "- " ++ step_action st ++ " " ++ args_json st ++ " | " ++ step_reason st)
       steps).

(** The first pass: the steps of the initial plan, in order. *)
Definition run_plan (steps : list Step) (s : Sys) : list Step * Sys :=
  fold_left
    (fun acc step =>
       let (taken, s0) := acc : list Step * Sys in
       let (_, s1) := _applyStep step s0 in
       ((taken ++ [step])%list, _sleep BETWEEN_ACTION_MS s1))
    steps ([], s).

(** The loop over [radioAlarms] of one sweep. *)
Definition heal_radios (siteId : string) (radioAlarms : list Alarm)
  (actionsTaken : list Step) (s : Sys) : list Step * Sys :=
  fold_left
    (fun acc ra =>
       let (taken, s0) := acc : list Step * Sys in
       let antenna := if includes "A1" (code ra) then "a1" else "a2" in
       let (out, s1) := _healRadio siteId antenna s0 in
       let taken' := (taken ++ [mkStep "rru.ensure" siteId (Some antenna) "Radio heal sweep"])%list in
       let s2 := if ok out then s1
                 else _log ("radio heal sweep could not restore " ++ antenna ++ " on " ++ siteId) s1 in
       (taken', _sleep BETWEEN_ACTION_MS s2))
    radioAlarms (actionsTaken, s).

(** [while (pass < MAX_SWEEPS)] with [remaining] turns left. *)
Fixpoint sweeps (remaining pass : nat) (siteId : string) (site : Site)
  (actionsTaken : list Step) (s : Sys) : (Site * list Step * nat) * Sys :=
  match remaining with
  | O => ((site, actionsTaken, pass), s)
  | S n =>
      let pass' := S pass in
      let (r, s1) := _waitAndGet siteId 1 RECHECK_MS s in
      let site' := nullish r site in
      let alarms := _detectAlarms (Some site') in
      let radioAlarms := List.filter (fun a => String.prefix "Antenna." (code a)) alarms in
      let mainsOff := has_code "Mains.Off" alarms in
      let siteDown := has_code "Site.Down" alarms in
      if (negb mainsOff && negb siteDown && (List.length radioAlarms =? 0)%nat)%bool
      then ((site', actionsTaken, pass'), s1)
      else
        let (taken, s2) := heal_radios siteId radioAlarms actionsTaken s1 in
        let (taken', s3) :=
          if mainsOff then
            let s' := power siteId "on" s2 in
            let s'' := _log ("retry power ON for " ++ siteId ++ " during sweep") s' in
            ((taken ++ [mkStep "power.on" siteId None "Sweep retry"])%list,
             _sleep BOOT_SETTLE_MS s'')
          else (taken, s2) in
        sweeps n pass' siteId site' taken' s3
  end.

Definition site_text (site : Site) : string :=
  "(mains:" ++ show (mains site) ++ ", alive:" ++ show_bool (siteAlive site) ++
  ", batt:" ++ show_Z (batteryPercent site) ++ "%)".

(** The execution branch of [mitigateSite] (E2E automation). *)
Definition execute (siteId : string) (site : Site) (initial : list Alarm * list Step) (s : Sys)
  : MitigateResult * Sys :=
  let (taken, s1) := run_plan (snd initial) s in
  let (r, s2) := _waitAndGet siteId 2 RECHECK_MS s1 in
  let site1 := nullish r site in
  let (site2, s3) :=
    if (equals "on" (mains site1) && not_alive site1)%bool then
      let s' := _log ("waiting for " ++ siteId ++ " to fully boot after power on…") s2 in
      let (r', s'') := _waitAndGet siteId 3 (RECHECK_MS + 300) s' in
      (nullish r' site1, s'')
    else (site1, s2) in
  let '((site3, taken', pass), s4) := sweeps MAX_SWEEPS 0 siteId site2 taken s3 in
  let (r4, s5) := _waitAndGet siteId 2 RECHECK_MS s4 in
  let site4 := nullish r4 site3 in
  let finalAlarms := _detectAlarms (Some site4) in
  let clearedAlarms :=
    List.filter (fun a0 => negb (has_code (code a0) finalAlarms)) (fst initial) in
  let allClear := (List.length finalAlarms =? 0)%nat in
  let lastTask := "mitigated " ++ siteId ++ " " ++ site_text site4 in
  let s6 := with_agentB (AgentBase.set_agent_task lastTask) s5 in
  let s7 := _log lastTask s6 in
  let s8 :=
    if allClear then
      SupervisorStore.supervisorNote
        ("Troubleshooting: " ++ siteId ++ " restored and alarms cleared (" ++
         nat_to_string (List.length clearedAlarms) ++ " cleared).") s7
    else
      SupervisorStore.supervisorNote
        ("Troubleshooting: " ++ siteId ++ " stabilized; remaining alarms=" ++
         match join ", " (List.map code finalAlarms) with
         | EmptyString => "none"
         | t => t
         end ++ ".") s7 in
  (Mitigated site4 taken' clearedAlarms finalAlarms pass allClear, s8).

(** The planning branch of [mitigateSite] (human in the loop). *)
Definition propose (siteId : string) (site : Site) (initial : list Alarm * list Step) (s : Sys)
  : MitigateResult * Sys :=
  let text := planText (snd initial) in
  let s1 :=
    SupervisorStore.supervisorNote
      ("Troubleshooting (HITL): Proposed plan for " ++ siteId ++ ":" ++ newline ++
       match text with EmptyString => "(no actions needed)" | t => t end) s in
  let s2 := _log ("policy HITL → approval required for " ++ siteId ++ ", " ++
                  nat_to_string (List.length (snd initial)) ++ " step(s)") s1 in
  (ApprovalRequired (snd initial) (fst initial) site, s2).

Definition mitigateSite (siteId : string) (s : Sys) : MitigateResult * Sys :=
  match agent_status (agentB s) with
  | running =>
      let policy := PolicyStore.getPolicy (policy s) in
      let e2e := String.eqb (toLowerCase (PolicyStore.waysOfWorking policy)) "e2e automation" in
      let (r, s1) := _fetchSite siteId s in
      match r with
      | None => (Failed "site_not_found", _log ("mitigate: site " ++ siteId ++ " not found") s1)
      | Some site =>
          let s2 :=
            _log ("mitigate: start " ++ siteId ++ " (mains=" ++ show (mains site) ++
                  ", alive=" ++ show_bool (siteAlive site) ++ ", batt=" ++
                  show_Z (batteryPercent site) ++ "%, policy.wow=" ++
                  String (ascii_of_nat 34) (PolicyStore.waysOfWorking policy) ++
                  String (ascii_of_nat 34) ")") s1 in
          let initial := _buildPlan siteId site in
          if negb e2e then propose siteId site initial s2
          else execute siteId site initial s2
      end
  | _ => (Failed "Agent not running", s)
  end.

End WithEnv.
End TroubleshootingAgent.

(** ** server/agents/rca.js (Agent C) *)

Module RcaAgent.
Import Js Tower State.

Definition NOISE_CAUSES : list string := ["unknown"; "heartbeat"; "noop"].
Definition DEDUP_WINDOW_MS : Z := 10000.

(** What [recordIncident] returns: [{ ok: true, case }] or
    [{ ok: false, skipped: true, reason }]. *)
Inductive RecordResult :=
| Recorded (c : Case)
| Skipped (reason : string).

(** What [composeDispatchEmail] returns: [{ ok: true, subject, body }] or
    [{ ok: false, error }]. *)
Inductive EmailResult :=
| Email (subject body : string)
| NoEmail (err : string).

(** [_isNoise({ siteId, cause })]. *)
Definition _isNoise (siteId cause : string) : bool :=
  if (negb (truthy (Some siteId)) || String.eqb siteId "unknown")%bool then true
  else existsb (String.eqb (toLowerCase cause)) NOISE_CAUSES.

Definition _detectAlarmsFromSite (site : option Site) : list string :=
  match site with
  | None => []
  | Some site =>
      ((if TroubleshootingAgent.equals "off" (mains site) then ["Mains.Off"] else []) ++
       (if match siteAlive site with Some false => true | _ => false end then ["Site.Down"] else []) ++
       (if TroubleshootingAgent.equals "Unavailable" (antenna1 site)
        then ["Antenna.A1.Unavailable"] else []) ++
       (if TroubleshootingAgent.equals "Unavailable" (antenna2 site)
        then ["Antenna.A2.Unavailable"] else []))%list
  end.

(** [site?.mains ?? 'n/a'] and the like. *)
Definition na (o : option string) : string := nullish o "n/a".

Definition alive_text (site : option Site) : string :=
  match site with
  | Some s =>
      match siteAlive s with
      | Some true => "up"
      | Some false => "down"
      | None => "n/a"
      end
  | None => "n/a"
  end.

Definition field {A} (f : Site -> option A) (site : option Site) : option A :=
  match site with Some s => f s | None => None end.

Definition _buildSummaryLine (siteId cause resolution : string) (site : option Site)
  (alarms : list string) : string :=
  let al := match alarms with
            | [] => "alarms=none"
            | _ => "alarms=[" ++ join ", " alarms ++ "]"
            end in
  "Site " ++ siteId ++ ": cause=" ++ cause ++ " • resolution=" ++ resolution ++
  " • mains=" ++ na (field mains site) ++ " • cell=" ++ alive_text site ++
  " • A1=" ++ na (field antenna1 site) ++ " • A2=" ++ na (field antenna2 site) ++ " • " ++ al.

(** [casebook.slice().reverse().find(c => c.siteId === siteId && !this._isNoise(c))]. *)
Definition latest_for (siteId : string) (casebook : list Case) : option Case :=
  List.find
    (fun c => (String.eqb (case_siteId c) siteId &&
               negb (_isNoise (case_siteId c) (case_cause c)))%bool)
    (List.rev casebook).

(** The subject line of the dispatch email. *)
Definition subject_of (siteId : string) (latest : Case) : string :=
  "[DISPATCH] " ++ siteId ++ " – " ++
  match case_cause latest with EmptyString => "Degradation" | c => c end ++
  " – Action required".

Section WithEnv.
Context {E : Env}.

Definition _log (msg : string) (s : Sys) : Sys :=
  with_agentC (AgentBase._log (nowIso s) msg) s.

Definition start (s : Sys) : Sys := with_agentC (AgentBase.start (now s) (nowIso s)) s.
Definition stop (s : Sys) : Sys := with_agentC (AgentBase.stop (now s) (nowIso s)) s.

(** [_dedup(siteId, cause, resolution)]. *)
Definition _dedup (siteId cause resolution : string) (s : Sys) : bool * Sys :=
  let t := now s in
  match lastBySite s !! siteId with
  | Some last =>
      if (String.eqb (last_cause last) cause && String.eqb (last_resolution last) resolution &&
          (t - last_ts last <? DEDUP_WINDOW_MS))%bool
      then (true, s)
      else (false, with_lastBySite (fun m => <[siteId := mkLast cause resolution t]> m) s)
  | None => (false, with_lastBySite (fun m => <[siteId := mkLast cause resolution t]> m) s)
  end.

Definition recordIncident (siteId cause : string) (actions : list Step) (resolution : string)
  (s : Sys) : RecordResult * Sys :=
  let s0 := match agent_status (agentC s) with running => s | _ => start s end in
  if _isNoise siteId cause then (Skipped "noise_or_unknown", s0)
  else
    let (dup, s1) := _dedup siteId cause resolution s0 in
    if dup then (Skipped "dedup_suppressed", s1)
    else
      let (site, s2) := _fetchSite siteId s1 in
      let alarms := _detectAlarmsFromSite site in
      let ongoing :=
        (negb (String.eqb resolution "restored") || negb (List.length alarms =? 0)%nat)%bool in
      let summary := _buildSummaryLine siteId cause resolution site alarms in
      let item := mkCase (nowIso s2) siteId cause actions resolution ongoing ongoing summary in
      let s3 :=
        if case_dispatchSuggested item
        then SupervisorStore.supervisorNote
               ("RCA: Dispatch suggested for " ++ siteId ++ " (" ++ summary ++ ")") s2
        else SupervisorStore.supervisorNote
               ("RCA: " ++ siteId ++ " resolved — " ++ summary) s2 in
      let s4 := with_casebook (fun cb => (cb ++ [item])%list) s3 in
      let lastTask :=
        "RCA recorded " ++ siteId ++ " (resolution=" ++ resolution ++ ", dispatch=" ++
        (if case_dispatchSuggested item then "true" else "false") ++ ")" in
      let s5 := with_agentC (AgentBase.set_agent_task lastTask) s4 in
      (Recorded item, _log lastTask s5).

Definition action_text (a : Step) : string :=
  "- " ++ match step_action a with EmptyString => "action" | x => x end ++ " " ++
  TroubleshootingAgent.args_json a ++ " " ++
  match step_reason a with EmptyString => EmptyString | r => "| " ++ r end.

Definition body_of (siteId : string) (latest : Case) (site : option Site) : string :=
  let nl := TroubleshootingAgent.newline in
  let alarms := _detectAlarmsFromSite site in
  let batt := match field batteryPercent site with
              | Some z => TroubleshootingAgent.Z_to_string z
              | None => "n/a"
              end in
  let actionsTxt := join nl (List.map action_text (case_actions latest)) in
  "Site: " ++ siteId ++ nl ++
  "When: " ++ case_ts latest ++ nl ++
  "Current status: mains=" ++ na (field mains site) ++ ", cell=" ++ alive_text site ++
  ", A1=" ++ na (field antenna1 site) ++ ", A2=" ++ na (field antenna2 site) ++
  ", battery=" ++ batt ++ "%" ++ nl ++
  "Open alarms: " ++
  match alarms with [] => "none detected" | _ => join ", " alarms end ++ nl ++ nl ++
  "Actions taken so far:" ++ nl ++
  match actionsTxt with EmptyString => "- none recorded" | t => t end ++ nl ++ nl ++
  "Requested next step:" ++ nl ++
  "- Field dispatch to investigate/restore service." ++ nl ++
  "- Please check grid power, site access, RRUs, and backhaul as applicable." ++ nl ++ nl ++
  "Summary:" ++ nl ++ case_summary latest ++ nl ++ nl ++
  "Thank you," ++ nl ++ "Supervisor".

Definition composeDispatchEmail (siteId : string) (s : Sys) : EmailResult * Sys :=
  match latest_for siteId (casebook s) with
  | None => (NoEmail "no_unresolved_case", s)
  | Some latest =>
      if negb (case_dispatchSuggested latest) then (NoEmail "no_unresolved_case", s)
      else
        let (site, s1) := _fetchSite siteId s in
        (Email (subject_of siteId latest) (body_of siteId latest site), s1)
  end.

End WithEnv.
End RcaAgent.

(** ** server/supervisor/store.js: life cycle, ledger, orchestration *)

Module Supervisor.
Import Js Tower State SupervisorStore.

Definition PROCESSED_TTL_MS : Z := 60000.

(** [eventId(evt)]: [`${t}|${s}|${a}|${ts}`]. *)
Definition eventId (evt : BusEvent) : string :=
  let t := str_or_empty (ev_type evt) in
  let s := str_or_empty (ev_siteId evt) in
  let a := str_or_empty (ev_alarm evt) in
  let ts := str_or_empty (or_ (ev_timestamp evt) (ev_ts evt)) in
  t ++ "|" ++ s ++ "|" ++ a ++ "|" ++ ts.

(** [remember(id)] at the instant [t], on the ledger [processed]. *)
Definition remember (id : string) (t : Z) (processed : gmap string Z) : gmap string Z :=
  let p := <[id := t]> processed in
  if (5000 <? size p)%nat
  then base.filter (fun kv : string * Z => t - PROCESSED_TTL_MS <= kv.2) p
  else p.

(** [(evt?.siteId && String(evt.siteId).trim()) || null]. *)
Definition siteId_of (evt : BusEvent) : option string :=
  if truthy (ev_siteId evt) then
    let t := trim (str_or_empty (ev_siteId evt)) in
    if truthy (Some t) then Some t else None
  else None.

(** [actionable.has(String(evt?.type))]. *)
Definition actionable (evt : BusEvent) : bool :=
  match ev_type evt with
  | Some t => (String.eqb t "alarm.raised" || String.eqb t "service.changed")%bool
  | None => false
  end.

Section WithEnv.
Context {E : Env}.

(** [startedAt?.getTime() || Date.now()], then the whole seconds since. *)
Definition delta (s : Sys) : Z :=
  let t0 := match startedAt (supervisor s) with
            | Some t => if t =? 0 then now s else t
            | None => now s
            end in
  (now s - t0) / 1000.

(** [ensureAgentsStopped()] and [ensureAgentsRunning()]: called without
    [await], so their bodies run after the caller has returned. *)
Definition ensureAgentsStopped (s : Sys) : Sys :=
  RcaAgent.stop (TroubleshootingAgent.stop (CorrelationAgent.stop s)).

Definition ensureAgentsRunning (s : Sys) : Sys :=
  let s1 := match agent_status (agentA s) with running => s | _ => CorrelationAgent.start s end in
  let s2 := match agent_status (agentB s1) with running => s1 | _ => TroubleshootingAgent.start s1 end in
  match agent_status (agentC s2) with running => s2 | _ => RcaAgent.start s2 end.

Definition stop (s : Sys) : string * Sys :=
  let sup := supervisor s in
  let rt :=
    match status sup with
    | running | paused => runtimeSec sup + Z.max 0 (delta s)
    | _ => runtimeSec sup
    end in
  let s1 := with_supervisor (set_lifecycle stopped None rt) s in
  let s2 := _log "stopped" s1 in
  ("OK: stopped", ensureAgentsStopped s2).

Definition pause (s : Sys) : string * Sys :=
  let sup := supervisor s in
  match status sup with
  | running =>
      let rt := runtimeSec sup + Z.max 0 (delta s) in
      ("OK: paused", _log "paused" (with_supervisor (set_lifecycle paused None rt) s))
  | _ => ("Not running", s)
  end.

Definition resume (s : Sys) : string * Sys :=
  let sup := supervisor s in
  match status sup with
  | paused =>
      let s1 := with_supervisor (set_lifecycle running (Some (now s)) (runtimeSec sup)) s in
      ("OK: resumed", ensureAgentsRunning (_log "resumed" s1))
  | _ => ("Not paused", s)
  end.

(** Step 2 of [handleEvent]: the "investigating" case. *)
Definition record_investigating (siteId : string) (s : Sys) : Sys :=
  let (_, s1) := RcaAgent.recordIncident siteId "correlated_alarm_cluster" [] "investigating" s in
  _log ("Agent C: investigating recorded for " ++ siteId) s1.

Definition ensure_agentB (s : Sys) : Sys :=
  match agent_status (agentB s) with running => s | _ => TroubleshootingAgent.start s end.

(** Step 3 of [handleEvent] when [autoEffective()] is false. *)
Definition hitl_path (siteId : string) (s : Sys) : Sys :=
  let s1 := ensure_agentB s in
  let (out, s2) := TroubleshootingAgent.mitigateSite siteId s1 in
  match out with
  | TroubleshootingAgent.ApprovalRequired plan _ _ =>
      let (_, s3) :=
        addApprovalRequest siteId plan "Troubleshooting HITL plan requires approval" s2 in
      _log ("HITL: plan queued for approval @ " ++ siteId ++ " (steps=" ++
            nat_to_string (List.length plan) ++ ")") s3
  | _ =>
      _log ("HITL: result for " ++ siteId ++ " (ok=" ++
            (if TroubleshootingAgent.res_ok out then "true" else "false") ++ ", err=" ++
            match TroubleshootingAgent.res_error out with
            | Some (String c r) => String c r
            | _ => "none"
            end ++ ")") s2
  end.

(** Steps 3 and 4 of [handleEvent] when [autoEffective()] is true. *)
Definition auto_path (siteId : string) (s : Sys) : Sys :=
  let s1 := ensure_agentB s in
  let s2 := incrementTasksRouted 1 s1 in
  let s3 := _log ("Agent B: mitigating " ++ siteId ++ "…") s2 in
  let (result, s4) := TroubleshootingAgent.mitigateSite siteId s3 in
  let actions := nullish (TroubleshootingAgent.res_actionsTaken result) [] in
  if (TroubleshootingAgent.res_ok result && TroubleshootingAgent.res_allClear result)%bool then
    let (_, s5) := RcaAgent.recordIncident siteId "correlated_alarm_cluster" actions "restored" s4 in
    _log ("Agent C: restored recorded for " ++ siteId) s5
  else
    let (_, s5) := RcaAgent.recordIncident siteId "correlated_alarm_cluster" actions "stabilized" s4 in
    _log ("Agent C: stabilized/dispatch-suggested recorded for " ++ siteId) s5.

(** The event handed to Agent A. *)
Definition correlateInput (siteId : string) (evt : BusEvent) (s : Sys) : list BusEvent :=
  [ {| ev_type := or_ (or_ (ev_alarm evt) (ev_type evt)) (Some "unknown");
       ev_siteId := Some siteId;
       ev_alarm := None;
       ev_timestamp := or_ (or_ (ev_timestamp evt) (ev_ts evt)) (Some (nowIso s));
       ev_ts := None; ev_source := None; ev_bootstrap := None;
       ev_antenna := None; ev_from := None; ev_to := None |} ].

(** Step 1 of [handleEvent] and what follows it. *)
Definition orchestrate (siteId : string) (evt : BusEvent) (s : Sys) : Sys :=
  let s1 := match agent_status (agentA s) with running => s | _ => CorrelationAgent.start s end in
  let (incidents, s2) := CorrelationAgent.correlate (correlateInput siteId evt s1) s1 in
  let s3 := _log ("Agent A: " ++ siteId ++ " → " ++ nat_to_string (List.length incidents) ++
                  " incident(s)") s2 in
  match incidents with
  | [] => s3
  | _ =>
      let s4 := record_investigating siteId s3 in
      if negb (autoEffective s4) then hitl_path siteId s4
      else auto_path siteId s4
  end.

(** [handleEvent] after the ledger: from the [bus.event] log line on. *)
Definition process (evt : BusEvent) (s : Sys) : Sys :=
  let siteId := siteId_of evt in
  let s1 :=
    _log ("bus.event → " ++
          JSON_stringify [("type", ev_type evt); ("siteId", siteId); ("alarm", ev_alarm evt);
                          ("ts", or_ (ev_timestamp evt) (ev_ts evt))]) s in
  match status (supervisor s1) with
  | running =>
      match siteId with
      | None => _log "event.skipped → missing siteId" s1
      | Some siteId =>
          if actionable evt then orchestrate siteId evt s1
          else _log ("event.skipped → non-actionable type: " ++
                     TroubleshootingAgent.show (ev_type evt)) s1
      end
  | _ => _log "supervisor.idle → ignoring bus event" s1
  end.

(** [handleEvent(evt)], on the ledger [processed] and the rest of the
    state. *)
Definition handleEvent (evt : BusEvent) (st : gmap string Z * Sys) : gmap string Z * Sys :=
  let (processed, s) := st in
  let id := eventId evt in
  match processed !! id with
  | Some _ => (processed, _log ("event.duplicate → " ++ id) s)
  | None => (remember id (now s) processed, process evt s)
  end.

(** Events handed to [handleEvent] one after the other. *)
Definition handleEvents (evts : list BusEvent) (st : gmap string Z * Sys) : gmap string Z * Sys :=
  fold_left (fun st evt => handleEvent evt st) evts st.

End WithEnv.
End Supervisor.

(** ** Concrete environments and data, for evaluating the model *)

Module Scenario.
Import Js Tower State.

(** A simulator that answers [GET /state] from a script, then with
    [steady]; requests only let time pass. *)
Record Scripted := mkScripted {
  clock : Z;
  script : list (option Sites);
  steady : option Sites;
}.

Definition scripted_state (w : Scripted) : option Sites * Scripted :=
  match script w with
  | [] => (steady w, w)
  | r :: rest => (r, mkScripted (clock w) rest (steady w))
  end.

Definition render (l : list (string * option string)) : string :=
  "{" ++ join "," (List.map (fun kv => fst kv ++ ":" ++ nullish (snd kv) "null") l) ++ "}".

Definition scripted : Env :=
  {| World := Scripted;
     Date_now := clock;
     toISOString := TroubleshootingAgent.Z_to_string;
     Date_getTime := fun s => Some (Z.of_nat (String.length s));
     JSON_stringify := render;
     sim_state := scripted_state;
     sim_power := fun _ _ w => w;
     sim_rru := fun _ _ _ w => w;
     sim_sleep := fun ms w => mkScripted (clock w + ms) (script w) (steady w) |}.

(** A simulator that always serves the same fleet; its state is the
    clock. *)
Definition constant (fleet : Sites) : Env :=
  {| World := Z;
     Date_now := fun w => w;
     toISOString := TroubleshootingAgent.Z_to_string;
     Date_getTime := fun s => Some (Z.of_nat (String.length s));
     JSON_stringify := render;
     sim_state := fun w => (Some fleet, w);
     sim_power := fun _ _ w => w;
     sim_rru := fun _ _ _ w => w;
     sim_sleep := fun ms w => w + ms |}.

Definition healthy : Site :=
  mkSite (Some "on") (Some true) (Some 90) (Some "Available") (Some "Available") (Some []).

(** Scenario 1 of the specification at T1: mains off, both radios down. *)
Definition outage : Site :=
  mkSite (Some "off") (Some true) (Some 90) (Some "Unavailable") (Some "Unavailable")
    (Some ["MainsFailure"; "ServiceUnavailable"]).

(** Mains back, site still booting, A1 reported available. *)
Definition booting : Site :=
  mkSite (Some "on") (Some false) (Some 90) (Some "Available") (Some "Available") (Some []).

(** Mains on, site up, A1 down. *)
Definition a1_down : Site :=
  mkSite (Some "on") (Some true) (Some 90) (Some "Unavailable") (Some "Available") (Some []).

Definition mains_failure (ts : string) : BusEvent :=
  {| ev_type := Some "alarm.raised"; ev_siteId := Some "S1"; ev_alarm := Some "MainsFailure";
     ev_timestamp := None; ev_ts := Some ts; ev_source := Some "delta"; ev_bootstrap := None;
     ev_antenna := None; ev_from := None; ev_to := None |}.

Definition agent (name : string) (st : Status) : Agent :=
  mkAgent name st None 0 0 None [].

Section WithEnv.
Context {E : Env}.

(** The server after load, with the given policy, toggle, supervisor
    status, agent status and world. *)
Definition server (p : PolicyStore.Policy) (toggle : bool) (st ag : Status) (w : World) : Sys :=
  mkSys (SupervisorStore.set_lifecycle st None 0 SupervisorStore.initial) p toggle
    (agent "Agent A" ag) (5 * 60 * 1000) "disabled" (agent "Agent B" ag) (agent "Agent C" ag)
    [] ∅ (IncidentBus.supervisor_wiring IncidentBus.incidentBus) w [].

End WithEnv.

Definition hitl_policy : PolicyStore.Policy := PolicyStore.DEFAULT_POLICY "2025-01-01T00:00:00Z".

End Scenario.

(** ** Array reads of the JavaScript runtime used by the views below *)

Module JsArray.

(** [arr.slice(-n)] for a positive [n]: the last [n] elements. *)
Definition slice_last {A} (n : nat) (l : list A) : list A :=
  skipn (List.length l - n)%nat l.

(** [arr[arr.length - 1]] and [arr.at(-1)]. *)
Definition at_last {A} (l : list A) : option A :=
  nth_error l (List.length l - 1)%nat.

End JsArray.

(** ** server/utils/policy.js: the policy helpers *)

Module PolicyModes.
Import Js PolicyStore.

(** [String(val || '').trim().toLowerCase()]. *)
Definition normalizePolicyValue (val : option string) : string :=
  toLowerCase (trim (str_or_empty val)).

(** [policy] is [None] when the argument is null or undefined. *)
Definition isPolicyModeCriticalFirst (policy : option Policy) : bool :=
  String.eqb (normalizePolicyValue (option_map alarmPrioritization policy)) "critical first".

Definition isPolicyModeAdaptive (policy : option Policy) : bool :=
  String.eqb (normalizePolicyValue (option_map alarmPrioritization policy)) "adaptive correlation".

(** [shouldAutoMitigate(policy, toggle)]; [enabled] is [toggle?.enabled]. *)
Definition shouldAutoMitigate (policy : option Policy) (enabled : option bool) : bool :=
  let wow := normalizePolicyValue (option_map waysOfWorking policy) in
  (String.eqb wow "e2e automation" || nullish enabled false)%bool.

End PolicyModes.

(** ** server/supervisor/pipeline.js *)

Module Pipeline.
Import Js State.

Definition WINDOW_MS : Z := 3000.
Definition QUIET_CHECK_MS : Z := 4000.

(** [{ enabled, windowMs, quietCheckMs }]. *)
Record AutoStatus := mkAutoStatus {
  auto_enabled : bool;
  auto_windowMs : Z;
  auto_quietCheckMs : Z;
}.

Section WithEnv.
Context {E : Env}.

Definition with_autoEnabled (flag : bool) (s : Sys) : Sys :=
  mkSys (supervisor s) (policy s) flag (agentA s) (agentA_windowMs s)
    (agentA_delegation s) (agentB s) (agentC s) (casebook s) (lastBySite s) (bus s)
    (world s) (history s).

(** [setAutoEnabled(flag)]: what it returns as [enabled], and the state. *)
Definition setAutoEnabled (flag : bool) (s : Sys) : bool * Sys :=
  let s1 := with_autoEnabled flag s in
  (autoEnabled s1,
   SupervisorStore.supervisorNote
     ("Auto-pipeline " ++ (if autoEnabled s1 then "ENABLED" else "DISABLED") ++
      " (manual toggle)") s1).

Definition getAutoStatus (s : Sys) : AutoStatus :=
  mkAutoStatus (autoEnabled s) WINDOW_MS QUIET_CHECK_MS.

(** [initPipeline()]: its message, and the state. *)
Definition initPipeline (s : Sys) : string * Sys :=
  ("Pipeline init is a no-op; orchestration moved to supervisor/store.js",
   SupervisorStore.supervisorNote "Pipeline init no-op; orchestration handled by Supervisor." s).

End WithEnv.
End Pipeline.

(** ** server/bus/incidentBus.js: the buffer of recent events *)

Module BusBuffer.
Import Js Tower JsArray.

Definition MAX_EVENTS : nat := 100.

(** The listener registered on ['event'] at module load, as far as the
    buffer goes. [evt] is [None] for a payload that is not an object. *)
Definition store (evt : option BusEvent) (buffer : list BusEvent) : list BusEvent :=
  match evt with
  | Some e => push_ring MAX_EVENTS e buffer
  | None => buffer
  end.

(** A run of [publish(evt)] calls. *)
Definition publish_all (evts : list (option BusEvent)) (buffer : list BusEvent)
  : list BusEvent :=
  fold_left (fun b e => store e b) evts buffer.

Definition getRecentEvents (buffer : list BusEvent) : list BusEvent := buffer.

(** [{ bufferSize, lastEvent, wsManagedBy }]. *)
Record Status := mkStatus {
  bufferSize : nat;
  lastEvent : option BusEvent;
  wsManagedBy : string;
}.

Definition getStatus (buffer : list BusEvent) : Status :=
  mkStatus (List.length buffer) (at_last buffer) "tower/bridge.js".

(** What [subscribe(res)] and the route [GET /api/bus] send of the
    buffer: [buffer.slice(-5)]. *)
Definition recent (buffer : list BusEvent) : list BusEvent := slice_last 5 buffer.

End BusBuffer.

(** ** server/tools/state.js *)

Module ToolsState.
Import Js Tower.

(** [isRestored(site)]. *)
Definition isRestored (site : option Site) : bool :=
  match site with
  | None => false
  | Some site =>
      (TroubleshootingAgent.equals "on" (mains site) &&
       match siteAlive site with Some true => true | _ => false end &&
       TroubleshootingAgent.equals "Available" (antenna1 site) &&
       TroubleshootingAgent.equals "Available" (antenna2 site))%bool
  end.

End ToolsState.

(** ** server/agents/rca.js: the unified entry point and the views *)

Module RcaViews.
Import Js Tower State RcaAgent JsArray.

(** The condition [c.siteId === siteId && !this._isNoise(c)]. *)
Definition meaningful_for (siteId : string) (c : Case) : bool :=
  (String.eqb (case_siteId c) siteId && negb (_isNoise (case_siteId c) (case_cause c)))%bool.

(** [{ ok: true, siteId, recent, latest, readyToDispatch }]. *)
Record SiteSummary := mkSiteSummary {
  ss_siteId : string;
  ss_recent : list Case;
  ss_latest : option Case;
  ss_readyToDispatch : bool;
}.

Definition summaryForSite (siteId : string) (casebook : list Case) : SiteSummary :=
  let list := slice_last 5 (List.filter (meaningful_for siteId) casebook) in
  let latest := at_last list in
  mkSiteSummary siteId list latest
    match latest with Some c => case_dispatchSuggested c | None => false end.

(** An entry of [dashboardSummary().recent]: a case without its actions. *)
Record Entry := mkEntry {
  en_ts : string;
  en_siteId : string;
  en_cause : string;
  en_resolution : string;
  en_ongoing : bool;
  en_dispatchSuggested : bool;
  en_summary : string;
}.

Definition entry_of (c : Case) : Entry :=
  mkEntry (case_ts c) (case_siteId c) (case_cause c) (case_resolution c) (case_ongoing c)
    (case_dispatchSuggested c) (case_summary c).

(** [{ ok: true, recent, dispatchQueue, totalOpen }]. *)
Record Dashboard := mkDashboard {
  db_recent : list Entry;
  db_dispatchQueue : list Entry;
  db_totalOpen : nat;
}.

(** [dashboardSummary(siteId = null)]. *)
Definition dashboardSummary (siteId : option string) (casebook : list Case) : Dashboard :=
  let items :=
    if truthy siteId
    then List.filter (meaningful_for (str_or_empty siteId)) casebook
    else List.filter (fun c => negb (_isNoise (case_siteId c) (case_cause c))) casebook in
  let recent := List.map entry_of (List.rev (slice_last 10 items)) in
  let dispatchQueue := List.filter en_dispatchSuggested recent in
  mkDashboard recent dispatchQueue (List.length dispatchQueue).

Section WithEnv.
Context {E : Env}.

(** [record(summary)]: the defaults, then [recordIncident]. *)
Definition record (siteId cause : option string) (actions : option (list Step))
  (resolution : option string) (s : Sys) : RecordResult * Sys :=
  recordIncident (nullish siteId "unknown") (nullish cause "correlated_alarm_cluster")
    (nullish actions []) (nullish resolution "unknown") s.

End WithEnv.
End RcaViews.

(** ** server/supervisor/store.js: the summary, the cold start and [start] *)

Module SupervisorStart.
Import Js Tower State SupervisorStore Supervisor.

(** What [summary()] returns. *)
Record Summary := mkSummary {
  sum_status : Status;
  sum_startedAt : option Z;
  sum_runtimeSec : Z;
  sum_tasksRouted : Z;
  sum_lastNote : option string;
  sum_autoEnabled : bool;
  sum_storedAutoEnabled : bool;
  sum_approvalsPending : nat;
  sum_policy : PolicyStore.Policy;
}.

Section WithEnv.
Context {E : Env}.

Definition summary (s : Sys) : Summary :=
  let sup := supervisor s in
  let live := match startedAt sup with
              | Some t => elapsedSec s t
              | None => 0
              end in
  let storedAutoEnabled := autoEnabled s in
  let policyAllowsAuto := isE2E s in
  mkSummary (status sup) (startedAt sup) (runtimeSec sup + live) (tasksRouted sup)
    (lastNote sup) (policyAllowsAuto || storedAutoEnabled)%bool storedAutoEnabled
    (List.length (approvals sup)) (PolicyStore.getPolicy (policy s)).

(** The event that [coldStartSweep] synthesizes for an alarm of a site.
    Its [_origin] mark is read by no consumer and is left out. *)
Definition synthesized (siteId alarm : string) (s : Sys) : BusEvent :=
  {| ev_type := Some "alarm.raised"; ev_siteId := Some siteId; ev_alarm := Some alarm;
     ev_timestamp := Some (nowIso s); ev_ts := None; ev_source := None;
     ev_bootstrap := None; ev_antenna := None; ev_from := None; ev_to := None |}.

(** The two loops of [coldStartSweep]: the state and [count]. *)
Definition sweep_site (acc : (gmap string Z * Sys) * nat) (entry : string * Site)
  : (gmap string Z * Sys) * nat :=
  fold_left
    (fun acc' alarm =>
       let (st, count) := acc' : (gmap string Z * Sys) * nat in
       (handleEvent (synthesized (fst entry) alarm (snd st)) st, S count))
    (nullish (alarms (snd entry)) []) acc.

(** [coldStartSweep()], given what [getTowerSnapshot()] resolved to: [None]
    when the snapshot is not [ok], otherwise its [sites] (none when the
    snapshot has no such object). *)
Definition coldStartSweep (snap : option Sites) (st : gmap string Z * Sys)
  : gmap string Z * Sys :=
  match snap with
  | None => st
  | Some sites =>
      let (st', count) := fold_left sweep_site sites (st, O) in
      if (0 <? count)%nat
      then (fst st',
            _log ("cold-start sweep → synthesized " ++ nat_to_string count ++
                  " alarm.raised events") (snd st'))
      else st'
  end.

(** [start()], given the snapshot of the cold start. *)
Definition start (snap : option Sites) (st : gmap string Z * Sys)
  : string * (gmap string Z * Sys) :=
  let (processed, s) := st in
  match status (supervisor s) with
  | running => ("Already running", st)
  | paused => ("Resumed", (processed, snd (resume s)))
  | _ =>
      let s1 :=
        with_supervisor
          (fun sup => set_lifecycle running (Some (now s)) (runtimeSec sup) sup) s in
      let s2 := _log "started" s1 in
      let s3 := ensureAgentsRunning s2 in
      ("OK: started", coldStartSweep snap (processed, s3))
  end.

End WithEnv.
End SupervisorStart.

(** ** server/agents/correlationAgent.js (Agent A): the streaming handler *)

(** [_onIncident] and the correlation primitives under it. The per-site
    buffers [this.perSite] are kept beside the rest of the state, as the
    ledger of the Supervisor is. *)

Module CorrelationStream.
Import Js Tower State UtilsPolicy CorrelationAgent.

(** An event as [_onIncident] reads it: the fields of a bus event, and
    [evt.state?.sites] of a [state.update]. *)
Record StreamEvent := mkStreamEvent {
  se_event : BusEvent;
  se_sites : option Sites;
}.

(** [out] of [_closeOpenIncident]. *)
Record Closed := mkClosed {
  cl_siteId : string;
  cl_start : option string;
  cl_end : option string;
  cl_count : nat;
  cl_types : list (option string);
  cl_events : list BusEvent;
  cl_reason : string;
}.

(** [perSite[siteId]]: [{ open, closed }]; the open incident keeps its
    types as a set, in insertion order. [this.perSite] is a map from site
    ids to these. *)
Record SiteBuf := mkSiteBuf {
  open : option Incident;
  closed : list Closed;
}.

Definition _ensureSite (siteId : string) (perSite : gmap string SiteBuf)
  : SiteBuf * gmap string SiteBuf :=
  match perSite !! siteId with
  | Some b => (b, perSite)
  | None => (mkSiteBuf None [], <[siteId := mkSiteBuf None []]> perSite)
  end.

Definition _newIncident (siteId : string) (evt : BusEvent) : Incident :=
  mkIncident siteId (ev_timestamp evt) (ev_timestamp evt) 1
    [or_ (ev_alarm evt) (ev_type evt)] [evt].

Definition _extend (inc : Incident) (evt : BusEvent) : Incident :=
  mkIncident (inc_siteId inc) (inc_start inc) (ev_timestamp evt) (S (inc_count inc))
    (set_add (or_ (ev_alarm evt) (ev_type evt)) (inc_types inc))
    (inc_events inc ++ [evt])%list.

(** [evt.type === t]. *)
Definition type_is (t : string) (evt : BusEvent) : bool :=
  match ev_type evt with Some x => String.eqb x t | None => false end.

(** [[...types].join(', ')]. *)
Definition types_text (types : list (option string)) : string :=
  join ", " (List.map str_or_empty types).

(** [[...types].some(isCriticalAlarm)], behind the size test. *)
Definition hasCritical (o : option Incident) : bool :=
  match o with
  | Some inc =>
      if (List.length (inc_types inc) =? 0)%nat then false
      else existsb (fun t => isCriticalAlarm (str_or_empty t)) (inc_types inc)
  | None => false
  end.

Section WithEnv.
Context {E : Env}.

Definition _log (msg : string) (s : Sys) : Sys :=
  with_agentA (AgentBase._log (nowIso s) msg) s.

(** [this.lastTask = t; this.tasks += 1; this._log(this.lastTask)]. *)
Definition task (t : string) (s : Sys) : Sys :=
  _log t (with_agentA (AgentBase.set_agent_task t) s).

Definition _closeOpenIncident (siteId reason : string) (st : gmap string SiteBuf * Sys)
  : gmap string SiteBuf * Sys :=
  let (perSite, s) := st in
  let (b, perSite1) := _ensureSite siteId perSite in
  match open b with
  | None => (perSite1, s)
  | Some c =>
      let out := mkClosed siteId (inc_start c) (inc_end c) (inc_count c) (inc_types c)
                   (inc_events c) reason in
      let perSite2 := <[siteId := mkSiteBuf None (closed b ++ [out])]> perSite1 in
      let s1 := task ("incident.closed " ++ siteId ++ " (" ++ reason ++ ") with " ++
                      nat_to_string (cl_count out) ++ " events") s in
      (perSite2,
       SupervisorStore.supervisorNote
         ("Correlation: closed incident @" ++ siteId ++ " (" ++ reason ++ "). Alarms: " ++
          types_text (cl_types out)) s1)
  end.

Definition _notifyStart (inc : Incident) (s : Sys) : Sys :=
  let s1 := task ("incident.started " ++ inc_siteId inc ++ " (alarms=" ++
                  types_text (inc_types inc) ++ ")") s in
  SupervisorStore.supervisorNote
    ("Correlation: started incident @" ++ inc_siteId inc ++ " (" ++
     types_text (inc_types inc) ++ ")") s1.

(** [s.open = this._newIncident(siteId, evt); this._notifyStart(s.open)]. *)
Definition open_new (siteId : string) (evt : BusEvent) (st : gmap string SiteBuf * Sys)
  : gmap string SiteBuf * Sys :=
  let (perSite, s) := st in
  let inc := _newIncident siteId evt in
  let b := nullish (perSite !! siteId) (mkSiteBuf None []) in
  (<[siteId := mkSiteBuf (Some inc) (closed b)]> perSite, _notifyStart inc s).

(** The merge of an alarm event that passed the filters into the window of its site. *)
Definition merge (siteId : string) (evt : BusEvent) (st : gmap string SiteBuf * Sys)
  : gmap string SiteBuf * Sys :=
  let (perSite, s) := st in
  let (b, perSite1) := _ensureSite siteId perSite in
  let now_ := now s in
  match open b with
  | None => open_new siteId evt (perSite1, s)
  | Some o =>
      if within (Some now_) (getTime (inc_end o)) (agentA_windowMs s)
      then (<[siteId := mkSiteBuf (Some (_extend o evt)) (closed b)]> perSite1, s)
      else open_new siteId evt (_closeOpenIncident siteId "window_elapsed" (perSite1, s))
  end.

Definition _onIncident (evt : StreamEvent) (st : gmap string SiteBuf * Sys)
  : gmap string SiteBuf * Sys :=
  let (perSite, s) := st in
  let e := se_event evt in
  match agent_status (agentA s) with
  | running =>
      if type_is "bus.disconnected" e
      then (perSite, _log "bus disconnected (tower-sim unavailable)" s)
      else if type_is "bus.reconnected" e
      then (perSite, _log "bus reconnected (tower-sim available)" s)
      else
        let isAlarmEvt := (type_is "alarm.raised" e || type_is "alarm.cleared" e)%bool in
        let isState := type_is "state.update" e in
        if (negb isAlarmEvt && negb isState)%bool then st
        else
          let siteId := str_or_empty (or_ (ev_siteId e) (Some "unknown")) in
          if isState then
            match se_sites evt with
            | Some sites =>
                match map_get siteId sites with
                | Some siteSnap =>
                    if (match siteAlive siteSnap with Some true => true | _ => false end &&
                        match mains siteSnap with Some m => String.eqb m "on" | None => false end)%bool
                    then _closeOpenIncident siteId "service_restored" st
                    else st
                | None => st
                end
            | None => st
            end
          else
            let alarm :=
              str_or_empty (or_ (or_ (ev_alarm e) (ev_type e)) (Some "unknown")) in
            if (negb (truthy (Some siteId)) || String.eqb siteId "unknown")%bool then st
            else if isNoiseAlarm alarm then st
            else
              let mode := policyMode (PolicyStore.getPolicy (policy s)) in
              if (String.eqb mode "critical first" && negb (isCriticalAlarm alarm))%bool then st
              else
                let st1 := merge siteId e st in
                if type_is "alarm.cleared" e then
                  let b := nullish (fst st1 !! siteId) (mkSiteBuf None []) in
                  if negb (hasCritical (open b))
                  then _closeOpenIncident siteId "alarm_cleared" st1
                  else st1
                else st1
  | _ => st
  end.

End WithEnv.
End CorrelationStream.

(** * Theorems *)

Module PolicyTheory.
Import Js PolicyStore.

Lemma ALARM_CANON_value :
  ALARM_CANON = [("critical first", "Critical First");
                 ("adaptive correlation", "Adaptive Correlation")].
Proof. reflexivity. Qed.

Lemma WOW_CANON_value :
  WOW_CANON = [("e2e automation", "E2E automation");
               ("human intervention at critical steps", "Human intervention at critical steps")].
Proof. reflexivity. Qed.

Lemma KPI_CANON_value : KPI_CANON = [(">95%", ">95%"); ("75%", "75%")].
Proof. reflexivity. Qed.

(** What a canon map answers comes from the option list it was built
    from, under the lower-case key of that option. *)
Lemma ALARM_CANON_sound k c :
  map_get k ALARM_CANON = Some c -> In c ALARM_OPTIONS /\ k = toLowerCase c.
Proof.
  rewrite ALARM_CANON_value. unfold map_get.
  repeat match goal with
         | |- context [String.eqb k ?x] =>
             destruct (String.eqb_spec k x) as [->|_];
             [intros [= <-]; split; [cbn; auto|reflexivity]|]
         end.
  discriminate.
Qed.

Lemma WOW_CANON_sound k c :
  map_get k WOW_CANON = Some c -> In c WOW_OPTIONS /\ k = toLowerCase c.
Proof.
  rewrite WOW_CANON_value. unfold map_get.
  repeat match goal with
         | |- context [String.eqb k ?x] =>
             destruct (String.eqb_spec k x) as [->|_];
             [intros [= <-]; split; [cbn; auto|reflexivity]|]
         end.
  discriminate.
Qed.

Lemma KPI_CANON_sound k c :
  map_get k KPI_CANON = Some c -> In c KPI_OPTIONS /\ k = toLowerCase c.
Proof.
  rewrite KPI_CANON_value. unfold map_get.
  repeat match goal with
         | |- context [String.eqb k ?x] =>
             destruct (String.eqb_spec k x) as [->|_];
             [intros [= <-]; split; [cbn; auto|reflexivity]|]
         end.
  discriminate.
Qed.

Lemma ALARM_CANON_complete o :
  In o ALARM_OPTIONS -> map_get (toLowerCase o) ALARM_CANON = Some o.
Proof. intros [<-|[<-|[]]]; reflexivity. Qed.

Lemma WOW_CANON_complete o :
  In o WOW_OPTIONS -> map_get (toLowerCase o) WOW_CANON = Some o.
Proof. intros [<-|[<-|[]]]; reflexivity. Qed.

Lemma KPI_CANON_complete o :
  In o KPI_OPTIONS -> map_get (toLowerCase o) KPI_CANON = Some o.
Proof. intros [<-|[<-|[]]]; reflexivity. Qed.

(** A canon map that stands for an option list. *)
Definition canon_for (opts : list string) (canon : Map string) : Prop :=
  (forall o, In o opts -> truthy (Some o) = true) /\
  (forall k c, map_get k canon = Some c -> In c opts /\ k = toLowerCase c) /\
  (forall o, In o opts -> map_get (toLowerCase o) canon = Some o).

Lemma ALARM_canon_for : canon_for ALARM_OPTIONS ALARM_CANON.
Proof.
  split; [|split; [apply ALARM_CANON_sound|apply ALARM_CANON_complete]].
  intros o [<-|[<-|[]]]; reflexivity.
Qed.

Lemma WOW_canon_for : canon_for WOW_OPTIONS WOW_CANON.
Proof.
  split; [|split; [apply WOW_CANON_sound|apply WOW_CANON_complete]].
  intros o [<-|[<-|[]]]; reflexivity.
Qed.

Lemma KPI_canon_for : canon_for KPI_OPTIONS KPI_CANON.
Proof.
  split; [|split; [apply KPI_CANON_sound|apply KPI_CANON_complete]].
  intros o [<-|[<-|[]]]; reflexivity.
Qed.

Lemma toCanonical_accepts opts canon label v :
  canon_for opts canon -> matches opts v ->
  exists o, toCanonical (Some v) canon label = Return (Some o) /\
            In o opts /\ toLowerCase v = toLowerCase o.
Proof.
  intros (Htruthy & _ & complete) (o & Ho & Hv). exists o. unfold toCanonical.
  rewrite Hv, (complete o Ho), (Htruthy o Ho). auto.
Qed.

Lemma toCanonical_rejects opts canon label v :
  canon_for opts canon -> ~ matches opts v ->
  toCanonical (Some v) canon label = Throw (must_be_one_of label canon).
Proof.
  intros (_ & sound & _) Hno. unfold toCanonical.
  destruct (map_get (toLowerCase v) canon) as [c|] eqn:Hget; [|reflexivity].
  destruct (sound _ _ Hget) as [Hin Hk]. exfalso. apply Hno. exists c. auto.
Qed.

Lemma toCanonical_total opts canon label value :
  canon_for opts canon ->
  (forall v, value = Some v -> matches opts v) ->
  exists r, toCanonical value canon label = Return r /\
            forall old, canonical_of opts value old (nullish r old).
Proof.
  intros Hc H. destruct value as [v|].
  - destruct (toCanonical_accepts opts canon label v Hc (H v eq_refl)) as (o & -> & Hin & Hv).
    exists (Some o). split; [reflexivity|]. intros old. cbn. auto.
  - exists None. split; [reflexivity|]. intros old. reflexivity.
Qed.

Lemma toCanonical_outcome canon label value :
  (exists r, toCanonical value canon label = Return r) \/
  toCanonical value canon label = Throw (must_be_one_of label canon).
Proof.
  unfold toCanonical. destruct value as [v|]; [|left; eauto].
  cbn. destruct (truthy (map_get (toLowerCase v) canon)); [left; eauto|right; reflexivity].
Qed.

(** C3. For every patch given to [setPolicy]: when every supplied setting
    matches one of the fixed options up to letter case, the call returns
    the stored policy, whose supplied settings are the canonical option
    strings (the others keep their value) and whose version is the old one
    plus exactly 1; when some supplied setting matches no option, the call
    throws and the stored policy, version included, is what it was. *)
Theorem setPolicy_accepts_or_rejects (p : Patch) (src iso : string) (pol : Policy) :
  (all_supplied_match p ->
     exists pol',
       setPolicy p src iso pol = (Return pol', pol') /\
       version pol' = (version pol + 1)%Z /\
       canonical_of ALARM_OPTIONS (patch_alarmPrioritization p)
         (alarmPrioritization pol) (alarmPrioritization pol') /\
       canonical_of WOW_OPTIONS (patch_waysOfWorking p)
         (waysOfWorking pol) (waysOfWorking pol') /\
       canonical_of KPI_OPTIONS (patch_kpiAlignment p)
         (kpiAlignment pol) (kpiAlignment pol')) /\
  (some_supplied_mismatch p ->
     exists message, setPolicy p src iso pol = (Throw message, pol)).
Proof.
  split.
  - intros (Ha & Hw & Hk).
    destruct (toCanonical_total _ _ "alarmPrioritization" _ ALARM_canon_for Ha) as (ra & Era & Hra).
    destruct (toCanonical_total _ _ "waysOfWorking" _ WOW_canon_for Hw) as (rw & Erw & Hrw).
    destruct (toCanonical_total _ _ "kpiAlignment" _ KPI_canon_for Hk) as (rk & Erk & Hrk).
    unfold setPolicy, validatePatch. rewrite Era, Erw, Erk. cbn.
    eexists. split; [reflexivity|]. cbn. repeat split; auto.
  - intros Hbad. unfold setPolicy, validatePatch.
    destruct (toCanonical_outcome ALARM_CANON "alarmPrioritization" (patch_alarmPrioritization p))
      as [[ra Era]| ->]; [|eauto].
    destruct (toCanonical_outcome WOW_CANON "waysOfWorking" (patch_waysOfWorking p))
      as [[rw Erw]| Erw]; [|rewrite Era, Erw; eauto].
    destruct (toCanonical_outcome KPI_CANON "kpiAlignment" (patch_kpiAlignment p))
      as [[rk Erk]| Erk]; [|rewrite Era, Erw, Erk; eauto].
    exfalso. destruct Hbad as [(v & Hv & Hno)|[(v & Hv & Hno)|(v & Hv & Hno)]].
    + rewrite Hv, (toCanonical_rejects _ _ _ v ALARM_canon_for Hno) in Era.
      discriminate.
    + rewrite Hv, (toCanonical_rejects _ _ _ v WOW_canon_for Hno) in Erw.
      discriminate.
    + rewrite Hv, (toCanonical_rejects _ _ _ v KPI_canon_for Hno) in Erk.
      discriminate.
Qed.

Lemma setPolicy_witness :
  (exists pol',
     setPolicy (mkPatch (Some "critical FIRST") None (Some "75%")) "api" "t1"
       (DEFAULT_POLICY "t0") = (Return pol', pol') /\
     version pol' = (version (DEFAULT_POLICY "t0") + 1)%Z /\
     canonical_of ALARM_OPTIONS (Some "critical FIRST") "Critical First" (alarmPrioritization pol') /\
     canonical_of WOW_OPTIONS None "Human intervention at critical steps" (waysOfWorking pol') /\
     canonical_of KPI_OPTIONS (Some "75%") ">95%" (kpiAlignment pol')) /\
  (exists message,
     setPolicy (mkPatch None None (Some "76%")) "api" "t1" (DEFAULT_POLICY "t0")
     = (Throw message, DEFAULT_POLICY "t0")).
Proof.
  split.
  - apply (proj1 (setPolicy_accepts_or_rejects
                    (mkPatch (Some "critical FIRST") None (Some "75%")) "api" "t1"
                    (DEFAULT_POLICY "t0"))).
    repeat split; cbn; intros v [= <-].
    + exists "Critical First". split; [cbn; auto|reflexivity].
    + exists "75%". split; [cbn; auto|reflexivity].
  - apply (proj2 (setPolicy_accepts_or_rejects
                    (mkPatch None None (Some "76%")) "api" "t1" (DEFAULT_POLICY "t0"))).
    right; right. exists "76%". split; [reflexivity|].
    intros (o & [<-|[<-|[]]] & Hv); vm_compute in Hv; discriminate.
Defined.

(** The default policy is valid and [setPolicy] keeps the stored policy
    valid: the stored settings are always option strings. *)
Lemma DEFAULT_POLICY_valid t : valid (DEFAULT_POLICY t).
Proof. unfold valid; cbn; tauto. Qed.

Lemma setPolicy_valid p src iso pol :
  valid pol -> valid (snd (setPolicy p src iso pol)).
Proof.
  intros (Ha & Hw & Hk). unfold setPolicy, validatePatch.
  destruct (toCanonical_outcome ALARM_CANON "alarmPrioritization" (patch_alarmPrioritization p))
    as [[ra Era]| ->]; [rewrite Era|repeat split; assumption].
  destruct (toCanonical_outcome WOW_CANON "waysOfWorking" (patch_waysOfWorking p))
    as [[rw Erw]| ->]; [rewrite Erw|repeat split; assumption].
  destruct (toCanonical_outcome KPI_CANON "kpiAlignment" (patch_kpiAlignment p))
    as [[rk Erk]| ->]; [rewrite Erk|repeat split; assumption].
  assert (Hcanon : forall opts canon label value r old,
             canon_for opts canon -> toCanonical value canon label = Return r ->
             In old opts -> In (nullish r old) opts).
  { intros opts canon label value r old (_ & sound & _) Hr Hold.
    unfold toCanonical in Hr. destruct value as [v|]; [|injection Hr as <-; exact Hold].
    cbn in Hr. destruct (map_get (toLowerCase v) canon) as [c|] eqn:Hget; [|discriminate].
    destruct (truthy (Some c)); [|discriminate]. injection Hr as <-. cbn.
    apply (sound _ _ Hget). }
  cbn. repeat split.
  - eapply Hcanon; [apply ALARM_canon_for|exact Era|exact Ha].
  - eapply Hcanon; [apply WOW_canon_for|exact Erw|exact Hw].
  - eapply Hcanon; [apply KPI_canon_for|exact Erk|exact Hk].
Qed.

End PolicyTheory.

Module DeltaTheory.
Import Js Tower DeltaEmitter.

(** The two [emit] calls of [emitBoth] for an event of type [t]. *)
Definition both (tp : string * BusEvent) : Emissions :=
  [(fst tp, snd tp); ("event", with_type (fst tp) (snd tp))].

(** The events of one [ingest] for one site, by kind: their type and
    payload, in the order of emission. *)
Definition raised (ts site : string) (prev next : list string) : list (string * BusEvent) :=
  List.map (fun a => ("alarm.raised", alarm_payload site a ts None))
    (List.filter (fun a => negb (set_has a prev)) next).

Definition cleared (ts site : string) (prev next : list string) : list (string * BusEvent) :=
  List.map (fun a => ("alarm.cleared", alarm_payload site a ts None))
    (List.filter (fun a => negb (set_has a next)) prev).

Definition changed (ts site : string) (prev next : Service) : list (string * BusEvent) :=
  ((if negb (opt_string_eqb (svc_antenna1 prev) (svc_antenna1 next))
    then [("service.changed",
           service_payload site "antenna1" (svc_antenna1 prev) (svc_antenna1 next) ts)]
    else []) ++
   (if negb (opt_string_eqb (svc_antenna2 prev) (svc_antenna2 next))
    then [("service.changed",
           service_payload site "antenna2" (svc_antenna2 prev) (svc_antenna2 next) ts)]
    else []))%list.

(** The envelope seen on the channel ['event']. *)
Definition envelope (tp : string * BusEvent) : BusEvent := with_type (fst tp) (snd tp).

Lemma fold_emit {A} (P : A -> bool) (t : string) (f : A -> BusEvent) (l : list A) (bus : Emissions) :
  fold_left (fun b a => if P a then emitBoth t (f a) b else b) l bus =
  (bus ++ List.flat_map both (List.map (fun a => (t, f a)) (List.filter P l)))%list.
Proof.
  revert bus. induction l as [|a l IH]; intros bus; cbn.
  - now rewrite app_nil_r.
  - rewrite IH. destruct (P a); cbn; [|reflexivity].
    unfold emitBoth. now rewrite <- app_assoc.
Qed.

Lemma alarm_deltas_spec ts site prev next bus :
  alarm_deltas ts site prev next bus =
  (bus ++ List.flat_map both (raised ts site prev next ++ cleared ts site prev next))%list.
Proof.
  unfold alarm_deltas, raised, cleared.
  rewrite (fold_emit (fun a => negb (set_has a prev)) "alarm.raised"
             (fun a => alarm_payload site a ts None)).
  rewrite (fold_emit (fun a => negb (set_has a next)) "alarm.cleared"
             (fun a => alarm_payload site a ts None)).
  now rewrite flat_map_app, app_assoc.
Qed.

Lemma service_deltas_spec ts site prev next bus :
  service_deltas ts site prev next bus =
  (bus ++ List.flat_map both (changed ts site prev next))%list.
Proof.
  unfold service_deltas, changed, emitBoth.
  destruct (negb (opt_string_eqb (svc_antenna1 prev) (svc_antenna1 next)));
    destruct (negb (opt_string_eqb (svc_antenna2 prev) (svc_antenna2 next)));
    cbn; rewrite <- ?app_assoc, ?app_nil_r; reflexivity.
Qed.

(** A loop over sites whose body only appends. *)
Lemma fold_sites {A} (body : Emissions -> A -> Emissions) (spec : A -> list (string * BusEvent))
  (sites : list A) (bus : Emissions) :
  (forall b s, body b s = (b ++ List.flat_map both (spec s))%list) ->
  fold_left body sites bus = (bus ++ List.flat_map both (List.flat_map spec sites))%list.
Proof.
  intros Hbody. revert bus. induction sites as [|s sites IH]; intros bus; cbn.
  - now rewrite app_nil_r.
  - rewrite IH, Hbody, flat_map_app, app_assoc. reflexivity.
Qed.

Lemma envelopes_both (evs : list (string * BusEvent)) :
  Forall (fun tp => fst tp <> "event") evs ->
  envelopes (List.flat_map both evs) = List.map envelope evs.
Proof.
  unfold envelopes. induction 1 as [|[t p] evs Ht _ IH]; [reflexivity|].
  cbn in *. destruct (String.eqb_spec t "event") as [->|_]; [contradiction|].
  cbn. now rewrite IH.
Qed.

(** The sites of the alarm loop and of the service loop of [ingest]. *)
Definition allSites (lastA : Map (list string)) (newState : option Sites) : list string :=
  newSet (map_keys lastA ++ map_keys (extractAlarmsBySite newState)).

Definition allSitesSvc (lastS : Map Service) (newState : option Sites) : list string :=
  newSet (map_keys lastS ++ map_keys (extractServiceBySite newState)).

(** The alarm events and the service events of one [ingest], by site. *)
Definition alarm_events (ts : string) (lastA : Map (list string)) (newState : option Sites)
  (site : string) : list (string * BusEvent) :=
  let prev := nullish (map_get site lastA) [] in
  let next := nullish (map_get site (extractAlarmsBySite newState)) [] in
  (raised ts site prev next ++ cleared ts site prev next)%list.

Definition service_events (ts : string) (lastS : Map Service) (newState : option Sites)
  (site : string) : list (string * BusEvent) :=
  changed ts site (nullish (map_get site lastS) noService)
    (nullish (map_get site (extractServiceBySite newState)) noService).

Lemma ingest_emissions ts newState st lastA lastS :
  lastAlarmsBySite st = Some lastA ->
  lastServiceBySite st = Some lastS ->
  fst (ingest ts newState st) =
  List.flat_map both
    (List.flat_map (alarm_events ts lastA newState) (allSites lastA newState) ++
     List.flat_map (service_events ts lastS newState) (allSitesSvc lastS newState)).
Proof.
  intros HA HS. unfold ingest. rewrite HA, HS. cbn [fst].
  rewrite (fold_sites _ (service_events ts lastS newState)).
  2:{ intros b s. apply service_deltas_spec. }
  rewrite (fold_sites _ (alarm_events ts lastA newState)).
  2:{ intros b s. apply alarm_deltas_spec. }
  now rewrite flat_map_app.
Qed.

Lemma alarm_events_facts ts lastA newState site tp :
  In tp (alarm_events ts lastA newState site) ->
  fst tp <> "event" /\ ev_ts (snd tp) = Some ts /\ ev_siteId (snd tp) = Some site.
Proof.
  unfold alarm_events, raised, cleared. rewrite in_app_iff, !in_map_iff.
  intros [(a & <- & _)|(a & <- & _)]; cbn; repeat split; discriminate.
Qed.

Lemma service_events_facts ts lastS newState site tp :
  In tp (service_events ts lastS newState site) ->
  fst tp <> "event" /\ ev_ts (snd tp) = Some ts /\ ev_siteId (snd tp) = Some site.
Proof.
  unfold service_events, changed. rewrite in_app_iff.
  intros [H|H];
    match type of H with
    | In _ (if ?c then _ else _) => destruct c
    end; cbn in H; try contradiction;
    destruct H as [<-|[]]; cbn; repeat split; discriminate.
Qed.

(** C5, as the code has it. The site ids of the stored views and of the
    new snapshot are plain keys. For a call [ingest(S2)] made after a
    snapshot was stored, the events seen on the channel ['event'] are, in
    this order:
    for each site of the alarm loop in turn, its [alarm.raised] events
    followed by its [alarm.cleared] events; then, after the alarm events of
    all sites, for each site of the service loop in turn, its
    [service.changed] events (antenna1 before antenna2). The sites are taken
    in the order of the set built from the keys of the stored view followed
    by the keys of the new view, which is an insertion order and not an
    order on the keys. Every event of the call carries the one timestamp
    read at its start. *)
Theorem ingest_order_and_timestamp (ts : string) (newState : option Sites) (st : State)
  (lastA : Map (list string)) (lastS : Map Service) :
  plain_snapshot newState = true ->
  plain_views st = true ->
  lastAlarmsBySite st = Some lastA ->
  lastServiceBySite st = Some lastS ->
  envelopes (fst (ingest ts newState st)) =
    (List.flat_map (fun site => List.map envelope (alarm_events ts lastA newState site))
       (allSites lastA newState) ++
     List.flat_map (fun site => List.map envelope (service_events ts lastS newState site))
       (allSitesSvc lastS newState))%list /\
  Forall (fun e => ev_ts e = Some ts) (envelopes (fst (ingest ts newState st))).
Proof.
  intros _ _ HA HS. rewrite (ingest_emissions ts newState st lastA lastS HA HS).
  assert (Hfacts : Forall (fun tp => fst tp <> "event" /\ ev_ts (snd tp) = Some ts)
            (List.flat_map (alarm_events ts lastA newState) (allSites lastA newState) ++
             List.flat_map (service_events ts lastS newState) (allSitesSvc lastS newState))).
  { apply Forall_forall. intros tp. rewrite in_app_iff, !in_flat_map.
    intros [(s & _ & H)|(s & _ & H)].
    - destruct (alarm_events_facts _ _ _ _ _ H) as (? & ? & _); auto.
    - destruct (service_events_facts _ _ _ _ _ H) as (? & ? & _); auto. }
  rewrite envelopes_both.
  2:{ eapply Forall_impl; [|exact Hfacts]. now intros tp [? _]. }
  split.
  - rewrite List.map_app, !flat_map_concat_map, !concat_map, !List.map_map. reflexivity.
  - apply Forall_forall. intros e. rewrite in_map_iff. intros (tp & <- & Hin).
    rewrite Forall_forall in Hfacts. destruct (Hfacts tp Hin) as [_ Hts].
    destruct tp as [t p]. exact Hts.
Qed.

(** The first [ingest], and every [ingest] after a [reset]. *)
Definition bootstrap_events (ts : string) (entry : string * list string) : list (string * BusEvent) :=
  List.map (fun a => ("alarm.raised", alarm_payload (fst entry) a ts (Some true))) (snd entry).

Lemma fold_emit_all {A} (t : string) (f : A -> BusEvent) (l : list A) (bus : Emissions) :
  fold_left (fun b a => emitBoth t (f a) b) l bus =
  (bus ++ List.flat_map both (List.map (fun a => (t, f a)) l))%list.
Proof.
  revert bus. induction l as [|a l IH]; intros bus; cbn.
  - now rewrite app_nil_r.
  - rewrite IH. unfold emitBoth. now rewrite <- app_assoc.
Qed.

Lemma ingest_first ts newState st :
  lastAlarmsBySite st = None \/ lastServiceBySite st = None ->
  fst (ingest ts newState st) =
  if bootstrapEmit st
  then List.flat_map both (List.flat_map (bootstrap_events ts) (extractAlarmsBySite newState))
  else [].
Proof.
  intros H. unfold ingest.
  assert (Hfold :
    fold_left
      (fun b e =>
         fold_left
           (fun b' alarm => emitBoth "alarm.raised" (alarm_payload (fst e) alarm ts (Some true)) b')
           (snd e) b)
      (extractAlarmsBySite newState) [] =
    List.flat_map both (List.flat_map (bootstrap_events ts) (extractAlarmsBySite newState))).
  { rewrite (fold_sites _ (bootstrap_events ts)); [reflexivity|].
    intros b e. apply fold_emit_all. }
  destruct (lastAlarmsBySite st), (lastServiceBySite st), H; try discriminate;
    cbn [fst]; destruct (bootstrapEmit st); auto.
Qed.

(** Every [emit] of [ingest] is on one of four channels. *)
Lemma ingest_channels ts newState st c e :
  In (c, e) (fst (ingest ts newState st)) ->
  In c ["alarm.raised"; "alarm.cleared"; "service.changed"; "event"].
Proof.
  assert (Hboth : forall evs,
            Forall (fun tp => In (fst tp) ["alarm.raised"; "alarm.cleared"; "service.changed"]) evs ->
            In (c, e) (List.flat_map both evs) ->
            In c ["alarm.raised"; "alarm.cleared"; "service.changed"; "event"]).
  { intros evs Hevs. rewrite in_flat_map. intros ([t p] & Hin & Hce).
    rewrite Forall_forall in Hevs. specialize (Hevs _ Hin). cbn in Hevs, Hce |- *.
    destruct Hce as [[= <- _]|[[= <- _]|[]]]; tauto. }
  destruct (lastAlarmsBySite st) as [lastA|] eqn:HA;
    [destruct (lastServiceBySite st) as [lastS|] eqn:HS|].
  - rewrite (ingest_emissions ts newState st lastA lastS HA HS). apply Hboth.
    apply Forall_forall. intros tp. rewrite in_app_iff, !in_flat_map.
    unfold alarm_events, service_events, raised, cleared, changed.
    intros [(s & _ & H)|(s & _ & H)].
    + rewrite in_app_iff, !in_map_iff in H. destruct H as [(a & <- & _)|(a & <- & _)]; cbn; tauto.
    + rewrite in_app_iff in H.
      destruct H as [H|H];
        match type of H with In _ (if ?c then _ else _) => destruct c end;
        cbn in H; try contradiction; destruct H as [<-|[]]; cbn; tauto.
  - rewrite ingest_first by auto. destruct (bootstrapEmit st); [|contradiction].
    apply Hboth. apply Forall_forall. intros tp. rewrite in_flat_map.
    unfold bootstrap_events. intros (en & _ & H). rewrite in_map_iff in H.
    destruct H as (a & <- & _). cbn; tauto.
  - rewrite ingest_first by auto. destruct (bootstrapEmit st); [|contradiction].
    apply Hboth. apply Forall_forall. intros tp. rewrite in_flat_map.
    unfold bootstrap_events. intros (en & _ & H). rewrite in_map_iff in H.
    destruct H as (a & <- & _). cbn; tauto.
Qed.

(** Two sites, listed S2 before S1, first healthy and then both in
    outage. *)
Definition fleet_before : Sites := [("S2", Scenario.healthy); ("S1", Scenario.healthy)].
Definition fleet_after : Sites := [("S2", Scenario.outage); ("S1", Scenario.outage)].

Definition stored : State := snd (ingest "T0" (Some fleet_before) (constructor None)).

Definition storedAlarms : Map (list string) := [("S2", []); ("S1", [])].
Definition storedService : Map Service :=
  [("S2", mkService (Some "Available") (Some "Available"));
   ("S1", mkService (Some "Available") (Some "Available"))].

Lemma ingest_order_witness :
  envelopes (fst (ingest "T1" (Some fleet_after) stored)) =
    (List.flat_map
       (fun site => List.map envelope (alarm_events "T1" storedAlarms (Some fleet_after) site))
       (allSites storedAlarms (Some fleet_after)) ++
     List.flat_map
       (fun site => List.map envelope (service_events "T1" storedService (Some fleet_after) site))
       (allSitesSvc storedService (Some fleet_after)))%list /\
  Forall (fun e => ev_ts e = Some "T1") (envelopes (fst (ingest "T1" (Some fleet_after) stored))).
Proof.
  apply (ingest_order_and_timestamp "T1" (Some fleet_after) stored storedAlarms storedService);
    reflexivity.
Defined.

(** C5 as stated fails on the order of the sites: the events of S2 come
    before those of S1, in the alarm loop and again in the service loop,
    although 'S1' is the smaller key. *)
Lemma ingest_sites_not_ascending :
  List.map (fun e => (ev_type e, ev_siteId e))
    (envelopes (fst (ingest "T1" (Some fleet_after) stored))) =
    [ (Some "alarm.raised", Some "S2"); (Some "alarm.raised", Some "S2");
      (Some "alarm.raised", Some "S1"); (Some "alarm.raised", Some "S1");
      (Some "service.changed", Some "S2"); (Some "service.changed", Some "S2");
      (Some "service.changed", Some "S1"); (Some "service.changed", Some "S1") ] /\
  String.ltb "S1" "S2" = true.
Proof. split; reflexivity. Qed.

End DeltaTheory.

Module BusTheory.
Import Js Tower IncidentBus.

Lemma listeners_on name n l em :
  listeners name (on n l em) =
  (listeners name em ++ if String.eqb n name then [l] else [])%list.
Proof.
  unfold listeners, on. rewrite filter_app, List.map_app. cbn.
  destruct (String.eqb n name); reflexivity.
Qed.

Lemma in_single_if (x l : Listener) (n name : string) :
  In x (if String.eqb n name then [l] else []) -> x = l /\ n = name.
Proof.
  destruct (String.eqb_spec n name); cbn; [intros [<-|[]]; auto|contradiction].
Qed.

(** On every emitter the server can reach, the Supervisor's handler is
    registered under ['bus.event'] and under no other name. *)
Lemma handler_registered_once em :
  reachable em ->
  forall name, In SupervisorHandleEvent (listeners name em) -> name = "bus.event".
Proof.
  induction 1 as [|em Hem IH]; intros name.
  - unfold supervisor_wiring, incidentBus. rewrite !listeners_on.
    change (listeners name []) with (@nil Listener).
    rewrite !in_app_iff. intros H.
    decompose [or] H; clear H;
      match goal with
      | H : In _ [] |- _ => contradiction
      | H : In _ (if _ then _ else _) |- _ =>
          apply in_single_if in H; destruct H as [Hl Hn]; (discriminate Hl || (subst; reflexivity))
      end.
  - unfold agentA_attachBus, onIncident. rewrite listeners_on, in_app_iff.
    intros [H|H]; [auto|]. apply in_single_if in H. destruct H as [Hl _]. discriminate Hl.
Qed.

(** What the producers emit never calls the handler: [publish] and the
    bridge emit on ['event'], the Delta Emitter on ['event'] and on the
    three typed channels. *)
Lemma producers_never_call_handleEvent em :
  reachable em ->
  (forall evt, ~ In SupervisorHandleEvent (List.map fst (publish evt em))) /\
  (forall ts newState st,
      ~ In SupervisorHandleEvent
          (List.map fst (deliver em (fst (DeltaEmitter.ingest ts newState st))))).
Proof.
  intros Hem. split.
  - intros evt. unfold publish, emit. rewrite List.map_map. cbn. rewrite map_id.
    intros H. apply (handler_registered_once em Hem) in H. discriminate.
  - intros ts newState st. unfold deliver. rewrite in_map_iff.
    intros ([l e] & Hl & Hin). cbn in Hl. subst l.
    rewrite in_flat_map in Hin. destruct Hin as ([c e'] & Hc & Hin).
    unfold emit in Hin. cbn in Hin. rewrite in_map_iff in Hin.
    destruct Hin as (l & [= -> _] & Hl).
    apply (handler_registered_once em Hem) in Hl. subst c.
    apply DeltaTheory.ingest_channels in Hc. cbn in Hc.
    decompose [or] Hc; try discriminate; contradiction.
Qed.

(** The bus once the Supervisor is wired and Agent A is started, and what
    the Delta Emitter emits when S1 goes from healthy to the outage. *)
Definition started : Emitter := agentA_attachBus (supervisor_wiring incidentBus).

Definition outage_emissions : DeltaEmitter.Emissions :=
  fst (DeltaEmitter.ingest "T1" (Some [("S1", Scenario.outage)])
         (snd (DeltaEmitter.ingest "T0" (Some [("S1", Scenario.healthy)])
                 (DeltaEmitter.constructor None)))).

(** C1 on the code. With the Supervisor's wiring in place and Agent A
    started, the scenario's [alarm.raised] event published on the bus, and
    the events that the Delta Emitter emits for the outage of S1, reach the
    ring buffer, Agent A and the logging taps; the Supervisor's handler,
    alone on ['bus.event'], is called for none of them. *)
Theorem published_events_miss_handleEvent :
  List.map fst (publish (Scenario.mains_failure "2025-01-01T00:00:00Z") started) =
    [BufferAndFanOut; AgentA_onIncident] /\
  List.map fst (deliver started outage_emissions) =
    [ AlarmTap "alarm.raised"; BufferAndFanOut; AgentA_onIncident;
      AlarmTap "alarm.raised"; BufferAndFanOut; AgentA_onIncident;
      AlarmTap "service.changed"; BufferAndFanOut; AgentA_onIncident;
      AlarmTap "service.changed"; BufferAndFanOut; AgentA_onIncident ] /\
  listeners "bus.event" started = [SupervisorHandleEvent] /\
  List.map fst outage_emissions =
    [ "alarm.raised"; "event"; "alarm.raised"; "event";
      "service.changed"; "event"; "service.changed"; "event" ].
Proof. repeat split. Qed.

End BusTheory.

Module LifecycleTheory.
Import Js Tower State SupervisorStore Supervisor.

Section WithEnv.
Context {E : Env}.

(** The agents' life cycle leaves the [supervisor] object alone. *)
Lemma supervisor_agentA_start s : supervisor (CorrelationAgent.start s) = supervisor s.
Proof.
  unfold CorrelationAgent.start.
  destruct (agent_status (agentA s)); try reflexivity;
    destruct (String.eqb (agentA_delegation s) "disabled"); reflexivity.
Qed.

Lemma supervisor_ensureAgentsStopped s : supervisor (ensureAgentsStopped s) = supervisor s.
Proof. reflexivity. Qed.

Lemma supervisor_ensureAgentsRunning s : supervisor (ensureAgentsRunning s) = supervisor s.
Proof.
  unfold ensureAgentsRunning.
  repeat match goal with
         | |- context [match agent_status ?a with _ => _ end] => destruct (agent_status a)
         end;
    unfold RcaAgent.start, TroubleshootingAgent.start; cbn;
    rewrite ?supervisor_agentA_start; reflexivity.
Qed.

(** C4, as the code has it. [pause()] outside running answers
    'Not running' and [resume()] outside paused answers 'Not paused',
    both leaving the whole state as it was; [pause()] takes running to
    paused and [resume()] takes paused to running. [stop()] is never
    refused: from every status it answers 'OK: stopped', sets the status
    to stopped and clears [startedAt]; outside running and paused it
    leaves [runtimeSec] as it was. *)
Theorem lifecycle_stop_pause_resume (s : Sys) :
  (status (supervisor s) <> running -> pause s = ("Not running", s)) /\
  (status (supervisor s) = running ->
     fst (pause s) = "OK: paused" /\
     status (supervisor (snd (pause s))) = paused /\
     startedAt (supervisor (snd (pause s))) = None) /\
  (status (supervisor s) <> paused -> resume s = ("Not paused", s)) /\
  (status (supervisor s) = paused ->
     fst (resume s) = "OK: resumed" /\
     status (supervisor (snd (resume s))) = running /\
     startedAt (supervisor (snd (resume s))) = Some (now s)) /\
  (fst (stop s) = "OK: stopped" /\
   status (supervisor (snd (stop s))) = stopped /\
   startedAt (supervisor (snd (stop s))) = None) /\
  (status (supervisor s) <> running -> status (supervisor s) <> paused ->
     runtimeSec (supervisor (snd (stop s))) = runtimeSec (supervisor s)).
Proof.
  repeat split.
  - unfold pause. destruct (status (supervisor s)); congruence.
  - unfold pause. rewrite H. reflexivity.
  - unfold pause. rewrite H. reflexivity.
  - unfold pause. rewrite H. reflexivity.
  - unfold resume. destruct (status (supervisor s)); congruence.
  - unfold resume. rewrite H. reflexivity.
  - unfold resume. rewrite H. cbn [snd]. rewrite supervisor_ensureAgentsRunning. reflexivity.
  - unfold resume. rewrite H. cbn [snd]. rewrite supervisor_ensureAgentsRunning. reflexivity.
  - unfold stop. cbn [snd]. rewrite supervisor_ensureAgentsStopped.
    destruct (status (supervisor s)); try reflexivity; congruence.
Qed.

End WithEnv.

(** The server just loaded: idle, nothing started. *)
Definition loaded : @Sys Scenario.scripted :=
  @Scenario.server Scenario.scripted Scenario.hitl_policy false idle stopped
    (Scenario.mkScripted 1000 [] None).

Lemma lifecycle_witness :
  @pause Scenario.scripted loaded = ("Not running", loaded) /\
  runtimeSec (supervisor (snd (@stop Scenario.scripted loaded))) = runtimeSec (supervisor loaded).
Proof.
  split.
  - apply (proj1 (@lifecycle_stop_pause_resume Scenario.scripted loaded)). discriminate.
  - apply (proj2 (proj2 (proj2 (proj2 (proj2
             (@lifecycle_stop_pause_resume Scenario.scripted loaded)))))); discriminate.
Defined.

(** C4 as stated fails: idle is neither running nor paused, and [stop()]
    on the idle server changes the status. *)
Lemma stop_from_idle_changes_status :
  status (supervisor loaded) = idle /\
  fst (@stop Scenario.scripted loaded) = "OK: stopped" /\
  status (supervisor (snd (@stop Scenario.scripted loaded))) = stopped.
Proof. repeat split. Qed.

End LifecycleTheory.

Module RcaTheory.
Import Js Tower State RcaAgent.

(** The cases of the casebook that [composeDispatchEmail] considers for
    a site: those recorded for it that pass the noise filter. *)
Definition accepted_for (siteId : string) (casebook : list Case) : list Case :=
  List.filter
    (fun c => (String.eqb (case_siteId c) siteId &&
               negb (_isNoise (case_siteId c) (case_cause c)))%bool)
    casebook.

(** The most recent of them. *)
Definition most_recent (l : list Case) : option Case := List.last (List.map Some l) None.

Lemma find_rev_last {A} (p : A -> bool) (l : list A) :
  List.find p (List.rev l) = List.last (List.map Some (List.filter p l)) None.
Proof.
  induction l as [|a l IH] using rev_ind; [reflexivity|].
  rewrite rev_app_distr, filter_app. cbn.
  destruct (p a) eqn:Hp.
  - rewrite List.map_app. cbn. now rewrite last_last.
  - now rewrite app_nil_r.
Qed.

Lemma latest_for_most_recent siteId casebook :
  latest_for siteId casebook = most_recent (accepted_for siteId casebook).
Proof. apply find_rev_last. Qed.

Section WithEnv.
Context {E : Env}.

(** C9, as the code has it. [composeDispatchEmail(siteId)] looks at the
    most recent accepted case of the site, whatever its
    [dispatchSuggested]. It answers [no_unresolved_case], without reading
    the simulator, exactly when the site has no accepted case or the most
    recent one has [dispatchSuggested] false; otherwise it answers the
    email of that case, with the subject '[DISPATCH] <siteId> – <cause> –
    Action required', where an empty cause reads 'Degradation'. *)
Theorem composeDispatchEmail_latest (siteId : string) (s : Sys) :
  match most_recent (accepted_for siteId (casebook s)) with
  | None => composeDispatchEmail siteId s = (NoEmail "no_unresolved_case", s)
  | Some latest =>
      if case_dispatchSuggested latest then
        fst (composeDispatchEmail siteId s) =
          Email
            ("[DISPATCH] " ++ siteId ++ " – " ++
             (if String.eqb (case_cause latest) EmptyString
              then "Degradation" else case_cause latest) ++
             " – Action required")
            (body_of siteId latest (fst (_fetchSite siteId s)))
      else composeDispatchEmail siteId s = (NoEmail "no_unresolved_case", s)
  end.
Proof.
  unfold composeDispatchEmail. rewrite latest_for_most_recent.
  destruct (most_recent (accepted_for siteId (casebook s))) as [latest|]; [|reflexivity].
  destruct (case_dispatchSuggested latest); cbn [negb]; [|reflexivity].
  destruct (_fetchSite siteId s) as [site s1]. cbn [fst].
  unfold subject_of. destruct (case_cause latest); reflexivity.
Qed.

End WithEnv.

(** C9 as stated fails: a site whose last case is restored keeps an older
    accepted case with [dispatchSuggested] true, and gets no email. *)
Definition stabilized_then_restored : list Case :=
  [ mkCase "T1" "S1" "correlated_alarm_cluster" [] "stabilized" true true "first";
    mkCase "T2" "S1" "correlated_alarm_cluster" [] "restored" false false "second" ].

Definition after_restore : @Sys Scenario.scripted :=
  with_casebook (fun _ => stabilized_then_restored)
    (@Scenario.server Scenario.scripted Scenario.hitl_policy false running running
       (Scenario.mkScripted 1000 [] (Some [("S1", Scenario.healthy)]))).

Lemma older_unresolved_case_is_ignored :
  List.existsb case_dispatchSuggested (accepted_for "S1" (casebook after_restore)) = true /\
  fst (@composeDispatchEmail Scenario.scripted "S1" after_restore) = NoEmail "no_unresolved_case".
Proof. split; reflexivity. Qed.

End RcaTheory.

Module CorrelationTheory.
Import Js Tower State UtilsPolicy CorrelationAgent.








(** Grouping by site only moves events around. *)
Lemma map_get_in {V} k (m : Map V) v : map_get k m = Some v -> In (k, v) m.
Proof.
  induction m as [|[k' v'] m IH]; cbn; [discriminate|].
  destruct (String.eqb_spec k k') as [->|_]; [intros [= ->]; auto|auto].
Qed.

Lemma map_set_in {V} k (v : V) m k0 v0 :
  In (k0, v0) (map_set k v m) -> (k0, v0) = (k, v) \/ In (k0, v0) m.
Proof.
  induction m as [|[k' v'] m IH]; cbn.
  - intros [H|[]]; auto.
  - destruct (String.eqb k k'); cbn; intros [H|H]; auto.
    destruct (IH H); auto.
Qed.


Section WithEnv.
Context {E : Env}.











End WithEnv.


Definition mains : BusEvent :=
  {| ev_type := Some "MainsFailure"; ev_siteId := Some "S1"; ev_alarm := None;
     ev_timestamp := Some "2025-01-01T00:00:01Z"; ev_ts := None; ev_source := None;
     ev_bootstrap := None; ev_antenna := None; ev_from := None; ev_to := None |}.

Definition listening : @Sys Scenario.scripted :=
  @Scenario.server Scenario.scripted Scenario.hitl_policy false running running
    (Scenario.mkScripted 1000 [] None).



End CorrelationTheory.

Module TroubleshootingTheory.
Import Js Tower State TroubleshootingAgent.

(** The snapshot of a site carried by an entry of the history. *)
Definition site_in (siteId : string) (e : Effect) : option Site :=
  match e with
  | GetState (Some sites) => map_get siteId sites
  | _ => None
  end.

(** The latest snapshot of the site seen along a history, starting from
    [seen]. *)
Definition last_seen_from (siteId : string) (seen : option Site) (tr : list Effect) : option Site :=
  fold_left (fun acc e => match site_in siteId e with Some x => Some x | None => acc end) tr seen.

Definition last_seen (siteId : string) (tr : list Effect) : option Site :=
  last_seen_from siteId None tr.

(** The latest snapshot seen shows the antenna available. *)
Definition shows_available (siteId antenna : string) (tr : list Effect) : bool :=
  equals "Available" (service_of antenna (last_seen siteId tr)).

(** The device requests of one attempt: [rru on], or [rru on], [rru off],
    [rru on] when it went through the reset. *)
Definition attempt_requests (siteId antenna : string) (tr : list Effect) : Prop :=
  List.filter is_device_request tr = [Rru siteId antenna "on"] \/
  List.filter is_device_request tr =
    [Rru siteId antenna "on"; Rru siteId antenna "off"; Rru siteId antenna "on"].

Lemma last_seen_from_app siteId seen a b :
  last_seen_from siteId seen (a ++ b) = last_seen_from siteId (last_seen_from siteId seen a) b.
Proof. apply fold_left_app. Qed.

Lemma last_seen_from_cons siteId seen e tr :
  last_seen_from siteId seen (e :: tr) =
  last_seen_from siteId (match site_in siteId e with Some x => Some x | None => seen end) tr.
Proof. reflexivity. Qed.

Section WithEnv.
Context {E : Env}.

Lemma _fetchSite_effect siteId s :
  _fetchSite siteId s =
  (site_in siteId (GetState (fst (sim_state (world s)))),
   with_world (snd (sim_state (world s))) (GetState (fst (sim_state (world s)))) s).
Proof.
  unfold _fetchSite, getState. destruct (sim_state (world s)) as [[sites|] w]; reflexivity.
Qed.

(** C7. For every site: when the policy's [waysOfWorking] is not
    'E2E automation', Agent B is running and the site is in the snapshot
    it reads, [mitigateSite(siteId)] returns
    [{ ok: false, error: 'approval_required', plan, alarms, site }] with
    the plan and the alarms built from that snapshot, and all it asked of
    the simulator is that one read: no [power] and no [rru] request. *)
Theorem mitigateSite_hitl_plans_only (siteId : string) (s : Sys) (site : Site) :
  agent_status (agentB s) = running ->
  In (PolicyStore.waysOfWorking (policy s)) PolicyStore.WOW_OPTIONS ->
  PolicyStore.waysOfWorking (policy s) <> "E2E automation" ->
  fst (_fetchSite siteId s) = Some site ->
  fst (mitigateSite siteId s) =
    ApprovalRequired (snd (_buildPlan siteId site)) (fst (_buildPlan siteId site)) site /\
  res_ok (fst (mitigateSite siteId s)) = false /\
  res_error (fst (mitigateSite siteId s)) = Some "approval_required" /\
  history (snd (mitigateSite siteId s)) =
    (history s ++ [GetState (fst (sim_state (world s)))])%list /\
  world (snd (mitigateSite siteId s)) = snd (sim_state (world s)) /\
  List.filter is_device_request (history (snd (mitigateSite siteId s))) =
    List.filter is_device_request (history s).
Proof.
  intros Hrun Hopt Hne Hsite.
  assert (Hwow : PolicyStore.waysOfWorking (policy s) = "Human intervention at critical steps").
  { destruct Hopt as [H|[H|[]]]; [congruence|auto]. }
  unfold mitigateSite. rewrite Hrun. unfold PolicyStore.getPolicy. rewrite Hwow.
  rewrite _fetchSite_effect in Hsite |- *. cbn [fst] in Hsite. rewrite Hsite.
  change (String.eqb (toLowerCase "Human intervention at critical steps") "e2e automation")
    with false.
  cbn [negb]. unfold propose. cbn [fst snd].
  repeat split; try reflexivity.
  cbn. rewrite filter_app. cbn. now rewrite app_nil_r.
Qed.

(** What the helpers add to the history. *)
Lemma history_log msg s : history (_log msg s) = history s.
Proof. reflexivity. Qed.

Lemma _waitAndGet_history siteId tries ms s :
  exists tr,
    history (snd (_waitAndGet siteId tries ms s)) = (history s ++ tr)%list /\
    List.filter is_device_request tr = [] /\
    forall seen,
      last_seen_from siteId seen tr =
      match fst (_waitAndGet siteId tries ms s) with Some x => Some x | None => seen end.
Proof.
  revert s. induction tries as [|n IH]; intros s; cbn.
  - exists []. rewrite app_nil_r. auto.
  - rewrite _fetchSite_effect.
    destruct (site_in siteId (GetState (fst (sim_state (world (_sleep ms s)))))) as [x|] eqn:Hx.
    + exists [Sleep ms; GetState (fst (sim_state (world (_sleep ms s))))].
      cbn [fst snd]. split; [|split].
      * cbn. now rewrite <- app_assoc.
      * reflexivity.
      * intros seen. rewrite !last_seen_from_cons, Hx. reflexivity.
    + destruct (IH (with_world (snd (sim_state (world (_sleep ms s))))
                      (GetState (fst (sim_state (world (_sleep ms s))))) (_sleep ms s)))
        as (tr & Hh & Hreq & Hseen).
      exists (Sleep ms :: GetState (fst (sim_state (world (_sleep ms s)))) :: tr).
      split; [|split].
      * rewrite Hh. cbn. rewrite <- !app_assoc. reflexivity.
      * cbn. exact Hreq.
      * intros seen. rewrite !last_seen_from_cons, Hx. apply Hseen.
Qed.

(** The first half of an attempt: [rru on], the read, and the wait for
    the boot when the read reports mains on and the site not alive. *)
Definition first_check (attempt : nat) (siteId antenna : string) (s : Sys) : option Site * Sys :=
  let s1 := rru siteId antenna "on" s in
  let s2 := _log ("RRU ON issued " ++ siteId ++ " " ++ antenna ++ " " ++ attempt_text attempt) s1 in
  let s3 := _sleep RECHECK_MS s2 in
  let (r, s4) := _fetchSite siteId s3 in
  match r with
  | Some site =>
      if (equals "on" (mains site) && not_alive site)%bool then
        let s' := _log ("waiting siteAlive after RRU ON on " ++ siteId ++ "…") s4 in
        let (w, s'') := _waitAndGet siteId 3 RECHECK_MS s' in
        (match w with Some _ => w | None => r end, s'')
      else (r, s4)
  | None => (r, s4)
  end.

Lemma first_check_history attempt siteId antenna s :
  exists tr,
    history (snd (first_check attempt siteId antenna s)) = (history s ++ tr)%list /\
    List.filter is_device_request tr = [Rru siteId antenna "on"] /\
    last_seen siteId tr = fst (first_check attempt siteId antenna s).
Proof.
  unfold first_check. rewrite _fetchSite_effect.
  set (s3 := _sleep RECHECK_MS (_log _ (rru siteId antenna "on" s))).
  set (resp := fst (sim_state (world s3))).
  set (s4 := with_world (snd (sim_state (world s3))) (GetState resp) s3).
  assert (H4 : history s4 = (history s ++ [Rru siteId antenna "on"; Sleep RECHECK_MS; GetState resp])%list).
  { subst s4 s3. cbn. rewrite <- !app_assoc. reflexivity. }
  assert (Hplain :
            history s4 = (history s ++ [Rru siteId antenna "on"; Sleep RECHECK_MS; GetState resp])%list /\
            List.filter is_device_request [Rru siteId antenna "on"; Sleep RECHECK_MS; GetState resp]
            = [Rru siteId antenna "on"] /\
            last_seen siteId [Rru siteId antenna "on"; Sleep RECHECK_MS; GetState resp]
            = site_in siteId (GetState resp)).
  { split; [exact H4|split; [reflexivity|]].
    unfold last_seen. cbn.
    destruct resp as [sites|]; [destruct (map_get siteId sites)|]; reflexivity. }
  destruct (site_in siteId (GetState resp)) as [site|] eqn:Hr.
  - destruct (equals "on" (mains site) && not_alive site)%bool.
    + set (s' := _log _ s4).
      destruct (_waitAndGet_history siteId 3 RECHECK_MS s') as (trw & Hh & Hreq & Hseen).
      destruct (_waitAndGet siteId 3 RECHECK_MS s') as [w s''] eqn:Hw.
      cbn [fst snd] in *.
      exists ([Rru siteId antenna "on"; Sleep RECHECK_MS; GetState resp] ++ trw)%list.
      split; [|split].
      * rewrite Hh. subst s'. rewrite history_log, H4, <- app_assoc. reflexivity.
      * rewrite filter_app, Hreq. reflexivity.
      * unfold last_seen. rewrite last_seen_from_app, Hseen.
        destruct Hplain as (_ & _ & Hl). unfold last_seen in Hl. rewrite Hl.
        destruct w; reflexivity.
    + eexists. cbn [fst snd]. exact Hplain.
  - eexists. cbn [fst snd]. exact Hplain.
Qed.

Lemma heal_attempt_first_check attempt siteId antenna s :
  heal_attempt attempt siteId antenna s =
  let (r', s5) := first_check attempt siteId antenna s in
  if equals "Available" (service_of antenna r') then (true, s5)
  else
    let s6 := rru siteId antenna "off" s5 in
    let s7 := _log ("RRU RESET step (OFF) " ++ siteId ++ " " ++ antenna ++
                    " (attempt " ++ nat_to_string attempt ++ ")") s6 in
    let s8 := _sleep 400 s7 in
    let s9 := rru siteId antenna "on" s8 in
    let s10 := _log ("RRU RESET step (ON) " ++ siteId ++ " " ++ antenna ++
                     " (attempt " ++ nat_to_string attempt ++ ")") s9 in
    let s11 := _sleep RECHECK_MS s10 in
    let (r2, s12) := _fetchSite siteId s11 in
    (equals "Available" (service_of antenna r2), s12).
Proof.
  unfold heal_attempt, first_check.
  destruct (_fetchSite siteId _) as [[site|] s4]; [|reflexivity].
  destruct (equals "on" (mains site) && not_alive site)%bool; [|reflexivity].
  destruct (_waitAndGet siteId 3 RECHECK_MS _) as [w s'']. reflexivity.
Qed.

(** One attempt, read off the history: it issued [rru on], or [rru on],
    [rru off], [rru on]; it succeeded exactly when the latest snapshot of
    the site it saw shows the antenna available. *)
Lemma heal_attempt_history attempt siteId antenna s :
  exists tr,
    history (snd (heal_attempt attempt siteId antenna s)) = (history s ++ tr)%list /\
    attempt_requests siteId antenna tr /\
    fst (heal_attempt attempt siteId antenna s) = shows_available siteId antenna tr.
Proof.
  rewrite heal_attempt_first_check.
  destruct (first_check_history attempt siteId antenna s) as (tr1 & Hh & Hreq & Hseen).
  destruct (first_check attempt siteId antenna s) as [r' s5]. cbn [fst snd] in *.
  destruct (equals "Available" (service_of antenna r')) eqn:Hav.
  - exists tr1. cbn [fst snd]. split; [exact Hh|split; [left; exact Hreq|]].
    unfold shows_available. now rewrite Hseen, Hav.
  - rewrite _fetchSite_effect.
    set (s11 := _sleep RECHECK_MS (_log _ (rru siteId antenna "on" (_sleep 400 (_log _ (rru siteId antenna "off" s5)))))).
    set (resp := fst (sim_state (world s11))).
    exists (tr1 ++ [Rru siteId antenna "off"; Sleep 400; Rru siteId antenna "on";
                    Sleep RECHECK_MS; GetState resp])%list.
    cbn [fst snd]. split; [|split].
    + subst s11. cbn. rewrite Hh, <- !app_assoc. reflexivity.
    + right. rewrite filter_app, Hreq. reflexivity.
    + unfold shows_available, last_seen. rewrite last_seen_from_app.
      fold (last_seen siteId tr1). rewrite Hseen, !last_seen_from_cons.
      cbn [last_seen_from fold_left]. change (site_in siteId (Sleep RECHECK_MS)) with (@None Site).
      change (site_in siteId (Sleep 400)) with (@None Site).
      change (site_in siteId (Rru siteId antenna "off")) with (@None Site).
      change (site_in siteId (Rru siteId antenna "on")) with (@None Site).
      destruct (site_in siteId (GetState resp)) as [x|]; [reflexivity|].
      cbn [service_of equals]. now rewrite Hav.
Qed.

(** The attempts of one call, read off the history. *)
Definition failed_attempts (siteId antenna : string) (trs : list (list Effect)) : Prop :=
  Forall (fun tr => shows_available siteId antenna tr = false) trs.

Lemma heal_loop_history remaining attempt siteId antenna s :
  exists trs,
    history (snd (heal_loop remaining attempt siteId antenna s)) = (history s ++ concat trs)%list /\
    (List.length trs <= remaining)%nat /\
    Forall (attempt_requests siteId antenna) trs /\
    ((fst (heal_loop remaining attempt siteId antenna s) = mkOutcome true None /\
      exists before last,
        trs = (before ++ [last])%list /\
        failed_attempts siteId antenna before /\
        shows_available siteId antenna last = true) \/
     (fst (heal_loop remaining attempt siteId antenna s) = mkOutcome false (Some "rru_unavailable") /\
      List.length trs = remaining /\
      failed_attempts siteId antenna trs)).
Proof.
  revert attempt s. induction remaining as [|n IH]; intros attempt s.
  - exists []. cbn. rewrite app_nil_r. repeat split; auto.
    right. repeat split; constructor.
  - cbn [heal_loop].
    destruct (heal_attempt_history attempt siteId antenna s) as (tr & Hh & Hreq & Hok).
    destruct (heal_attempt attempt siteId antenna s) as [done s'] eqn:Hat.
    cbn [fst snd] in *. destruct done.
    + exists [tr]. cbn [fst snd concat]. rewrite app_nil_r.
      split; [exact Hh|split; [cbn; lia|split; [constructor; [exact Hreq|constructor]|]]].
      left. split; [reflexivity|]. exists [], tr. repeat split; [constructor|auto].
    + destruct (IH (S attempt) s') as (trs & Hh' & Hlen & Hreqs & Hcases).
      exists (tr :: trs). split; [|split; [|split]].
      * rewrite Hh', Hh. cbn [concat]. now rewrite <- app_assoc.
      * cbn. lia.
      * constructor; assumption.
      * destruct Hcases as [(Hout & before & last & -> & Hbefore & Hlast)|(Hout & Hn & Hall)].
        -- left. split; [exact Hout|]. exists (tr :: before), last.
           repeat split; [constructor; auto|exact Hlast].
        -- right. split; [exact Hout|]. split; [cbn; lia|constructor; auto].
Qed.

(** C8, as the code has it. A call of the radio-heal loop makes at least
    one and at most 3 attempts. Each attempt issues [rru on], or [rru on],
    [rru off], [rru on] when it goes through the reset, for the given site
    and antenna. An attempt succeeds when the latest snapshot of the site
    that it has seen shows the antenna 'Available'; that snapshot is the
    read made after the command, or the re-read of the wait for the boot
    that replaces it when the read reports mains on and the site not
    alive. The call returns [{ ok: true }] at the first attempt that
    succeeds, every attempt before it having failed, and
    [{ ok: false, error: 'rru_unavailable' }] after exactly 3 attempts
    that all failed. *)
Theorem healRadio_bounded_retry (siteId antenna : string) (s : Sys) :
  exists attempts : list (list Effect),
    history (snd (_healRadio siteId antenna s)) = (history s ++ concat attempts)%list /\
    (1 <= List.length attempts <= MAX_RRU_ATTEMPTS)%nat /\
    Forall (attempt_requests siteId antenna) attempts /\
    ((fst (_healRadio siteId antenna s) = mkOutcome true None /\
      exists before last,
        attempts = (before ++ [last])%list /\
        failed_attempts siteId antenna before /\
        shows_available siteId antenna last = true) \/
     (fst (_healRadio siteId antenna s) = mkOutcome false (Some "rru_unavailable") /\
      List.length attempts = MAX_RRU_ATTEMPTS /\
      failed_attempts siteId antenna attempts)).
Proof.
  unfold _healRadio.
  destruct (heal_loop_history MAX_RRU_ATTEMPTS 1 siteId antenna s)
    as (trs & Hh & Hlen & Hreqs & Hcases).
  exists trs. split; [exact Hh|split; [|split; [exact Hreqs|exact Hcases]]].
  split; [|exact Hlen].
  destruct Hcases as [(_ & before & last & -> & _)|(_ & -> & _)].
  - rewrite length_app. cbn. lia.
  - unfold MAX_RRU_ATTEMPTS. lia.
Qed.

End WithEnv.

Definition planning : @Sys Scenario.scripted :=
  @Scenario.server Scenario.scripted Scenario.hitl_policy false running running
    (Scenario.mkScripted 1000 [] (Some [("S1", Scenario.outage)])).

Lemma mitigateSite_hitl_witness :
  fst (@mitigateSite Scenario.scripted "S1" planning) =
    ApprovalRequired (snd (_buildPlan "S1" Scenario.outage))
      (fst (_buildPlan "S1" Scenario.outage)) Scenario.outage /\
  res_ok (fst (@mitigateSite Scenario.scripted "S1" planning)) = false /\
  res_error (fst (@mitigateSite Scenario.scripted "S1" planning)) = Some "approval_required" /\
  history (snd (@mitigateSite Scenario.scripted "S1" planning)) =
    (history planning ++ [GetState (fst (@sim_state Scenario.scripted (world planning)))])%list /\
  world (snd (@mitigateSite Scenario.scripted "S1" planning)) =
    snd (@sim_state Scenario.scripted (world planning)) /\
  List.filter is_device_request (history (snd (@mitigateSite Scenario.scripted "S1" planning))) =
    List.filter is_device_request (history planning).
Proof.
  apply (@mitigateSite_hitl_plans_only Scenario.scripted "S1" planning Scenario.outage).
  - reflexivity.
  - vm_compute. auto.
  - vm_compute. discriminate.
  - reflexivity.
Defined.

(** C8 as stated fails. The simulator first reports the site with mains
    on, not alive and A1 'Available', then always with A1 'Unavailable':
    the read made after the first [rru on] shows 'Available', the loop
    waits for the boot instead of returning, and the call ends in
    [rru_unavailable]. *)
Definition flapping : @Sys Scenario.scripted :=
  @Scenario.server Scenario.scripted Scenario.hitl_policy false running running
    (Scenario.mkScripted 0 [Some [("S1", Scenario.booting)]] (Some [("S1", Scenario.a1_down)])).

Lemma available_read_is_not_enough :
  firstn 3 (history (snd (@_healRadio Scenario.scripted "S1" "a1" flapping))) =
    [Rru "S1" "a1" "on"; Sleep 1200; GetState (Some [("S1", Scenario.booting)])] /\
  antenna1 Scenario.booting = Some "Available" /\
  fst (@_healRadio Scenario.scripted "S1" "a1" flapping) = mkOutcome false (Some "rru_unavailable").
Proof. repeat split. Qed.

End TroubleshootingTheory.

Module SupervisorTheory.
Import Js Tower State SupervisorStore Supervisor.

(** Two events with the same type, siteId, alarm and timestamp; the
    timestamp of an event is its [timestamp], or else its [ts]. *)
Definition same_identity (e1 e2 : BusEvent) : Prop :=
  ev_type e1 = ev_type e2 /\
  ev_siteId e1 = ev_siteId e2 /\
  ev_alarm e1 = ev_alarm e2 /\
  or_ (ev_timestamp e1) (ev_ts e1) = or_ (ev_timestamp e2) (ev_ts e2).

Lemma same_identity_eventId e1 e2 : same_identity e1 e2 -> eventId e1 = eventId e2.
Proof. intros (Ht & Hs & Ha & Hts). unfold eventId. now rewrite Ht, Hs, Ha, Hts. Qed.

Lemma remember_lookup id t processed : remember id t processed !! id = Some t.
Proof.
  unfold remember. destruct (5000 <? size (<[id:=t]> processed))%nat.
  - apply map_lookup_filter_Some. split; [apply lookup_insert_eq|].
    cbn. unfold PROCESSED_TTL_MS. lia.
  - apply lookup_insert_eq.
Qed.

Lemma remember_keeps id t processed id0 t0 :
  processed !! id0 = Some t0 -> id <> id0 -> t <= t0 + PROCESSED_TTL_MS ->
  remember id t processed !! id0 = Some t0.
Proof.
  intros Hin Hne Hle. unfold remember.
  assert (Hins : <[id:=t]> processed !! id0 = Some t0) by now rewrite lookup_insert_ne.
  destruct (5000 <? size (<[id:=t]> processed))%nat; [|exact Hins].
  apply map_lookup_filter_Some. split; [exact Hins|]. cbn. lia.
Qed.

Section WithEnv.
Context {E : Env}.

(** What an observer of the Supervisor and of the agents sees, the
    Supervisor's log lines apart. *)
Definition observable (s : Sys) :=
  (approvals (supervisor s), nextApprovalId (supervisor s), tasksRouted (supervisor s),
   status (supervisor s), lastNote (supervisor s),
   agentA s, agentB s, agentC s, casebook s, lastBySite s, history s, world s).

(** The events [evts] are each handed over no later than [deadline]. *)
Fixpoint handed_by (deadline : Z) (evts : list BusEvent) (st : gmap string Z * Sys) : Prop :=
  match evts with
  | [] => True
  | e :: rest => now (snd st) <= deadline /\ handed_by deadline rest (handleEvent e st)
  end.

Lemma handleEvent_duplicate evt processed s t :
  processed !! eventId evt = Some t ->
  handleEvent evt (processed, s) = (processed, _log ("event.duplicate → " ++ eventId evt) s).
Proof. intros H. unfold handleEvent. now rewrite H. Qed.

Lemma handleEvent_remembers evt processed s :
  processed !! eventId evt = None ->
  fst (handleEvent evt (processed, s)) !! eventId evt = Some (now s).
Proof. intros H. unfold handleEvent. rewrite H. apply remember_lookup. Qed.

Lemma handleEvent_keeps evt st id t :
  fst st !! id = Some t -> now (snd st) <= t + PROCESSED_TTL_MS ->
  fst (handleEvent evt st) !! id = Some t.
Proof.
  destruct st as [processed s]. cbn [fst snd]. intros Hin Hnow. unfold handleEvent.
  destruct (processed !! eventId evt) as [t'|] eqn:Hid; [exact Hin|].
  cbn [fst]. apply remember_keeps; [exact Hin| |exact Hnow].
  intros Heq. rewrite Heq in Hid. congruence.
Qed.

Lemma handleEvents_keeps evts st id t :
  fst st !! id = Some t -> handed_by (t + PROCESSED_TTL_MS) evts st ->
  fst (handleEvents evts st) !! id = Some t.
Proof.
  revert st. induction evts as [|e evts IH]; intros st Hin Hby; [exact Hin|].
  cbn in Hby |- *. destruct Hby as [Hnow Hrest].
  apply IH; [|exact Hrest]. now apply handleEvent_keeps.
Qed.

(** C2. An event is handed to [handleEvent] for the first time, then
    other events, then a second event with the same type, siteId, alarm
    and timestamp, every hand-over happening within 60 seconds of the
    first. The second delivery logs [event.duplicate] and returns: the
    ledger is what it was, and so is the whole state but for that line of
    the Supervisor's log; approvals, tasksRouted, the agents, the
    casebook and the requests made to the simulator are those of the
    single delivery. *)
Theorem duplicate_delivery_is_ignored
  (e1 e2 : BusEvent) (evts : list BusEvent) (processed : gmap string Z) (s : Sys) :
  same_identity e1 e2 ->
  processed !! eventId e1 = None ->
  handed_by (now s + PROCESSED_TTL_MS) evts (handleEvent e1 (processed, s)) ->
  let st := handleEvents evts (handleEvent e1 (processed, s)) in
  handleEvent e2 st = (fst st, _log ("event.duplicate → " ++ eventId e2) (snd st)) /\
  observable (snd (handleEvent e2 st)) = observable (snd st).
Proof.
  intros Hsame Hfresh Hby st.
  assert (Hin : fst st !! eventId e2 = Some (now s)).
  { rewrite <- (same_identity_eventId e1 e2 Hsame). subst st.
    apply handleEvents_keeps; [|exact Hby]. now apply handleEvent_remembers. }
  destruct st as [p s'] eqn:Hst. cbn [fst snd] in *.
  rewrite (handleEvent_duplicate e2 p s' _ Hin). split; reflexivity.
Qed.

(** *** The manual toggle under a human-in-the-loop policy *)

(** The part of the state that the rest of this section follows. *)
Record View := mkView {
  v_policy : PolicyStore.Policy;
  v_auto : bool;
  v_approvals : list Approval;
  v_next : nat;
  v_status : Status;
  v_routed : Z;
  v_requests : list Effect;
  v_agentB : Agent;
  v_casebook : list Case;
  v_last : gmap string Last;
}.

Definition view (s : Sys) : View :=
  mkView (policy s) (autoEnabled s) (approvals (supervisor s)) (nextApprovalId (supervisor s))
    (status (supervisor s)) (tasksRouted (supervisor s))
    (List.filter is_device_request (history s)) (agentB s) (casebook s) (lastBySite s).

Definition with_records (cb : list Case) (lb : gmap string Last) (v : View) : View :=
  mkView (v_policy v) (v_auto v) (v_approvals v) (v_next v) (v_status v) (v_routed v)
    (v_requests v) (v_agentB v) cb lb.

Definition with_B (b : Agent) (v : View) : View :=
  mkView (v_policy v) (v_auto v) (v_approvals v) (v_next v) (v_status v) (v_routed v)
    (v_requests v) b (v_casebook v) (v_last v).

Definition with_routed (n : Z) (v : View) : View :=
  mkView (v_policy v) (v_auto v) (v_approvals v) (v_next v) (v_status v) n
    (v_requests v) (v_agentB v) (v_casebook v) (v_last v).

Lemma view_log msg s : view (_log msg s) = view s.
Proof. reflexivity. Qed.

Lemma view_note msg s : view (supervisorNote msg s) = view s.
Proof. reflexivity. Qed.

Lemma view_read w r s : view (with_world w (GetState r) s) = view s.
Proof. unfold view. cbn. rewrite filter_app. cbn. now rewrite app_nil_r. Qed.

Lemma view_fetchSite siteId s : view (snd (_fetchSite siteId s)) = view s.
Proof. rewrite TroubleshootingTheory._fetchSite_effect. apply view_read. Qed.

Lemma view_agentA_start s : view (CorrelationAgent.start s) = view s.
Proof.
  unfold CorrelationAgent.start.
  destruct (agent_status (agentA s)); try reflexivity;
    destruct (String.eqb (agentA_delegation s) "disabled"); reflexivity.
Qed.

Lemma view_correlate evs s : view (snd (CorrelationAgent.correlate evs s)) = view s.
Proof. reflexivity. Qed.

Lemma view_ensure_agentB s :
  exists b, view (ensure_agentB s) = with_B b (view s) /\ agent_status b = running /\
            agent_tasks b = agent_tasks (agentB s) /\ agent_name b = agent_name (agentB s).
Proof.
  unfold ensure_agentB. destruct (agent_status (agentB s)) eqn:Hb;
    try (exists (agentB (TroubleshootingAgent.start s));
         repeat split; unfold TroubleshootingAgent.start, AgentBase.start; cbn; rewrite Hb;
         reflexivity).
  exists (agentB s). repeat split; auto.
Qed.

Lemma view_incrementTasksRouted n s :
  view (incrementTasksRouted n s) = with_routed (tasksRouted (supervisor s) + n) (view s).
Proof. reflexivity. Qed.

Lemma view_agentC_start s : view (RcaAgent.start s) = view s.
Proof. reflexivity. Qed.

Lemma view_parts s s' :
  view s' = view s ->
  casebook s' = casebook s /\ lastBySite s' = lastBySite s /\ agentB s' = agentB s /\
  policy s' = policy s.
Proof.
  intros H. repeat split.
  - exact (f_equal v_casebook H).
  - exact (f_equal v_last H).
  - exact (f_equal v_agentB H).
  - exact (f_equal v_policy H).
Qed.

(** [_dedup]: afterwards the site's entry of [_lastBySite] holds the
    given cause and resolution; it answers [false] when the entry held
    another resolution. *)
Lemma view_dedup siteId cause resolution s :
  exists lb l,
    view (snd (RcaAgent._dedup siteId cause resolution s)) =
      with_records (casebook s) lb (view s) /\
    lb !! siteId = Some l /\ last_cause l = cause /\ last_resolution l = resolution /\
    ((forall l0, lastBySite s !! siteId = Some l0 -> last_resolution l0 <> resolution) ->
     fst (RcaAgent._dedup siteId cause resolution s) = false).
Proof.
  unfold RcaAgent._dedup.
  destruct (lastBySite s !! siteId) as [l0|] eqn:Hlast.
  - destruct (String.eqb_spec (last_cause l0) cause) as [Hcause|Hcause];
      [destruct (String.eqb_spec (last_resolution l0) resolution) as [Hres|Hres];
       [destruct (now s - last_ts l0 <? RcaAgent.DEDUP_WINDOW_MS) eqn:Hwin|]|];
      cbn [andb fst snd].
    + exists (lastBySite s), l0. repeat split; auto.
      intros Hne. exfalso. exact (Hne l0 eq_refl Hres).
    + eexists _, _. split; [reflexivity|]. split; [apply lookup_insert_eq|]. auto.
    + eexists _, _. split; [reflexivity|]. split; [apply lookup_insert_eq|]. auto.
    + eexists _, _. split; [reflexivity|]. split; [apply lookup_insert_eq|]. auto.
  - eexists _, _. split; [reflexivity|]. split; [apply lookup_insert_eq|]. auto.
Qed.

(** [recordIncident] on a site and a cause that are not noise: the site's
    entry of [_lastBySite] then holds that cause and resolution, and the
    casebook is what it was or has one more case for that site and
    resolution; it has one more when the entry held another resolution. *)
Lemma view_recordIncident siteId cause actions resolution s :
  RcaAgent._isNoise siteId cause = false ->
  exists cb lb l,
    view (snd (RcaAgent.recordIncident siteId cause actions resolution s)) =
      with_records cb lb (view s) /\
    lb !! siteId = Some l /\ last_cause l = cause /\ last_resolution l = resolution /\
    (cb = casebook s \/
     exists c, cb = (casebook s ++ [c])%list /\ case_siteId c = siteId /\
               case_resolution c = resolution) /\
    ((forall l0, lastBySite s !! siteId = Some l0 -> last_resolution l0 <> resolution) ->
     exists c, cb = (casebook s ++ [c])%list /\ case_siteId c = siteId /\
               case_resolution c = resolution /\
               (resolution <> "restored" -> case_dispatchSuggested c = true)).
Proof.
  intros Hnoise. unfold RcaAgent.recordIncident. rewrite Hnoise.
  set (s0 := match agent_status (agentC s) with running => s | _ => RcaAgent.start s end).
  assert (Hv0 : view s0 = view s).
  { subst s0. destruct (agent_status (agentC s)); reflexivity. }
  destruct (view_parts _ _ Hv0) as (Hc0 & Hl0 & _ & _).
  destruct (view_dedup siteId cause resolution s0) as (lb & l & Hv1 & Hlb & Hlc & Hlr & Hfresh).
  rewrite Hl0 in Hfresh. rewrite Hc0, Hv0 in Hv1.
  destruct (RcaAgent._dedup siteId cause resolution s0) as [dup s1]. cbn [fst snd] in *.
  assert (Hc1 : casebook s1 = casebook s) by exact (f_equal v_casebook Hv1).
  assert (Hl1 : lastBySite s1 = lb) by exact (f_equal v_last Hv1).
  destruct dup.
  - exists (casebook s), lb, l. cbn [snd]. repeat split; auto.
    intros Hne. specialize (Hfresh Hne). discriminate.
  - pose proof (view_fetchSite siteId s1) as Hv2.
    destruct (_fetchSite siteId s1) as [site s2]. cbn [fst snd] in *.
    rewrite Hv1 in Hv2.
    assert (Hc2 : casebook s2 = casebook s) by exact (f_equal v_casebook Hv2).
    set (alarms := RcaAgent._detectAlarmsFromSite site).
    set (ongoing := (negb (String.eqb resolution "restored") ||
                     negb (List.length alarms =? 0)%nat)%bool).
    set (item := mkCase (nowIso s2) siteId cause actions resolution ongoing ongoing
                   (RcaAgent._buildSummaryLine siteId cause resolution site alarms)).
    exists (casebook s ++ [item])%list, lb, l.
    split; [|repeat split; auto].
    + cbn [case_dispatchSuggested]. destruct ongoing; cbn [snd];
        unfold view in Hv2 |- *; cbn; rewrite Hc2;
        injection Hv2 as -> -> -> -> -> -> -> -> _ ->; reflexivity.
    + right. exists item. auto.
    + intros _. exists item. repeat split; auto.
      intros Hne. subst item ongoing. cbn.
      destruct (String.eqb_spec resolution "restored"); [contradiction|reflexivity].
Qed.

Lemma last_push_ring (cap : nat) (x d : string) (l : list string) :
  (1 <= cap)%nat -> List.last (push_ring cap x l) d = x.
Proof.
  intros Hcap. unfold push_ring. cbv zeta.
  destruct (cap <? List.length (l ++ [x]))%nat eqn:Hlt; [|apply last_last].
  destruct l as [|y l]; cbn [app List.tl].
  - apply Nat.ltb_lt in Hlt. cbn in Hlt. lia.
  - apply last_last.
Qed.

(** [mitigateSite] under the human-in-the-loop policy, with Agent B
    running and the site in every snapshot: it answers
    [approval_required], and all it leaves behind is two lines in Agent B's
    log (and a note to the Supervisor). *)
Lemma view_mitigateSite_hitl siteId s :
  agent_status (agentB s) = running ->
  PolicyStore.waysOfWorking (policy s) = "Human intervention at critical steps" ->
  (forall w, exists sites site, fst (sim_state w) = Some sites /\ map_get siteId sites = Some site) ->
  exists plan alarms site b,
    fst (TroubleshootingAgent.mitigateSite siteId s) =
      TroubleshootingAgent.ApprovalRequired plan alarms site /\
    view (snd (TroubleshootingAgent.mitigateSite siteId s)) = with_B b (view s) /\
    agent_tasks b = agent_tasks (agentB s) /\
    exists iso,
      List.last (agent_logs b) EmptyString =
      line iso (agent_name (agentB s))
        ("policy HITL → approval required for " ++ siteId ++ ", " ++
         nat_to_string (List.length plan) ++ " step(s)").
Proof.
  intros Hrun Hwow Hsim.
  destruct (Hsim (world s)) as (sites & site & Hsites & Hsite).
  unfold TroubleshootingAgent.mitigateSite. rewrite Hrun.
  unfold PolicyStore.getPolicy. rewrite Hwow.
  rewrite TroubleshootingTheory._fetchSite_effect. rewrite Hsites. cbn [TroubleshootingTheory.site_in].
  rewrite Hsite.
  change (String.eqb (toLowerCase "Human intervention at critical steps") "e2e automation")
    with false.
  cbn [negb]. unfold TroubleshootingAgent.propose. cbn [fst snd].
  eexists _, _, _, _. split; [reflexivity|]. split; [|split].
  - unfold view. cbn. rewrite filter_app. cbn. rewrite app_nil_r. reflexivity.
  - reflexivity.
  - eexists. cbn [agent_logs AgentBase._log AgentBase.set_agent_logs].
    rewrite last_push_ring by lia. reflexivity.
Qed.

(** The event that [handleEvent] hands to Agent A, its timestamp apart. *)
Definition probe (siteId : string) (evt : BusEvent) : BusEvent :=
  {| ev_type := or_ (or_ (ev_alarm evt) (ev_type evt)) (Some "unknown");
     ev_siteId := Some siteId;
     ev_alarm := None; ev_timestamp := None;
     ev_ts := None; ev_source := None; ev_bootstrap := None;
     ev_antenna := None; ev_from := None; ev_to := None |}.

Lemma correlate_single mode W e :
  CorrelationAgent.keeps mode e = true ->
  exists inc, CorrelationAgent.correlate_incidents mode W [e] = [inc].
Proof.
  intros Hkeep. unfold CorrelationAgent.correlate_incidents. cbn [List.filter].
  rewrite Hkeep. cbn. eauto.
Qed.

Lemma keeps_probe mode siteId evt s :
  forall e, correlateInput siteId evt s = [e] ->
  CorrelationAgent.keeps mode e = CorrelationAgent.keeps mode (probe siteId evt).
Proof. intros e [= <-]. reflexivity. Qed.

Lemma kept_site_is_not_noise mode siteId evt :
  CorrelationAgent.keeps mode (probe siteId evt) = true ->
  RcaAgent._isNoise siteId "correlated_alarm_cluster" = false.
Proof.
  unfold CorrelationAgent.keeps, RcaAgent._isNoise. cbn [probe ev_siteId nullish].
  destruct (negb (truthy (Some siteId)) || String.eqb siteId "unknown")%bool; [discriminate|].
  reflexivity.
Qed.

(** C10. The Supervisor is running, the policy's [waysOfWorking] is
    'Human intervention at critical steps' and the manual toggle is on.
    An actionable event that is not a duplicate arrives for a site that
    Agent A's filter keeps and that every snapshot of the simulator
    holds. Then [autoEffective()] is true and [handleEvent] takes the auto
    path: [tasksRouted] grows by one. Agent B, which reads the policy
    alone, answers [approval_required] and executes nothing: the last line
    of its log is the 'approval required' line, its task counter is what it
    was, and no [power] or [rru] request is made. No approval is enqueued;
    Agent C's casebook ends with a case of the site with resolution
    'stabilized' and [dispatchSuggested] true, preceded at most by the
    'investigating' case of this event. *)
Theorem manual_toggle_under_hitl_policy
  (evt : BusEvent) (siteId : string) (processed : gmap string Z) (s : Sys) :
  status (supervisor s) = running ->
  processed !! eventId evt = None ->
  siteId_of evt = Some siteId ->
  actionable evt = true ->
  CorrelationAgent.keeps (CorrelationAgent.policyMode (policy s)) (probe siteId evt) = true ->
  PolicyStore.waysOfWorking (policy s) = "Human intervention at critical steps" ->
  autoEnabled s = true ->
  (forall w, exists sites site, fst (sim_state w) = Some sites /\ map_get siteId sites = Some site) ->
  let s' := snd (handleEvent evt (processed, s)) in
  autoEffective s = true /\
  tasksRouted (supervisor s') = tasksRouted (supervisor s) + 1 /\
  approvals (supervisor s') = approvals (supervisor s) /\
  nextApprovalId (supervisor s') = nextApprovalId (supervisor s) /\
  List.filter is_device_request (history s') = List.filter is_device_request (history s) /\
  agent_tasks (agentB s') = agent_tasks (agentB s) /\
  (exists iso steps,
     List.last (agent_logs (agentB s')) EmptyString =
     line iso (agent_name (agentB s))
       ("policy HITL → approval required for " ++ siteId ++ ", " ++ steps ++ " step(s)")) /\
  (exists cb c,
     casebook s' = (cb ++ [c])%list /\
     case_siteId c = siteId /\ case_resolution c = "stabilized" /\
     case_dispatchSuggested c = true /\
     (cb = casebook s \/
      exists c0, cb = (casebook s ++ [c0])%list /\ case_siteId c0 = siteId /\
                 case_resolution c0 = "investigating")).
Proof.
  intros Hrun Hfresh Hsite Hact Hkeep Hwow Htoggle Hsim s'.
  assert (Hauto : autoEffective s = true).
  { unfold autoEffective. rewrite Htoggle. apply Bool.orb_true_r. }
  split; [exact Hauto|].
  subst s'. unfold handleEvent. rewrite Hfresh. cbn [snd].
  unfold process. rewrite Hsite.
  set (s1 := _log _ s).
  assert (Hv1 : view s1 = view s) by reflexivity.
  replace (status (supervisor s1)) with running by (rewrite <- Hrun; reflexivity).
  rewrite Hact. unfold orchestrate.
  set (sA := match agent_status (agentA s1) with
             | running => s1 | _ => CorrelationAgent.start s1 end).
  assert (HvA : view sA = view s).
  { subst sA. destruct (agent_status (agentA s1)); rewrite ?view_agentA_start; exact Hv1. }
  pose proof (view_correlate (correlateInput siteId evt sA) sA) as Hv2.
  assert (Hincs : exists inc,
             fst (CorrelationAgent.correlate (correlateInput siteId evt sA) sA) = [inc]).
  { cbn [CorrelationAgent.correlate fst]. unfold correlateInput.
    apply correlate_single. unfold PolicyStore.getPolicy.
    replace (policy sA) with (policy s) by (symmetry; exact (f_equal v_policy HvA)).
    exact Hkeep. }
  destruct Hincs as (inc & Hincs).
  destruct (CorrelationAgent.correlate (correlateInput siteId evt sA) sA) as [incidents s2].
  cbn [fst snd] in Hv2, Hincs. subst incidents. rewrite HvA in Hv2.
  set (s3 := _log _ s2).
  assert (Hv3 : view s3 = view s) by (rewrite <- Hv2; reflexivity).
  (* step 2: the investigating case *)
  unfold record_investigating.
  destruct (view_recordIncident siteId "correlated_alarm_cluster" [] "investigating" s3
              (kept_site_is_not_noise _ _ _ Hkeep))
    as (cb4 & lb4 & l4 & Hv4 & Hlb4 & _ & Hres4 & Hcb4 & _).
  destruct (RcaAgent.recordIncident siteId "correlated_alarm_cluster" [] "investigating" s3)
    as [r4 s4']. cbn [snd] in Hv4.
  set (s4 := _log _ s4').
  assert (Hv4' : view s4 = with_records cb4 lb4 (view s)) by (rewrite <- Hv3, <- Hv4; reflexivity).
  destruct (view_parts _ _ Hv3) as (Hc3 & _ & _ & _). rewrite Hc3 in Hcb4.
  (* step 3: the auto path *)
  assert (Hauto4 : autoEffective s4 = true).
  { unfold autoEffective.
    replace (autoEnabled s4) with (autoEnabled s) by (symmetry; exact (f_equal v_auto Hv4')).
    rewrite Htoggle. apply Bool.orb_true_r. }
  rewrite Hauto4. cbn [negb]. unfold auto_path.
  destruct (view_ensure_agentB s4) as (b5 & Hv5 & Hb5run & Hb5tasks & Hb5name).
  assert (HB4 : agentB s4 = agentB s)
    by (transitivity (v_agentB (view s4)); [reflexivity|rewrite Hv4'; reflexivity]).
  rewrite HB4 in Hb5tasks, Hb5name.
  set (s5 := ensure_agentB s4) in *.
  set (s7 := _log _ (incrementTasksRouted 1 s5)).
  assert (Hv7 : view s7 =
                with_routed (tasksRouted (supervisor s) + 1)
                  (with_B b5 (with_records cb4 lb4 (view s)))).
  { subst s7. rewrite view_log, view_incrementTasksRouted, Hv5, Hv4'.
    replace (tasksRouted (supervisor s5)) with (tasksRouted (supervisor s)); [reflexivity|].
    transitivity (v_routed (view s5)); [|reflexivity]. rewrite Hv5, Hv4'. reflexivity. }
  destruct (view_mitigateSite_hitl siteId s7) as (plan & alarms & site & b8 & Hres & Hv8 & Hb8tasks & iso & Hb8log).
  { transitivity (agent_status (v_agentB (view s7))); [reflexivity|]. rewrite Hv7. exact Hb5run. }
  { transitivity (PolicyStore.waysOfWorking (v_policy (view s7))); [reflexivity|].
    rewrite Hv7. exact Hwow. }
  { exact Hsim. }
  destruct (TroubleshootingAgent.mitigateSite siteId s7) as [result s8].
  cbn [fst snd] in Hres, Hv8. subst result.
  cbn [TroubleshootingAgent.res_ok TroubleshootingAgent.res_allClear andb
       TroubleshootingAgent.res_actionsTaken nullish].
  rewrite Hv7 in Hv8.
  (* step 4: the final case *)
  destruct (view_recordIncident siteId "correlated_alarm_cluster" [] "stabilized" s8
              (kept_site_is_not_noise _ _ _ Hkeep))
    as (cb9 & lb9 & l9 & Hv9 & _ & _ & _ & _ & Hcb9).
  destruct Hcb9 as (c & -> & Hcsite & Hcres & Hcdisp).
  { intros l0 Hl0.
    replace (lastBySite s8) with lb4 in Hl0
      by (symmetry; transitivity (v_last (view s8)); [reflexivity|rewrite Hv8; reflexivity]).
    rewrite Hlb4 in Hl0. injection Hl0 as <-. rewrite Hres4. discriminate. }
  destruct (RcaAgent.recordIncident siteId "correlated_alarm_cluster" [] "stabilized" s8)
    as [r9 s9]. cbn [snd] in Hv9.
  set (s10 := _log _ s9).
  assert (Hv10 : view s10 =
                 with_records (casebook s8 ++ [c]) lb9
                   (with_B b8 (with_routed (tasksRouted (supervisor s) + 1)
                                 (with_B b5 (with_records cb4 lb4 (view s)))))).
  { rewrite <- Hv8, <- Hv9. reflexivity. }
  assert (Hc8 : casebook s8 = cb4)
    by (transitivity (v_casebook (view s8)); [reflexivity|rewrite Hv8; reflexivity]).
  rewrite Hc8 in Hv10.
  repeat split.
  - exact (f_equal v_routed Hv10).
  - exact (f_equal v_approvals Hv10).
  - exact (f_equal v_next Hv10).
  - exact (f_equal v_requests Hv10).
  - transitivity (agent_tasks (v_agentB (view s10))); [reflexivity|].
    rewrite Hv10. cbn. rewrite Hb8tasks.
    transitivity (agent_tasks (v_agentB (view s7))); [reflexivity|].
    rewrite Hv7. cbn. exact Hb5tasks.
  - exists iso, (nat_to_string (List.length plan)).
    transitivity (List.last (agent_logs (v_agentB (view s10))) EmptyString); [reflexivity|].
    rewrite Hv10. cbn [v_agentB with_records with_B]. rewrite Hb8log.
    replace (agent_name (agentB s7)) with (agent_name (agentB s)); [reflexivity|].
    transitivity (agent_name (v_agentB (view s7))); [|reflexivity].
    rewrite Hv7. cbn. rewrite Hb5name. reflexivity.
  - exists cb4, c. split; [exact (f_equal v_casebook Hv10)|].
    split; [exact Hcsite|]. split; [exact Hcres|].
    split; [apply Hcdisp; discriminate|].
    destruct Hcb4 as [->|(c0 & -> & Hc0 & Hr0)]; [left; reflexivity|].
    right. exists c0. auto.
Qed.

End WithEnv.

(** Scenario 4 of the specification, with another event in between. *)
Definition serving : @Sys Scenario.scripted :=
  @Scenario.server Scenario.scripted Scenario.hitl_policy false running stopped
    (Scenario.mkScripted 1000 [] (Some [("S1", Scenario.outage)])).

Lemma duplicate_delivery_witness :
  let st := @handleEvents Scenario.scripted [Scenario.mains_failure "2025-01-01T00:00:05Z"]
              (@handleEvent Scenario.scripted (Scenario.mains_failure "2025-01-01T00:00:00Z")
                 (∅, serving)) in
  @handleEvent Scenario.scripted (Scenario.mains_failure "2025-01-01T00:00:00Z") st =
    (fst st,
     @_log Scenario.scripted
       ("event.duplicate → " ++ eventId (Scenario.mains_failure "2025-01-01T00:00:00Z")) (snd st)) /\
  @observable Scenario.scripted
    (snd (@handleEvent Scenario.scripted (Scenario.mains_failure "2025-01-01T00:00:00Z") st)) =
  @observable Scenario.scripted (snd st).
Proof.
  apply (@duplicate_delivery_is_ignored Scenario.scripted
           (Scenario.mains_failure "2025-01-01T00:00:00Z")
           (Scenario.mains_failure "2025-01-01T00:00:00Z")
           [Scenario.mains_failure "2025-01-01T00:00:05Z"] ∅ serving).
  - repeat split.
  - reflexivity.
  - split; [vm_compute; discriminate|exact I].
Defined.

(** Scenario 2 of the specification with the manual toggle on. *)
Definition fleet : Sites := [("S1", Scenario.outage)].

Definition toggled : @Sys (Scenario.constant fleet) :=
  @Scenario.server (Scenario.constant fleet) Scenario.hitl_policy true running stopped 1000.

Definition toggled_after : @Sys (Scenario.constant fleet) :=
  snd (@handleEvent (Scenario.constant fleet)
         (Scenario.mains_failure "2025-01-01T00:00:00Z") (∅, toggled)).

Lemma manual_toggle_witness :
  @autoEffective (Scenario.constant fleet) toggled = true /\
  tasksRouted (supervisor toggled_after) = tasksRouted (supervisor toggled) + 1 /\
  approvals (supervisor toggled_after) = approvals (supervisor toggled) /\
  nextApprovalId (supervisor toggled_after) = nextApprovalId (supervisor toggled) /\
  List.filter is_device_request (history toggled_after) =
    List.filter is_device_request (history toggled) /\
  agent_tasks (agentB toggled_after) = agent_tasks (agentB toggled) /\
  (exists iso steps,
     List.last (agent_logs (agentB toggled_after)) EmptyString =
     line iso (agent_name (agentB toggled))
       ("policy HITL → approval required for " ++ "S1" ++ ", " ++ steps ++ " step(s)")) /\
  (exists cb c,
     casebook toggled_after = (cb ++ [c])%list /\
     case_siteId c = "S1" /\ case_resolution c = "stabilized" /\
     case_dispatchSuggested c = true /\
     (cb = casebook toggled \/
      exists c0, cb = (casebook toggled ++ [c0])%list /\ case_siteId c0 = "S1" /\
                 case_resolution c0 = "investigating")).
Proof.
  apply (@manual_toggle_under_hitl_policy (Scenario.constant fleet)
           (Scenario.mains_failure "2025-01-01T00:00:00Z") "S1" ∅ toggled).
  - reflexivity.
  - reflexivity.
  - reflexivity.
  - reflexivity.
  - reflexivity.
  - reflexivity.
  - reflexivity.
  - intros w. exists fleet, Scenario.outage. split; reflexivity.
Defined.

End SupervisorTheory.

(** ** More of the policy store *)

Module PolicyMore.
Import Js PolicyStore PolicyTheory.

(** Two patches that supply the same settings up to letter case. *)
Definition same_up_to_case (p q : Patch) : Prop :=
  option_map toLowerCase (patch_alarmPrioritization p) =
    option_map toLowerCase (patch_alarmPrioritization q) /\
  option_map toLowerCase (patch_waysOfWorking p) =
    option_map toLowerCase (patch_waysOfWorking q) /\
  option_map toLowerCase (patch_kpiAlignment p) =
    option_map toLowerCase (patch_kpiAlignment q).

Lemma toCanonical_case value value' canon label :
  option_map toLowerCase value = option_map toLowerCase value' ->
  toCanonical value canon label = toCanonical value' canon label.
Proof.
  destruct value as [v|], value' as [v'|]; cbn; try discriminate; [|reflexivity].
  intros [= ->]. reflexivity.
Qed.

(** X1. [setPolicy] reads the supplied settings up to letter case only:
    two patches that differ in the letter case of their values give the
    same completion (value or error) and the same stored policy. *)
Theorem setPolicy_ignores_letter_case (p q : Patch) (src iso : string) (pol : Policy) :
  same_up_to_case p q ->
  setPolicy p src iso pol = setPolicy q src iso pol.
Proof.
  intros (Ha & Hw & Hk). unfold setPolicy, validatePatch.
  rewrite (toCanonical_case _ _ ALARM_CANON "alarmPrioritization" Ha).
  rewrite (toCanonical_case _ _ WOW_CANON "waysOfWorking" Hw).
  rewrite (toCanonical_case _ _ KPI_CANON "kpiAlignment" Hk).
  reflexivity.
Qed.

Lemma setPolicy_ignores_letter_case_witness :
  setPolicy (mkPatch (Some "CRITICAL first") None (Some "75%")) "api" "t1" (DEFAULT_POLICY "t0") =
  setPolicy (mkPatch (Some "critical FIRST") None (Some "75%")) "api" "t1" (DEFAULT_POLICY "t0").
Proof.
  apply (setPolicy_ignores_letter_case
           (mkPatch (Some "CRITICAL first") None (Some "75%"))
           (mkPatch (Some "critical FIRST") None (Some "75%")) "api" "t1" (DEFAULT_POLICY "t0")).
  repeat split; reflexivity.
Defined.

(** The patch that supplies the three settings of a policy. *)
Definition patch_of (pol : Policy) : Patch :=
  mkPatch (Some (alarmPrioritization pol)) (Some (waysOfWorking pol)) (Some (kpiAlignment pol)).

Lemma toCanonical_option opts canon label o :
  canon_for opts canon -> In o opts ->
  toCanonical (Some o) canon label = Return (Some o).
Proof.
  intros (Htruthy & _ & complete) Ho. unfold toCanonical.
  now rewrite (complete o Ho), (Htruthy o Ho).
Qed.

(** X2. Writing back the settings that [getPolicy] returned is accepted
    and changes none of them: the stored policy differs from the old one
    in its version (one more), its [updatedAt] and its [source] only. *)
Theorem setPolicy_writes_back (src iso : string) (pol : Policy) :
  valid pol ->
  setPolicy (patch_of (getPolicy pol)) src iso pol =
    (Return (mkPolicy (alarmPrioritization pol) (waysOfWorking pol) (kpiAlignment pol)
               iso (version pol + 1) (Some src)),
     mkPolicy (alarmPrioritization pol) (waysOfWorking pol) (kpiAlignment pol)
       iso (version pol + 1) (Some src)).
Proof.
  intros (Ha & Hw & Hk). unfold setPolicy, validatePatch, patch_of, getPolicy.
  cbn [patch_alarmPrioritization patch_waysOfWorking patch_kpiAlignment].
  rewrite (toCanonical_option _ _ "alarmPrioritization" _ ALARM_canon_for Ha).
  rewrite (toCanonical_option _ _ "waysOfWorking" _ WOW_canon_for Hw).
  rewrite (toCanonical_option _ _ "kpiAlignment" _ KPI_canon_for Hk).
  reflexivity.
Qed.

Lemma setPolicy_writes_back_witness :
  setPolicy (patch_of (getPolicy (DEFAULT_POLICY "t0"))) "api" "t1" (DEFAULT_POLICY "t0") =
    (Return (mkPolicy "Critical First" "Human intervention at critical steps" ">95%"
               "t1" 2 (Some "api")),
     mkPolicy "Critical First" "Human intervention at critical steps" ">95%"
       "t1" 2 (Some "api")).
Proof.
  apply (setPolicy_writes_back "api" "t1" (DEFAULT_POLICY "t0")).
  apply DEFAULT_POLICY_valid.
Defined.

(** A run of [setPolicy] calls, each with its source and instant; the
    stored policy afterwards. *)
Definition setPolicy_all (calls : list (Patch * string * string)) (pol : Policy) : Policy :=
  fold_left (fun pol c => snd (setPolicy (fst (fst c)) (snd (fst c)) (snd c) pol)) calls pol.

(** The calls of a run that [validatePatch] lets through. *)
Definition accepted (c : Patch * string * string) : bool :=
  match validatePatch (fst (fst c)) with
  | Return _ => true
  | Throw _ => false
  end.

(** X3. Over any run of [setPolicy] calls, the version of the stored
    policy grows by exactly the number of calls whose patch passed
    [validatePatch] (a rejected call leaves it alone), and a stored policy
    that held option strings still holds option strings. *)
Theorem setPolicy_version_counts_accepted (calls : list (Patch * string * string)) (pol : Policy) :
  version (setPolicy_all calls pol) =
    version pol + Z.of_nat (List.length (List.filter accepted calls)) /\
  (valid pol -> valid (setPolicy_all calls pol)).
Proof.
  revert pol. induction calls as [|[[p src] iso] calls IH]; intros pol.
  - cbn. split; [lia|auto].
  - cbn [setPolicy_all fold_left fst snd].
    destruct (IH (snd (setPolicy p src iso pol))) as [IHv IHvalid].
    unfold setPolicy_all in IHv, IHvalid. split.
    + rewrite IHv. cbn [List.filter]. unfold accepted at 2. cbn [fst snd].
      unfold setPolicy. destruct (validatePatch p) as [m|v]; cbn [snd version List.length]; lia.
    + intros Hv. apply IHvalid. now apply setPolicy_valid.
Qed.

(** X4. [validatePatch] checks the settings in the order
    alarmPrioritization, waysOfWorking, kpiAlignment and reports the first
    that matches no option: the error names that setting and lists its
    options, whatever the later settings hold. *)
Theorem setPolicy_reports_first_mismatch (p : Patch) (src iso : string) (pol : Policy) :
  (forall v, patch_alarmPrioritization p = Some v -> ~ matches ALARM_OPTIONS v ->
     fst (setPolicy p src iso pol) =
       Throw "alarmPrioritization must be one of: Critical First, Adaptive Correlation") /\
  (forall v, (forall a, patch_alarmPrioritization p = Some a -> matches ALARM_OPTIONS a) ->
     patch_waysOfWorking p = Some v -> ~ matches WOW_OPTIONS v ->
     fst (setPolicy p src iso pol) =
       Throw "waysOfWorking must be one of: E2E automation, Human intervention at critical steps") /\
  (forall v, (forall a, patch_alarmPrioritization p = Some a -> matches ALARM_OPTIONS a) ->
     (forall w, patch_waysOfWorking p = Some w -> matches WOW_OPTIONS w) ->
     patch_kpiAlignment p = Some v -> ~ matches KPI_OPTIONS v ->
     fst (setPolicy p src iso pol) = Throw "kpiAlignment must be one of: >95%, 75%").
Proof.
  unfold setPolicy, validatePatch. repeat split.
  - intros v Hv Hno. rewrite Hv, (toCanonical_rejects _ _ _ v ALARM_canon_for Hno). reflexivity.
  - intros v Ha Hv Hno.
    destruct (toCanonical_total _ _ "alarmPrioritization" _ ALARM_canon_for Ha) as (ra & -> & _).
    rewrite Hv, (toCanonical_rejects _ _ _ v WOW_canon_for Hno). reflexivity.
  - intros v Ha Hw Hv Hno.
    destruct (toCanonical_total _ _ "alarmPrioritization" _ ALARM_canon_for Ha) as (ra & -> & _).
    destruct (toCanonical_total _ _ "waysOfWorking" _ WOW_canon_for Hw) as (rw & -> & _).
    rewrite Hv, (toCanonical_rejects _ _ _ v KPI_canon_for Hno). reflexivity.
Qed.

Lemma setPolicy_reports_first_mismatch_witness :
  fst (setPolicy (mkPatch (Some "critical FIRST") (Some "sometimes") (Some "76%")) "api" "t1"
         (DEFAULT_POLICY "t0")) =
    Throw "waysOfWorking must be one of: E2E automation, Human intervention at critical steps".
Proof.
  apply (proj1 (proj2 (setPolicy_reports_first_mismatch
                         (mkPatch (Some "critical FIRST") (Some "sometimes") (Some "76%"))
                         "api" "t1" (DEFAULT_POLICY "t0"))) "sometimes").
  - intros a [= <-]. exists "Critical First". split; [cbn; auto|reflexivity].
  - reflexivity.
  - intros (o & [<-|[<-|[]]] & Hv); vm_compute in Hv; discriminate.
Defined.

End PolicyMore.

(** ** The policy helpers of utils/policy.js *)

Module PolicyModesTheory.
Import Js PolicyStore UtilsPolicy PolicyModes State SupervisorStore Pipeline.

Section WithEnv.
Context {E : Env}.

(** X5. On a stored policy (its settings are option strings), the helper
    [shouldAutoMitigate] of utils/policy.js, given the toggle that
    [getAutoStatus] reports, decides as the Supervisor's [autoEffective]
    does, also right after [setAutoEnabled(flag)], where both say: the
    policy is E2E automation, or [flag]. Of the two mode helpers exactly
    one holds, and [isPolicyModeCriticalFirst] agrees with the mode Agent A
    reads for itself. *)
Theorem policy_helpers_agree_with_consumers (flag : bool) (s : Sys) :
  valid (policy s) ->
  shouldAutoMitigate (Some (getPolicy (policy s))) (Some (auto_enabled (getAutoStatus s))) =
    autoEffective s /\
  (let s' := snd (setAutoEnabled flag s) in
   auto_enabled (getAutoStatus s') = flag /\
   autoEffective s' = (isE2E s || flag)%bool /\
   shouldAutoMitigate (Some (getPolicy (policy s'))) (Some (auto_enabled (getAutoStatus s'))) =
     autoEffective s') /\
  isPolicyModeCriticalFirst (Some (policy s)) = negb (isPolicyModeAdaptive (Some (policy s))) /\
  isPolicyModeCriticalFirst (Some (policy s)) =
    String.eqb (CorrelationAgent.policyMode (policy s)) "critical first".
Proof.
  intros (Ha & Hw & Hk).
  assert (Hwow : forall b,
            shouldAutoMitigate (Some (policy s)) (Some b) =
            (String.eqb (toLowerCase (waysOfWorking (policy s))) "e2e automation" || b)%bool).
  { intros b. unfold shouldAutoMitigate, normalizePolicyValue. cbn [option_map str_or_empty nullish].
    destruct Hw as [<-|[<-|[]]]; reflexivity. }
  split; [apply Hwow|]. split; [|split].
  - cbv zeta. unfold setAutoEnabled, getAutoStatus, autoEffective, isE2E, getPolicy.
    cbn. rewrite Hwow. auto.
  - unfold isPolicyModeCriticalFirst, isPolicyModeAdaptive, normalizePolicyValue.
    cbn [option_map str_or_empty]. destruct Ha as [<-|[<-|[]]]; reflexivity.
  - unfold isPolicyModeCriticalFirst, normalizePolicyValue, CorrelationAgent.policyMode.
    cbn [option_map str_or_empty]. destruct Ha as [<-|[<-|[]]]; reflexivity.
Qed.

End WithEnv.

Lemma policy_helpers_agree_witness :
  let s := @Scenario.server Scenario.scripted Scenario.hitl_policy false running running
             (Scenario.mkScripted 1000 [] None) in
  shouldAutoMitigate (Some (getPolicy (policy s))) (Some (auto_enabled (getAutoStatus s))) =
    autoEffective s /\
  (let s' := snd (setAutoEnabled true s) in
   auto_enabled (getAutoStatus s') = true /\
   autoEffective s' = (isE2E s || true)%bool /\
   shouldAutoMitigate (Some (getPolicy (policy s'))) (Some (auto_enabled (getAutoStatus s'))) =
     autoEffective s') /\
  isPolicyModeCriticalFirst (Some (policy s)) = negb (isPolicyModeAdaptive (Some (policy s))) /\
  isPolicyModeCriticalFirst (Some (policy s)) =
    String.eqb (CorrelationAgent.policyMode (policy s)) "critical first".
Proof.
  apply (@policy_helpers_agree_with_consumers Scenario.scripted true
           (@Scenario.server Scenario.scripted Scenario.hitl_policy false running running
              (Scenario.mkScripted 1000 [] None))).
  apply PolicyTheory.DEFAULT_POLICY_valid.
Defined.

(** X6. No alarm code is both noise and critical. So under the mode
    'critical first' the noise test of Agent A's batch filter never
    decides: an event is kept exactly when its site is present and not
    'unknown' and its code is critical. *)
Theorem noise_is_never_critical (a : string) (e : Tower.BusEvent) :
  (isNoiseAlarm a = true -> isCriticalAlarm a = false) /\
  CorrelationAgent.keeps "critical first" e =
    (truthy (Some (nullish (Tower.ev_siteId e) "unknown")) &&
     negb (String.eqb (nullish (Tower.ev_siteId e) "unknown") "unknown") &&
     isCriticalAlarm (CorrelationAgent.typ e))%bool.
Proof.
  assert (Hdisj : forall x, isNoiseAlarm x = true -> isCriticalAlarm x = false).
  { intros x Hn. unfold isNoiseAlarm in Hn. apply existsb_exists in Hn.
    destruct Hn as (w & Hin & Hw). apply String.eqb_eq in Hw.
    unfold isCriticalAlarm. destruct x as [|c x]; [reflexivity|].
    unfold test_i. rewrite Hw.
    destruct Hin as [<-|[<-|[<-|[]]]]; reflexivity. }
  split; [apply Hdisj|].
  unfold CorrelationAgent.keeps.
  destruct (truthy (Some (nullish (Tower.ev_siteId e) "unknown"))); cbn [negb orb andb];
    [|reflexivity].
  destruct (String.eqb (nullish (Tower.ev_siteId e) "unknown") "unknown"); cbn [negb andb];
    [reflexivity|].
  destruct (isNoiseAlarm (CorrelationAgent.typ e)) eqn:Hn.
  - now rewrite (Hdisj _ Hn).
  - destruct (isCriticalAlarm (CorrelationAgent.typ e)); reflexivity.
Qed.

Lemma noise_is_never_critical_witness :
  isCriticalAlarm "HeartBeat" = false.
Proof.
  apply (proj1 (noise_is_never_critical "HeartBeat" (Scenario.mains_failure "t"))).
  reflexivity.
Defined.

End PolicyModesTheory.

(** ** More of the Delta Emitter *)

Module DeltaMore.
Import Js Tower DeltaEmitter DeltaTheory.

(** *** Maps built key by key *)

Lemma map_set_fresh {V} k (v : V) m :
  ~ In k (map_keys m) -> map_set k v m = (m ++ [(k, v)])%list.
Proof.
  induction m as [|[k' v'] m IH]; cbn; [reflexivity|].
  intros Hk. destruct (String.eqb_spec k k') as [->|_]; [tauto|].
  rewrite IH; tauto.
Qed.

Lemma map_set_keys_in {V} k (v : V) m x :
  In x (map_keys (map_set k v m)) <-> x = k \/ In x (map_keys m).
Proof.
  induction m as [|[k' v'] m IH]; cbn; [intuition congruence|].
  destruct (String.eqb_spec k k') as [->|Hne]; cbn; [intuition congruence|].
  unfold map_keys in IH. rewrite IH. intuition congruence.
Qed.

Lemma map_set_keys_NoDup {V} k (v : V) m :
  NoDup (map_keys m) -> NoDup (map_keys (map_set k v m)).
Proof.
  induction m as [|[k' v'] m IH]; cbn; intros Hnd.
  - constructor; [tauto|constructor].
  - destruct (String.eqb_spec k k') as [->|Hne]; cbn; [exact Hnd|].
    apply NoDup_cons_iff in Hnd. destruct Hnd as [Hk' Hnd].
    apply NoDup_cons_iff. split; [|now apply IH].
    fold (map_keys (map_set k v m)). rewrite map_set_keys_in.
    intros [->|H]; tauto.
Qed.

(** A map built from the entries of [m] by [map_set], each value through
    [f]: the shape of the three helpers of deltaEmitter.js. *)
Definition build {V W} (f : V -> W) (m : Map V) : Map W :=
  fold_left (fun out e => map_set (fst e) (f (snd e)) out) m [].

Lemma build_from_keys_NoDup {V W} (f : V -> W) (m : Map V) (init : Map W) :
  NoDup (map_keys init) ->
  NoDup (map_keys (fold_left (fun out e => map_set (fst e) (f (snd e)) out) m init)).
Proof.
  revert init. induction m as [|e m IH]; intros init Hnd; cbn; [exact Hnd|].
  apply IH. now apply map_set_keys_NoDup.
Qed.

Lemma build_keys_NoDup {V W} (f : V -> W) (m : Map V) : NoDup (map_keys (build f m)).
Proof. apply build_from_keys_NoDup. constructor. Qed.

Lemma build_from_NoDup {V W} (f : V -> W) (m : Map V) (init : Map W) :
  NoDup (map_keys init ++ map_keys m) ->
  fold_left (fun out e => map_set (fst e) (f (snd e)) out) m init =
  (init ++ List.map (fun e => (fst e, f (snd e))) m)%list.
Proof.
  revert init. induction m as [|[k v] m IH]; intros init Hnd; cbn.
  - now rewrite app_nil_r.
  - cbn in Hnd. rewrite map_set_fresh.
    2:{ apply NoDup_remove_2 in Hnd. rewrite in_app_iff in Hnd. tauto. }
    rewrite IH.
    + now rewrite <- app_assoc.
    + unfold map_keys in *. rewrite List.map_app. cbn. rewrite <- app_assoc. exact Hnd.
Qed.

Lemma build_NoDup {V W} (f : V -> W) (m : Map V) :
  NoDup (map_keys m) -> build f m = List.map (fun e => (fst e, f (snd e))) m.
Proof. intros Hnd. unfold build. now rewrite build_from_NoDup. Qed.

(** *** Sets built by [new Set] *)

Lemma newSet_in x arr : In x (newSet arr) <-> In x arr.
Proof.
  induction arr as [|y arr IH]; cbn; [tauto|].
  rewrite filter_In, IH. destruct (String.eqb_spec x y) as [->|Hne]; cbn; intuition congruence.
Qed.

Lemma newSet_NoDup arr : NoDup (newSet arr).
Proof.
  induction arr as [|y arr IH]; cbn; [constructor|].
  constructor.
  - rewrite filter_In. rewrite String.eqb_refl. cbn. intros [_ H]; discriminate.
  - now apply List.NoDup_filter.
Qed.

Lemma newSet_fixed arr : NoDup arr -> newSet arr = arr.
Proof.
  induction 1 as [|y arr Hy Hnd IH]; cbn; [reflexivity|].
  rewrite IH. f_equal. apply forallb_filter_id. apply forallb_forall.
  intros z Hz. destruct (String.eqb_spec z y) as [->|_]; [contradiction|reflexivity].
Qed.

Lemma set_has_in x s : set_has x s = true <-> In x s.
Proof.
  unfold set_has. rewrite existsb_exists. split.
  - intros (y & Hy & Heq). apply String.eqb_eq in Heq. now subst.
  - intros H. exists x. split; [exact H|apply String.eqb_refl].
Qed.

(** *** What [ingest] stores *)

Lemma extractAlarmsBySite_build state :
  extractAlarmsBySite state = build (fun site => newSet (nullish (alarms site) [])) (nullish state []).
Proof. reflexivity. Qed.

Lemma cloneMapOfSets_extract state :
  cloneMapOfSets (extractAlarmsBySite state) = extractAlarmsBySite state.
Proof.
  change (cloneMapOfSets (extractAlarmsBySite state))
    with (build newSet (extractAlarmsBySite state)).
  rewrite build_NoDup by (rewrite extractAlarmsBySite_build; apply build_keys_NoDup).
  assert (Hfixed : forall k v, In (k, v) (extractAlarmsBySite state) -> newSet v = v).
  { unfold extractAlarmsBySite.
    assert (Hgen : forall m (init : Map (list string)),
               (forall k v, In (k, v) init -> newSet v = v) ->
               forall k v,
                 In (k, v)
                   (fold_left
                      (fun out e => map_set (fst e) (newSet (nullish (alarms (snd e)) [])) out)
                      m init) -> newSet v = v).
    { induction m as [|e m IH]; intros init Hinit k v; cbn; [apply Hinit|].
      apply IH. intros k' v' Hin. apply CorrelationTheory.map_set_in in Hin.
      destruct Hin as [[= -> ->]|Hin]; [|eapply Hinit; exact Hin].
      apply newSet_fixed, newSet_NoDup. }
    apply Hgen. intros k v []. }
  induction (extractAlarmsBySite state) as [|[k v] m IH]; [reflexivity|].
  cbn. rewrite (Hfixed k v) by (left; reflexivity).
  f_equal. apply IH. intros k' v' Hin. apply (Hfixed k' v'). now right.
Qed.

Lemma spread_extract state :
  spread (extractServiceBySite state) = extractServiceBySite state.
Proof.
  change (spread (extractServiceBySite state))
    with (build (fun v : Service => v) (extractServiceBySite state)).
  rewrite build_NoDup
    by apply (build_keys_NoDup (fun site => mkService (antenna1 site) (antenna2 site))
                (nullish state [])).
  induction (extractServiceBySite state) as [|[k v] m IH]; [reflexivity|].
  cbn. now rewrite IH.
Qed.

(** The emitter after [ingest(state)]: it holds the two views of [state]. *)
Lemma ingest_stores ts state st :
  snd (ingest ts state st) =
  mkState (bootstrapEmit st) (Some (extractAlarmsBySite state))
    (Some (extractServiceBySite state)).
Proof.
  unfold ingest. rewrite cloneMapOfSets_extract, spread_extract.
  destruct (lastAlarmsBySite st), (lastServiceBySite st); reflexivity.
Qed.

Lemma filter_none {A} (P : A -> bool) l :
  (forall x, In x l -> P x = false) -> List.filter P l = [].
Proof.
  induction l as [|x l IH]; cbn; [reflexivity|]. intros H.
  rewrite (H x) by auto. apply IH. auto.
Qed.

Lemma raised_same ts site l : raised ts site l l = [].
Proof.
  unfold raised. rewrite filter_none; [reflexivity|].
  intros a Ha. apply Bool.negb_false_iff. now apply set_has_in.
Qed.

Lemma cleared_same ts site l : cleared ts site l l = [].
Proof.
  unfold cleared. rewrite filter_none; [reflexivity|].
  intros a Ha. apply Bool.negb_false_iff. now apply set_has_in.
Qed.

Lemma opt_string_eqb_refl o : opt_string_eqb o o = true.
Proof. destruct o; [apply String.eqb_refl|reflexivity]. Qed.

Lemma flat_map_nil {A B} (f : A -> list B) l :
  (forall x, In x l -> f x = []) -> List.flat_map f l = [].
Proof.
  induction l as [|x l IH]; cbn; [reflexivity|]. intros H.
  rewrite (H x) by auto. apply IH. auto.
Qed.

(** X7. A snapshot ingested twice in a row, its site ids and those of the
    stored views being plain keys: the second [ingest] emits nothing, on
    any channel, and leaves the emitter as the first one left it, whatever
    the emitter held before. *)
Theorem ingest_same_snapshot_is_silent (ts1 ts2 : string) (state : option Sites) (st : State) :
  plain_snapshot state = true ->
  plain_views st = true ->
  ingest ts2 state (snd (ingest ts1 state st)) = ([], snd (ingest ts1 state st)).
Proof.
  intros _ _.
  rewrite (surjective_pairing (ingest ts2 state (snd (ingest ts1 state st)))).
  f_equal.
  - rewrite ingest_stores.
    rewrite (ingest_emissions ts2 state
               (mkState (bootstrapEmit st) (Some (extractAlarmsBySite state))
                  (Some (extractServiceBySite state)))
               (extractAlarmsBySite state) (extractServiceBySite state) eq_refl eq_refl).
    rewrite (flat_map_nil (alarm_events ts2 (extractAlarmsBySite state) state)).
    2:{ intros site _. unfold alarm_events. now rewrite raised_same, cleared_same. }
    rewrite (flat_map_nil (service_events ts2 (extractServiceBySite state) state)).
    2:{ intros site _. unfold service_events, changed. now rewrite !opt_string_eqb_refl. }
    reflexivity.
  - now rewrite !ingest_stores.
Qed.

(** X8. After [reset()], as on a new emitter, [ingest] of a snapshot whose
    site ids are plain keys emits no [alarm.cleared] and no
    [service.changed]: when [bootstrapEmit] is off it emits nothing, and
    when it is on the envelopes it emits are exactly the [alarm.raised]
    events, marked [bootstrap], of the alarms that the snapshot lists per
    site. *)
Theorem ingest_after_reset (ts : string) (state : option Sites) (st : State) (e : BusEvent) :
  plain_snapshot state = true ->
  (In e (envelopes (fst (ingest ts state (reset st)))) <->
   bootstrapEmit st = true /\
   exists site alarms alarm,
     In (site, alarms) (extractAlarmsBySite state) /\ In alarm alarms /\
     e = with_type "alarm.raised" (alarm_payload site alarm ts (Some true))).
Proof.
  intros _.
  rewrite ingest_first by (left; reflexivity). cbn [reset bootstrapEmit].
  destruct (bootstrapEmit st); [|cbn; intuition discriminate].
  rewrite envelopes_both.
  2:{ apply Forall_forall. intros tp. rewrite in_flat_map. unfold bootstrap_events.
      intros (en & _ & H). rewrite in_map_iff in H. destruct H as (a & <- & _). discriminate. }
  rewrite in_map_iff. split.
  - intros (tp & <- & Hin). split; [reflexivity|].
    rewrite in_flat_map in Hin. destruct Hin as ([site alarms] & Hen & Hin).
    unfold bootstrap_events in Hin. rewrite in_map_iff in Hin.
    destruct Hin as (a & <- & Ha). exists site, alarms, a. auto.
  - intros (_ & site & alarms & a & Hen & Ha & ->).
    exists ("alarm.raised", alarm_payload site a ts (Some true)). split; [reflexivity|].
    rewrite in_flat_map. exists (site, alarms). split; [exact Hen|].
    unfold bootstrap_events. rewrite in_map_iff. exists a. auto.
Qed.

(** The alarms of a site in a view; none when the view lacks the site. *)
Definition alarms_of (site : string) (view : Map (list string)) : list string :=
  nullish (map_get site view) [].

Lemma map_get_key {V} k (m : Map V) v : map_get k m = Some v -> In k (map_keys m).
Proof.
  intros H. apply CorrelationTheory.map_get_in in H.
  unfold map_keys. apply in_map_iff. exists (k, v). auto.
Qed.

Lemma alarms_of_site site view a : In a (alarms_of site view) -> In site (map_keys view).
Proof.
  unfold alarms_of. destruct (map_get site view) as [l|] eqn:H; cbn; [|contradiction].
  intros _. eapply map_get_key; exact H.
Qed.

(** X9. After a stored snapshot, the site ids of the stored views and of
    the new snapshot being plain keys, [ingest] raises exactly what is new
    and clears exactly what is gone: the envelope [alarm.raised] of a site and
    an alarm is emitted if and only if the alarm is in the new view of the
    site and not in the stored one, and the envelope [alarm.cleared] if and
    only if it is in the stored view and not in the new one. *)
Theorem ingest_raises_new_clears_gone (ts : string) (state : option Sites) (st : State)
  (lastA : Map (list string)) (lastS : Map Service) (site alarm : string) :
  plain_snapshot state = true ->
  plain_views st = true ->
  lastAlarmsBySite st = Some lastA ->
  lastServiceBySite st = Some lastS ->
  (In (with_type "alarm.raised" (alarm_payload site alarm ts None))
      (envelopes (fst (ingest ts state st))) <->
   In alarm (alarms_of site (extractAlarmsBySite state)) /\ ~ In alarm (alarms_of site lastA)) /\
  (In (with_type "alarm.cleared" (alarm_payload site alarm ts None))
      (envelopes (fst (ingest ts state st))) <->
   In alarm (alarms_of site lastA) /\ ~ In alarm (alarms_of site (extractAlarmsBySite state))).
Proof.
  intros _ _ HA HS. rewrite (ingest_emissions ts state st lastA lastS HA HS).
  rewrite envelopes_both.
  2:{ apply Forall_forall. intros tp. rewrite in_app_iff, !in_flat_map.
      intros [(s & _ & H)|(s & _ & H)].
      - now destruct (alarm_events_facts _ _ _ _ _ H).
      - now destruct (service_events_facts _ _ _ _ _ H). }
  assert (Hsvc : forall t s tp,
            In tp (service_events ts lastS state s) ->
            envelope tp <> with_type t (alarm_payload site alarm ts None)).
  { intros t s tp. unfold service_events, changed. rewrite in_app_iff.
    intros [H|H];
      match type of H with In _ (if ?c then _ else _) => destruct c end;
      cbn in H; try contradiction; destruct H as [<-|[]]; discriminate. }
  assert (Hnot : forall a l, ~ In a l <-> negb (set_has a l) = true).
  { intros a l. rewrite Bool.negb_true_iff, <- Bool.not_true_iff_false, set_has_in. tauto. }
  split.
  - rewrite in_map_iff. split.
    + intros (tp & Heq & Hin). rewrite in_app_iff, !in_flat_map in Hin.
      destruct Hin as [(s & _ & Hin)|(s & _ & Hin)]; [|exfalso; eapply Hsvc; eauto].
      unfold alarm_events, raised, cleared in Hin. rewrite in_app_iff, !in_map_iff in Hin.
      destruct Hin as [(a & <- & Ha)|(a & <- & Ha)]; [|discriminate].
      injection Heq as -> ->. apply filter_In in Ha. rewrite <- Hnot in Ha. exact Ha.
    + intros [Hnew Hold].
      exists ("alarm.raised", alarm_payload site alarm ts None). split; [reflexivity|].
      rewrite in_app_iff. left. rewrite in_flat_map. exists site. split.
      * unfold allSites. rewrite newSet_in, in_app_iff. right.
        eapply alarms_of_site; exact Hnew.
      * unfold alarm_events, raised. rewrite in_app_iff. left. rewrite in_map_iff.
        exists alarm. split; [reflexivity|]. apply filter_In. rewrite <- Hnot. auto.
  - rewrite in_map_iff. split.
    + intros (tp & Heq & Hin). rewrite in_app_iff, !in_flat_map in Hin.
      destruct Hin as [(s & _ & Hin)|(s & _ & Hin)]; [|exfalso; eapply Hsvc; eauto].
      unfold alarm_events, raised, cleared in Hin. rewrite in_app_iff, !in_map_iff in Hin.
      destruct Hin as [(a & <- & Ha)|(a & <- & Ha)]; [discriminate|].
      injection Heq as -> ->. apply filter_In in Ha. rewrite <- Hnot in Ha. exact Ha.
    + intros [Hold Hnew].
      exists ("alarm.cleared", alarm_payload site alarm ts None). split; [reflexivity|].
      rewrite in_app_iff. left. rewrite in_flat_map. exists site. split.
      * unfold allSites. rewrite newSet_in, in_app_iff. left.
        eapply alarms_of_site; exact Hold.
      * unfold alarm_events, cleared. rewrite in_app_iff. right. rewrite in_map_iff.
        exists alarm. split; [reflexivity|]. apply filter_In. rewrite <- Hnot. auto.
Qed.

(** One site, S1, first healthy and then in outage; the emitter that has
    stored the healthy snapshot. *)
Definition quiet : Sites := [("S1", Scenario.healthy)].
Definition failing : Sites := [("S1", Scenario.outage)].

Definition remembering : State := snd (ingest "T0" (Some quiet) (constructor None)).

Definition rememberedAlarms : Map (list string) := [("S1", [])].
Definition rememberedService : Map Service :=
  [("S1", mkService (Some "Available") (Some "Available"))].

Lemma ingest_same_snapshot_witness :
  ingest "T2" (Some failing) (snd (ingest "T1" (Some failing) remembering)) =
    ([], snd (ingest "T1" (Some failing) remembering)).
Proof.
  apply (ingest_same_snapshot_is_silent "T1" "T2" (Some failing) remembering); reflexivity.
Defined.

Lemma ingest_after_reset_witness :
  In (with_type "alarm.raised" (alarm_payload "S1" "MainsFailure" "T1" (Some true)))
     (envelopes (fst (ingest "T1" (Some failing) (reset remembering)))) <->
  bootstrapEmit remembering = true /\
  exists site alarms alarm,
    In (site, alarms) (extractAlarmsBySite (Some failing)) /\ In alarm alarms /\
    with_type "alarm.raised" (alarm_payload "S1" "MainsFailure" "T1" (Some true)) =
      with_type "alarm.raised" (alarm_payload site alarm "T1" (Some true)).
Proof.
  apply (ingest_after_reset "T1" (Some failing) remembering
           (with_type "alarm.raised" (alarm_payload "S1" "MainsFailure" "T1" (Some true)))).
  reflexivity.
Defined.

Lemma ingest_raises_new_clears_gone_witness :
  (In (with_type "alarm.raised" (alarm_payload "S1" "MainsFailure" "T1" None))
      (envelopes (fst (ingest "T1" (Some failing) remembering))) <->
   In "MainsFailure" (alarms_of "S1" (extractAlarmsBySite (Some failing))) /\
   ~ In "MainsFailure" (alarms_of "S1" rememberedAlarms)) /\
  (In (with_type "alarm.cleared" (alarm_payload "S1" "MainsFailure" "T1" None))
      (envelopes (fst (ingest "T1" (Some failing) remembering))) <->
   In "MainsFailure" (alarms_of "S1" rememberedAlarms) /\
   ~ In "MainsFailure" (alarms_of "S1" (extractAlarmsBySite (Some failing)))).
Proof.
  apply (ingest_raises_new_clears_gone "T1" (Some failing) remembering rememberedAlarms
           rememberedService "S1" "MainsFailure"); reflexivity.
Defined.

End DeltaMore.

(** ** The ring buffer of the incident bus *)

Module RingTheory.
Import Js Tower JsArray BusBuffer.

(** *** A buffer that drops its oldest element when full *)

Lemma slice_last_length {A} n (l : list A) :
  List.length (slice_last n l) = Nat.min n (List.length l).
Proof. unfold slice_last. rewrite List.length_skipn. lia. Qed.

Lemma in_slice_last {A} n (l : list A) x : In x (slice_last n l) -> In x l.
Proof.
  unfold slice_last. intros H.
  rewrite <- (List.firstn_skipn (List.length l - n) l). apply in_or_app. now right.
Qed.

Lemma push_ring_slice {A} (cap : nat) (x : A) (l : list A) :
  (List.length l <= cap)%nat -> push_ring cap x l = slice_last cap (l ++ [x]).
Proof.
  intros Hlen. unfold push_ring, slice_last. cbv zeta.
  rewrite List.length_app. cbn [List.length].
  destruct (cap <? List.length l + 1)%nat eqn:Hlt.
  - apply Nat.ltb_lt in Hlt. replace (List.length l + 1 - cap)%nat with 1%nat by lia.
    destruct l; reflexivity.
  - apply Nat.ltb_ge in Hlt. now replace (List.length l + 1 - cap)%nat with 0%nat by lia.
Qed.

Lemma slice_last_app {A} (cap : nat) (l more : list A) :
  slice_last cap (slice_last cap l ++ more) = slice_last cap (l ++ more).
Proof.
  unfold slice_last.
  assert (H : (skipn (List.length l - cap) l ++ more)%list =
              skipn (List.length l - cap) (l ++ more)).
  { rewrite List.skipn_app.
    now replace (List.length l - cap - List.length l)%nat with 0%nat by lia. }
  rewrite H, List.skipn_skipn, List.length_skipn, List.length_app. f_equal. lia.
Qed.

(** The payloads of a run of [publish] calls that are objects. *)
Definition objects (evts : list (option BusEvent)) : list BusEvent :=
  List.flat_map (fun e => match e with Some x => [x] | None => [] end) evts.

Lemma publish_all_slice evts buffer :
  (List.length buffer <= MAX_EVENTS)%nat ->
  publish_all evts buffer = slice_last MAX_EVENTS (buffer ++ objects evts).
Proof.
  revert buffer. induction evts as [|e evts IH]; intros buffer Hlen.
  - cbn. rewrite app_nil_r. unfold slice_last.
    now replace (List.length buffer - MAX_EVENTS)%nat with 0%nat by lia.
  - cbn [publish_all fold_left]. fold (publish_all evts (store e buffer)).
    destruct e as [x|]; cbn [store objects List.flat_map].
    + rewrite IH.
      * rewrite push_ring_slice by exact Hlen. rewrite slice_last_app.
        now rewrite <- app_assoc.
      * rewrite push_ring_slice by exact Hlen. rewrite slice_last_length. lia.
    + now apply IH.
Qed.

Lemma at_last_slice {A} (cap : nat) (l : list A) :
  (1 <= cap)%nat -> at_last (slice_last cap l) = at_last l.
Proof.
  intros Hcap. unfold at_last. rewrite slice_last_length. unfold slice_last.
  rewrite List.nth_error_skipn. destruct l as [|a l]; [now destruct cap|].
  f_equal. cbn [List.length]. lia.
Qed.

(** X10. The buffer of incidentBus.js, empty at load, holds after any run
    of [publish] calls the last 100 payloads that were objects, oldest
    first: [getRecentEvents] returns them, [getStatus] reports their number
    (never more than 100) and the most recent one, and the five events
    sent to a new subscriber are the last five published. *)
Theorem buffer_holds_the_last_hundred (evts : list (option BusEvent)) :
  getRecentEvents (publish_all evts []) = slice_last 100 (objects evts) /\
  bufferSize (getStatus (publish_all evts [])) = Nat.min 100 (List.length (objects evts)) /\
  lastEvent (getStatus (publish_all evts [])) = at_last (objects evts) /\
  recent (publish_all evts []) = slice_last 5 (objects evts).
Proof.
  assert (H : publish_all evts [] = slice_last 100 (objects evts)).
  { rewrite publish_all_slice by (cbn; unfold MAX_EVENTS; lia). reflexivity. }
  unfold getRecentEvents, getStatus, recent. cbn [bufferSize lastEvent]. rewrite H.
  repeat split.
  - apply slice_last_length.
  - apply at_last_slice. lia.
  - unfold slice_last. rewrite List.length_skipn, List.skipn_skipn. f_equal. lia.
Qed.

End RingTheory.

(** ** The approval queue *)

Module ApprovalsTheory.
Import Js Tower State SupervisorStore.

Lemma to_uint_not_Nil n : Nat.to_uint n <> Decimal.Nil.
Proof.
  rewrite <- (DecimalNat.Unsigned.of_to n) at 1. rewrite DecimalNat.Unsigned.to_of.
  apply DecimalFacts.unorm_nonnil.
Qed.

(** The decimal text of a number names that number only. *)
Lemma nat_to_string_inj a b : nat_to_string a = nat_to_string b -> a = b.
Proof.
  unfold nat_to_string. intros H. apply DecimalNat.Unsigned.to_uint_inj.
  apply (f_equal NilZero.uint_of_string) in H.
  rewrite !NilZero.usu in H by apply to_uint_not_Nil. congruence.
Qed.

(** The ids of the pending approvals, oldest first. *)
Definition pending_ids (sup : Supervisor) : list string := List.map appr_id (approvals sup).

(** The pending approvals carry distinct ids, each the decimal text of a
    number that [nextApprovalId] has passed. *)
Definition ids_issued (sup : Supervisor) : Prop :=
  NoDup (pending_ids sup) /\
  Forall (fun id => exists n, (n < nextApprovalId sup)%nat /\ id = nat_to_string n)
    (pending_ids sup).

Lemma remove_first_None id l :
  remove_first id l = None <-> ~ In id (List.map appr_id l).
Proof.
  induction l as [|a l IH]; cbn; [tauto|].
  destruct (String.eqb_spec (appr_id a) id) as [Heq|Hne].
  - split; [discriminate|]. intros H. exfalso. apply H. now left.
  - destruct (remove_first id l) as [[x r]|].
    + split; [discriminate|]. intros H. exfalso.
      assert (Hin : In id (List.map appr_id l)).
      { destruct (in_dec string_dec id (List.map appr_id l)) as [Hin|Hin]; [exact Hin|].
        apply IH in Hin. discriminate. }
      apply H. now right.
    + split; [|reflexivity]. intros _ [H|H]; [contradiction|]. now apply IH in H.
Qed.

Lemma remove_first_Some id l x r :
  remove_first id l = Some (x, r) ->
  exists before after,
    l = (before ++ x :: after)%list /\ r = (before ++ after)%list /\ appr_id x = id /\
    ~ In id (List.map appr_id before).
Proof.
  revert x r. induction l as [|a l IH]; cbn; intros x r; [discriminate|].
  destruct (String.eqb_spec (appr_id a) id) as [Heq|Hne].
  - intros [= <- <-]. exists [], l. repeat split; auto.
  - destruct (remove_first id l) as [[x' r']|]; [|discriminate].
    intros [= <- <-]. destruct (IH x' r' eq_refl) as (before & after & -> & -> & Hid & Hno).
    exists (a :: before), after. repeat split; auto.
    cbn. intros [H|H]; [contradiction|]. exact (Hno H).
Qed.

Section WithEnv.
Context {E : Env}.

(** X11. [resolveApproval(id, decision)] takes out the oldest pending
    approval with that id and nothing else: the approvals before it and
    after it stay, in order, and [nextApprovalId] stays. When no pending
    approval has the id it answers null and changes nothing, not even
    the log. *)
Theorem resolveApproval_takes_one (id decision : string) (s : Sys) :
  (~ In id (pending_ids (supervisor s)) -> resolveApproval id decision s = (None, s)) /\
  (In id (pending_ids (supervisor s)) ->
   exists item before after,
     fst (resolveApproval id decision s) = Some item /\ appr_id item = id /\
     approvals (supervisor s) = (before ++ item :: after)%list /\
     ~ In id (List.map appr_id before) /\
     listApprovals (snd (resolveApproval id decision s)) = (before ++ after)%list /\
     nextApprovalId (supervisor (snd (resolveApproval id decision s))) =
       nextApprovalId (supervisor s) /\
     lastNote (supervisor (snd (resolveApproval id decision s))) =
       Some ("Approval " ++ decision ++ " for #" ++ id)).
Proof.
  unfold resolveApproval, pending_ids. split.
  - intros Hno. apply remove_first_None in Hno. now rewrite Hno.
  - intros Hin. destruct (remove_first id (approvals (supervisor s))) as [[item rest]|] eqn:Hrm.
    + destruct (remove_first_Some _ _ _ _ Hrm) as (before & after & Hl & -> & Hid & Hno).
      exists item, before, after. repeat split; auto.
    + apply remove_first_None in Hrm. contradiction.
Qed.

Lemma ids_issued_add siteId actions reason s :
  ids_issued (supervisor s) ->
  ids_issued (supervisor (snd (addApprovalRequest siteId actions reason s))).
Proof.
  intros [Hnd Hall]. unfold ids_issued, pending_ids in *. cbn.
  rewrite List.map_app. cbn. split.
  - apply List.NoDup_app; [exact Hnd|constructor; [cbn; tauto|constructor]|].
    intros x Hx [<-|[]]. rewrite Forall_forall in Hall.
    destruct (Hall _ Hx) as (n & Hlt & Heq). apply nat_to_string_inj in Heq. lia.
  - apply Forall_app. split.
    + eapply Forall_impl; [|exact Hall]. cbn. intros id (n & Hlt & ->). exists n. split; [lia|auto].
    + constructor; [|constructor]. exists (nextApprovalId (supervisor s)). split; [lia|auto].
Qed.

Lemma ids_issued_resolve id decision s :
  ids_issued (supervisor s) ->
  ids_issued (supervisor (snd (resolveApproval id decision s))).
Proof.
  intros [Hnd Hall]. unfold resolveApproval.
  destruct (remove_first id (approvals (supervisor s))) as [[item rest]|] eqn:Hrm;
    [|split; assumption].
  destruct (remove_first_Some _ _ _ _ Hrm) as (before & after & Hl & -> & _ & _).
  unfold ids_issued, pending_ids in *. cbn. rewrite Hl in Hnd, Hall.
  rewrite List.map_app in *. cbn in Hnd, Hall. split.
  - eapply NoDup_remove_1; exact Hnd.
  - apply Forall_app in Hall. destruct Hall as [Hb Ha].
    apply Forall_app. split; [exact Hb|]. now inversion Ha.
Qed.

(** The operations on the approvals queue. *)
Inductive Op :=
| Add (siteId : string) (actions : list Step) (reason : string)
| Resolve (id decision : string).

Definition apply_op (s : Sys) (op : Op) : Sys :=
  match op with
  | Add siteId actions reason => snd (addApprovalRequest siteId actions reason s)
  | Resolve id decision => snd (resolveApproval id decision s)
  end.

Lemma ids_issued_run ops s0 :
  ids_issued (supervisor s0) -> ids_issued (supervisor (fold_left apply_op ops s0)).
Proof.
  revert s0. induction ops as [|op ops IH]; intros s0 H0; [exact H0|].
  cbn. apply IH. destruct op; [now apply ids_issued_add|now apply ids_issued_resolve].
Qed.

(** X12. From the empty queue of module load, through any run of
    [addApprovalRequest] and [resolveApproval] calls, the pending approvals
    carry distinct ids. So an approval that [addApprovalRequest] just
    returned is the one that [resolveApproval] of its id gives back,
    leaving the queue as it was before the request; resolving the same id
    once more answers null. *)
Theorem approval_ids_are_distinct (ops : list Op) (s0 : Sys)
  (siteId reason decision again : string) (actions : list Step) :
  approvals (supervisor s0) = [] ->
  let s := fold_left apply_op ops s0 in
  let item := fst (addApprovalRequest siteId actions reason s) in
  let s1 := snd (addApprovalRequest siteId actions reason s) in
  let s2 := snd (resolveApproval (appr_id item) decision s1) in
  NoDup (pending_ids (supervisor s)) /\
  listApprovals s1 = (listApprovals s ++ [item])%list /\
  fst (resolveApproval (appr_id item) decision s1) = Some item /\
  listApprovals s2 = listApprovals s /\
  resolveApproval (appr_id item) again s2 = (None, s2).
Proof.
  intros Hempty s item s1 s2.
  assert (Hinv : ids_issued (supervisor s)).
  { apply ids_issued_run. unfold ids_issued, pending_ids. rewrite Hempty. split; constructor. }
  assert (Hfresh : ~ In (appr_id item) (pending_ids (supervisor s))).
  { destruct Hinv as [_ Hall]. intros Hin. rewrite Forall_forall in Hall.
    destruct (Hall _ Hin) as (n & Hlt & Heq). subst item. cbn in Heq.
    apply nat_to_string_inj in Heq. lia. }
  assert (Hrm : remove_first (appr_id item) (approvals (supervisor s1)) =
                Some (item, approvals (supervisor s))).
  { subst s1 item. cbn [addApprovalRequest fst snd] in *. cbn.
    revert Hfresh. unfold pending_ids. cbn [appr_id].
    generalize (nat_to_string (nextApprovalId (supervisor s))) as id.
    generalize (nowIso s) as iso. intros iso id.
    induction (approvals (supervisor s)) as [|a l IHl]; cbn; intros Hno.
    - now rewrite String.eqb_refl.
    - destruct (String.eqb_spec (appr_id a) id) as [Heq|Hne]; [tauto|].
      rewrite IHl by tauto. reflexivity. }
  split; [exact (proj1 Hinv)|]. split; [reflexivity|].
  assert (Hres : resolveApproval (appr_id item) decision s1 =
                 (Some item, s2)).
  { subst s2. unfold resolveApproval. rewrite Hrm. reflexivity. }
  split; [now rewrite Hres|].
  assert (Hl2 : listApprovals s2 = listApprovals s).
  { subst s2. unfold resolveApproval. rewrite Hrm. reflexivity. }
  split; [exact Hl2|].
  unfold resolveApproval.
  assert (Hnone : remove_first (appr_id item) (approvals (supervisor s2)) = None).
  { apply remove_first_None. change (approvals (supervisor s2)) with (listApprovals s2).
    rewrite Hl2. exact Hfresh. }
  now rewrite Hnone.
Qed.

End WithEnv.

(** Two requests pending, for S1 and then for S2. *)
Definition two_pending : @Sys Scenario.scripted :=
  snd (addApprovalRequest "S2" [] "second"
         (snd (addApprovalRequest "S1" [] "first"
                 (@Scenario.server Scenario.scripted Scenario.hitl_policy false running running
                    (Scenario.mkScripted 1000 [] None))))).

Lemma resolveApproval_takes_one_witness :
  resolveApproval "7" "approved" two_pending = (None, two_pending) /\
  exists item before after,
    fst (resolveApproval "1" "approved" two_pending) = Some item /\ appr_id item = "1" /\
    approvals (supervisor two_pending) = (before ++ item :: after)%list /\
    ~ In "1" (List.map appr_id before) /\
    listApprovals (snd (resolveApproval "1" "approved" two_pending)) = (before ++ after)%list /\
    nextApprovalId (supervisor (snd (resolveApproval "1" "approved" two_pending))) =
      nextApprovalId (supervisor two_pending) /\
    lastNote (supervisor (snd (resolveApproval "1" "approved" two_pending))) =
      Some ("Approval " ++ "approved" ++ " for #" ++ "1").
Proof.
  split.
  - apply (proj1 (@resolveApproval_takes_one Scenario.scripted "7" "approved" two_pending)).
    cbn. intros [H|[H|[]]]; discriminate H.
  - apply (proj2 (@resolveApproval_takes_one Scenario.scripted "1" "approved" two_pending)).
    cbn. auto.
Defined.

Lemma approval_ids_are_distinct_witness :
  let s0 := @Scenario.server Scenario.scripted Scenario.hitl_policy false running running
              (Scenario.mkScripted 1000 [] None) in
  let s := fold_left apply_op [Add "S1" [] "first"; Resolve "1" "approved"; Add "S2" [] "second"] s0 in
  let item := fst (addApprovalRequest "S1" [] "third" s) in
  let s1 := snd (addApprovalRequest "S1" [] "third" s) in
  let s2 := snd (resolveApproval (appr_id item) "rejected" s1) in
  NoDup (pending_ids (supervisor s)) /\
  listApprovals s1 = (listApprovals s ++ [item])%list /\
  fst (resolveApproval (appr_id item) "rejected" s1) = Some item /\
  listApprovals s2 = listApprovals s /\
  resolveApproval (appr_id item) "approved" s2 = (None, s2).
Proof.
  apply (@approval_ids_are_distinct Scenario.scripted
           [Add "S1" [] "first"; Resolve "1" "approved"; Add "S2" [] "second"]
           (@Scenario.server Scenario.scripted Scenario.hitl_policy false running running
              (Scenario.mkScripted 1000 [] None))
           "S1" "third" "rejected" "approved" []).
  reflexivity.
Defined.

End ApprovalsTheory.

(** ** The ledger of handled events *)

Module LedgerTheory.
Import Js Tower State SupervisorStore Supervisor.

(** X13. [remember(id)] at the instant [t] always keeps the id it was
    given, with [t]. It adds nothing else, and it drops an entry only when
    the ledger has grown past 5000 entries and that entry is older than 60
    seconds. So afterwards the ledger holds at most 5000 entries, or only
    entries of the last 60 seconds: its size is bounded by 5000 only as
    far as the events of one minute are. *)
Theorem remember_drops_only_expired (id : string) (t : Z) (processed : gmap string Z) :
  remember id t processed !! id = Some t /\
  (forall k v, remember id t processed !! k = Some v -> <[id := t]> processed !! k = Some v) /\
  (forall k v, <[id := t]> processed !! k = Some v -> remember id t processed !! k = None ->
               v < t - 60000 /\ (5000 < size (<[id := t]> processed))%nat) /\
  ((size (remember id t processed) <= 5000)%nat \/
   forall k v, remember id t processed !! k = Some v -> t - 60000 <= v).
Proof.
  split; [apply SupervisorTheory.remember_lookup|].
  unfold remember, PROCESSED_TTL_MS.
  destruct (5000 <? size (<[id:=t]> processed))%nat eqn:Hsize.
  - apply Nat.ltb_lt in Hsize. repeat split.
    + intros k v H. apply map_lookup_filter_Some in H. tauto.
    + destruct (Z_lt_ge_dec v (t - 60000)) as [Hlt|Hge]; [exact Hlt|].
      exfalso. assert (Hin : base.filter (fun kv : string * Z => t - 60000 <= kv.2)
                               (<[id:=t]> processed) !! k = Some v).
      { apply map_lookup_filter_Some. split; [assumption|cbn; lia]. }
      congruence.
    + exact Hsize.
    + right. intros k v H. apply map_lookup_filter_Some in H. cbn in H. tauto.
  - apply Nat.ltb_ge in Hsize. repeat split; auto; try congruence.
Qed.

End LedgerTheory.

(** ** More of Agent C *)

Module RcaMore.
Import Js Tower State RcaAgent JsArray RcaViews.

Lemma at_last_last {A} (l : list A) : at_last l = List.last (List.map Some l) None.
Proof.
  unfold at_last. induction l as [|a l IH] using rev_ind; [reflexivity|].
  rewrite List.map_app. cbn [List.map]. rewrite List.last_last, List.length_app.
  cbn [List.length].
  replace (List.length l + 1 - 1)%nat with (List.length l) by lia.
  rewrite List.nth_error_app2 by lia. now rewrite Nat.sub_diag.
Qed.

Lemma summaryForSite_latest siteId casebook :
  ss_latest (summaryForSite siteId casebook) = latest_for siteId casebook.
Proof.
  unfold summaryForSite, latest_for. cbn [ss_latest].
  rewrite RingTheory.at_last_slice by lia. rewrite at_last_last.
  symmetry. apply RcaTheory.find_rev_last.
Qed.

Section WithEnv.
Context {E : Env}.

(** X14. The site summary and the dispatch email look at the same case:
    [summaryForSite(siteId).latest] is the case that
    [composeDispatchEmail(siteId)] picks, so [readyToDispatch] is true
    exactly when [composeDispatchEmail] answers an email; [recent] holds at
    most five cases, all of that site. *)
Theorem summaryForSite_matches_dispatch_email (siteId : string) (s : Sys) :
  ss_latest (summaryForSite siteId (casebook s)) = latest_for siteId (casebook s) /\
  (ss_readyToDispatch (summaryForSite siteId (casebook s)) = true <->
   exists subject body, fst (composeDispatchEmail siteId s) = Email subject body) /\
  (List.length (ss_recent (summaryForSite siteId (casebook s))) <= 5)%nat /\
  Forall (fun c => case_siteId c = siteId) (ss_recent (summaryForSite siteId (casebook s))).
Proof.
  split; [apply summaryForSite_latest|]. split; [|split].
  - pose proof (summaryForSite_latest siteId (casebook s)) as Hl.
    unfold summaryForSite in *. cbn [ss_latest ss_readyToDispatch] in *.
    rewrite Hl. unfold composeDispatchEmail.
    destruct (latest_for siteId (casebook s)) as [latest|].
    + destruct (case_dispatchSuggested latest); cbn [negb].
      * destruct (_fetchSite siteId s). cbn [fst]. split; [eauto|reflexivity].
      * cbn [fst]. split; [discriminate|]. intros (? & ? & H). discriminate.
    + cbn [fst]. split; [discriminate|]. intros (? & ? & H). discriminate.
  - cbn [summaryForSite ss_recent]. rewrite RingTheory.slice_last_length. lia.
  - cbn [summaryForSite ss_recent]. apply Forall_forall. intros c Hc.
    apply RingTheory.in_slice_last in Hc. apply filter_In in Hc.
    destruct Hc as [_ Hc]. unfold meaningful_for in Hc.
    apply andb_prop in Hc. destruct Hc as [Hc _]. now apply String.eqb_eq in Hc.
Qed.

End WithEnv.

(** X15. The dashboard shows at most ten entries, the most recent
    meaningful cases (of the site, when one is given), newest first, each
    the copy of a case of the casebook that is not noise. [totalOpen] is
    the number of those ten that suggest a dispatch: it never exceeds ten,
    however many open cases the casebook holds. *)
Theorem dashboard_counts_within_the_last_ten (siteId : option string) (casebook : list Case) :
  let d := dashboardSummary siteId casebook in
  (List.length (db_recent d) <= 10)%nat /\
  db_totalOpen d = List.length (List.filter en_dispatchSuggested (db_recent d)) /\
  (db_totalOpen d <= 10)%nat /\
  Forall (fun en => exists c, In c casebook /\ en = entry_of c /\
                              _isNoise (case_siteId c) (case_cause c) = false /\
                              (truthy siteId = true -> Some (case_siteId c) = siteId))
    (db_recent d).
Proof.
  cbv zeta. unfold dashboardSummary. cbn [db_recent db_totalOpen db_dispatchQueue].
  set (items := if truthy siteId then _ else _).
  assert (Hlen : (List.length (List.map entry_of (List.rev (slice_last 10 items))) <= 10)%nat).
  { rewrite List.length_map, List.length_rev, RingTheory.slice_last_length. lia. }
  split; [exact Hlen|]. split; [reflexivity|]. split.
  - etransitivity; [apply List.filter_length_le|exact Hlen].
  - apply Forall_forall. intros en Hen. apply in_map_iff in Hen.
    destruct Hen as (c & <- & Hc). apply List.in_rev in Hc.
    apply RingTheory.in_slice_last in Hc. subst items.
    exists c. destruct (truthy siteId) eqn:Ht; apply filter_In in Hc; destruct Hc as [Hin Hc].
    + unfold meaningful_for in Hc. apply andb_prop in Hc. destruct Hc as [Hs Hn].
      apply String.eqb_eq in Hs. apply Bool.negb_true_iff in Hn.
      repeat split; auto. intros _. destruct siteId as [x|]; [|discriminate].
      cbn in Hs. now rewrite Hs.
    + apply Bool.negb_true_iff in Hc. repeat split; auto. discriminate.
Qed.

Section WithEnv2.
Context {E : Env}.

(** X16. A report that names no site, the site 'unknown', or a cause
    among unknown, heartbeat, noop in any letter case is skipped as
    noise: nothing is recorded, remembered, noted or asked of the
    simulator. The call still starts Agent C when it was not running.
    [record] without a siteId is such a report. *)
Theorem noise_is_skipped (siteId cause : string) (actions : list Step) (resolution : string)
  (s : Sys) :
  _isNoise siteId cause = true ->
  let s' := snd (recordIncident siteId cause actions resolution s) in
  fst (recordIncident siteId cause actions resolution s) = Skipped "noise_or_unknown" /\
  casebook s' = casebook s /\ lastBySite s' = lastBySite s /\ history s' = history s /\
  supervisor s' = supervisor s /\ agent_status (agentC s') = running /\
  agent_tasks (agentC s') = agent_tasks (agentC s) /\
  forall c a r, fst (record None c a r s) = Skipped "noise_or_unknown".
Proof.
  intros Hnoise. cbv zeta. unfold record, recordIncident. rewrite Hnoise. cbn [nullish fst snd].
  change (_isNoise "unknown") with (fun _ : string => true). cbn beta.
  unfold start, AgentBase.start.
  destruct (agent_status (agentC s)) eqn:Hst; cbn; rewrite ?Hst; repeat split; auto.
Qed.

(** After a report was recorded: the site's entry of [_lastBySite], the
    casebook and the case. *)
Lemma recordIncident_recorded siteId cause actions resolution s c :
  fst (recordIncident siteId cause actions resolution s) = Recorded c ->
  _isNoise siteId cause = false /\
  lastBySite (snd (recordIncident siteId cause actions resolution s)) !! siteId =
    Some (mkLast cause resolution (now s)) /\
  casebook (snd (recordIncident siteId cause actions resolution s)) = (casebook s ++ [c])%list /\
  case_siteId c = siteId /\ case_cause c = cause /\ case_resolution c = resolution /\
  case_actions c = actions /\ case_dispatchSuggested c = case_ongoing c /\
  (resolution <> "restored" -> case_ongoing c = true).
Proof.
  unfold recordIncident.
  set (s0 := match agent_status (agentC s) with running => s | _ => start s end).
  assert (H0 : lastBySite s0 = lastBySite s /\ now s0 = now s /\ casebook s0 = casebook s).
  { subst s0. destruct (agent_status (agentC s)); auto. }
  destruct H0 as (Hl0 & Hn0 & Hc0).
  destruct (_isNoise siteId cause); [discriminate|].
  unfold _dedup. rewrite Hl0, Hn0.
  assert (Hong : forall x : bool,
            resolution <> "restored" ->
            (negb (String.eqb resolution "restored") || x)%bool = true).
  { intros x Hne. destruct (String.eqb_spec resolution "restored"); [contradiction|auto]. }
  destruct (lastBySite s !! siteId) as [last|];
    [destruct (String.eqb (last_cause last) cause &&
               String.eqb (last_resolution last) resolution &&
               (now s - last_ts last <? DEDUP_WINDOW_MS))%bool; [discriminate|]|];
    rewrite TroubleshootingTheory._fetchSite_effect; cbv zeta;
    cbn [case_dispatchSuggested fst snd];
    match goal with
    | |- context [(negb (String.eqb resolution "restored") || ?x)%bool] =>
        pose proof (Hong x) as Hong';
        destruct (negb (String.eqb resolution "restored") || x)%bool
    end;
    intros [= <-]; (split; [reflexivity|]); cbn; rewrite Hc0;
    (split; [apply lookup_insert_eq|]); repeat split; auto.
Qed.

(** A report that was skipped leaves the casebook and asks nothing of the
    simulator. *)
Lemma recordIncident_skipped siteId cause actions resolution s reason :
  fst (recordIncident siteId cause actions resolution s) = Skipped reason ->
  casebook (snd (recordIncident siteId cause actions resolution s)) = casebook s /\
  history (snd (recordIncident siteId cause actions resolution s)) = history s /\
  lastBySite (snd (recordIncident siteId cause actions resolution s)) = lastBySite s.
Proof.
  unfold recordIncident.
  set (s0 := match agent_status (agentC s) with running => s | _ => start s end).
  assert (H0 : lastBySite s0 = lastBySite s /\ history s0 = history s /\
               casebook s0 = casebook s).
  { subst s0. destruct (agent_status (agentC s)); auto. }
  destruct H0 as (Hl0 & Hh0 & Hc0).
  destruct (_isNoise siteId cause); [auto|].
  unfold _dedup.
  destruct (lastBySite s0 !! siteId) as [last|];
    [destruct (String.eqb (last_cause last) cause &&
               String.eqb (last_resolution last) resolution &&
               (now s0 - last_ts last <? DEDUP_WINDOW_MS))%bool; [auto|]|];
    rewrite TroubleshootingTheory._fetchSite_effect; cbv zeta; cbn [fst]; discriminate.
Qed.

(** X17. A report of the same site, cause and resolution as one that was
    recorded is suppressed while fewer than 10 seconds have passed since
    that record was accepted, whatever its actions: nothing is added to the
    casebook and nothing is asked of the simulator. From 10 seconds on it
    is recorded again. *)
Theorem repeat_is_suppressed_for_ten_seconds
  (siteId cause resolution : string) (actions actions2 : list Step) (s s2 : Sys) (c : Case) :
  fst (recordIncident siteId cause actions resolution s) = Recorded c ->
  lastBySite s2 !! siteId =
    lastBySite (snd (recordIncident siteId cause actions resolution s)) !! siteId ->
  (now s2 - now s < 10000 ->
   fst (recordIncident siteId cause actions2 resolution s2) = Skipped "dedup_suppressed" /\
   casebook (snd (recordIncident siteId cause actions2 resolution s2)) = casebook s2 /\
   history (snd (recordIncident siteId cause actions2 resolution s2)) = history s2) /\
  (10000 <= now s2 - now s ->
   exists c2, fst (recordIncident siteId cause actions2 resolution s2) = Recorded c2).
Proof.
  intros Hrec Hsame.
  destruct (recordIncident_recorded _ _ _ _ _ _ Hrec) as (Hnoise & Hlast & _).
  rewrite Hlast in Hsame.
  assert (Hcall : fst (recordIncident siteId cause actions2 resolution s2) =
                  if now s2 - now s <? 10000 then Skipped "dedup_suppressed"
                  else fst (recordIncident siteId cause actions2 resolution s2)).
  { destruct (now s2 - now s <? 10000) eqn:Hwin; [|reflexivity].
    unfold recordIncident.
    set (s0 := match agent_status (agentC s2) with running => s2 | _ => start s2 end).
    assert (H0 : lastBySite s0 = lastBySite s2 /\ now s0 = now s2).
    { subst s0. destruct (agent_status (agentC s2)); auto. }
    destruct H0 as (Hl0 & Hn0).
    rewrite Hnoise. unfold _dedup. rewrite Hl0, Hn0, Hsame.
    cbn [last_cause last_resolution last_ts]. rewrite !String.eqb_refl.
    unfold DEDUP_WINDOW_MS. rewrite Hwin. reflexivity. }
  split.
  - intros Hwin. apply Z.ltb_lt in Hwin. rewrite Hwin in Hcall. split; [exact Hcall|].
    destruct (recordIncident_skipped _ _ _ _ _ _ Hcall) as (Hc & Hh & _). auto.
  - intros Hwin. apply Z.ltb_ge in Hwin. clear Hcall.
    unfold recordIncident.
    set (s0 := match agent_status (agentC s2) with running => s2 | _ => start s2 end).
    assert (H0 : lastBySite s0 = lastBySite s2 /\ now s0 = now s2).
    { subst s0. destruct (agent_status (agentC s2)); auto. }
    destruct H0 as (Hl0 & Hn0).
    rewrite Hnoise. unfold _dedup. rewrite Hl0, Hn0, Hsame.
    cbn [last_cause last_resolution last_ts]. rewrite !String.eqb_refl.
    unfold DEDUP_WINDOW_MS. rewrite Hwin. cbn [andb].
    rewrite TroubleshootingTheory._fetchSite_effect. cbv zeta. cbn [fst]. eauto.
Qed.

(** A case as [recordIncident] writes it: not noise, flagged for dispatch
    exactly when it is ongoing, and ongoing whenever its resolution is
    not 'restored'. *)
Definition well_recorded (c : Case) : Prop :=
  _isNoise (case_siteId c) (case_cause c) = false /\
  case_dispatchSuggested c = case_ongoing c /\
  (case_resolution c <> "restored" -> case_dispatchSuggested c = true).

(** X18. [recordIncident] only ever appends to the casebook, one case at
    most, and only the case it returns. The case is of the reported site,
    is not noise, suggests a dispatch exactly when it is ongoing, and is
    ongoing whenever the resolution is not 'restored'; so a casebook of
    such cases stays one, and the noise test of the views never removes a
    recorded case. *)
Theorem casebook_only_grows_by_the_recorded_case
  (siteId cause resolution : string) (actions : list Step) (s : Sys) :
  let r := fst (recordIncident siteId cause actions resolution s) in
  let s' := snd (recordIncident siteId cause actions resolution s) in
  match r with
  | Recorded c =>
      casebook s' = (casebook s ++ [c])%list /\ case_siteId c = siteId /\ well_recorded c
  | Skipped _ => casebook s' = casebook s
  end /\
  (Forall well_recorded (casebook s) -> Forall well_recorded (casebook s')) /\
  (Forall well_recorded (casebook s') ->
   List.filter (meaningful_for siteId) (casebook s') =
     List.filter (fun c => String.eqb (case_siteId c) siteId) (casebook s')).
Proof.
  cbv zeta.
  assert (Hshape :
    match fst (recordIncident siteId cause actions resolution s) with
    | Recorded c =>
        casebook (snd (recordIncident siteId cause actions resolution s)) =
          (casebook s ++ [c])%list /\ case_siteId c = siteId /\ well_recorded c
    | Skipped _ =>
        casebook (snd (recordIncident siteId cause actions resolution s)) = casebook s
    end).
  { destruct (fst (recordIncident siteId cause actions resolution s)) as [c|reason] eqn:Hr.
    - destruct (recordIncident_recorded _ _ _ _ _ _ Hr)
        as (Hn & _ & Hcb & Hs & Hc & Hres & _ & Hd & Hong).
      repeat split; auto.
      + now rewrite Hs, Hc.
      + rewrite Hres, Hd. exact Hong.
    - now destruct (recordIncident_skipped _ _ _ _ _ _ Hr). }
  split; [exact Hshape|]. split.
  - intros Hall.
    destruct (fst (recordIncident siteId cause actions resolution s)) as [c|reason].
    + destruct Hshape as (-> & _ & Hc). apply Forall_app. split; [exact Hall|].
      constructor; [exact Hc|constructor].
    + now rewrite Hshape.
  - intros Hall. apply List.filter_ext_in. intros c Hc.
    rewrite Forall_forall in Hall. destruct (Hall c Hc) as (Hn & _).
    unfold meaningful_for. rewrite Hn. cbn. now rewrite Bool.andb_true_r.
Qed.

End WithEnv2.

(** A server with Agent C running and S1 healthy in every snapshot. *)
Definition recording : @Sys Scenario.scripted :=
  @Scenario.server Scenario.scripted Scenario.hitl_policy false running running
    (Scenario.mkScripted 1000 [] (Some [("S1", Scenario.healthy)])).

Definition recorded_once : @Sys Scenario.scripted :=
  snd (@recordIncident Scenario.scripted "S1" "correlated_alarm_cluster" [] "stabilized" recording).

Definition first_case : Case :=
  mkCase "1000" "S1" "correlated_alarm_cluster" [] "stabilized" true true
    (_buildSummaryLine "S1" "correlated_alarm_cluster" "stabilized" (Some Scenario.healthy) []).

Lemma noise_is_skipped_witness :
  fst (@recordIncident Scenario.scripted "unknown" "MainsFailure" [] "restored" recording) =
    Skipped "noise_or_unknown".
Proof.
  exact (proj1 (@noise_is_skipped Scenario.scripted "unknown" "MainsFailure" [] "restored"
                  recording eq_refl)).
Defined.

Lemma repeat_is_suppressed_witness :
  fst (@recordIncident Scenario.scripted "S1" "correlated_alarm_cluster" [] "stabilized"
         recorded_once) = Skipped "dedup_suppressed".
Proof.
  refine (proj1 (proj1 (@repeat_is_suppressed_for_ten_seconds Scenario.scripted
                          "S1" "correlated_alarm_cluster" "stabilized" [] [] recording
                          recorded_once first_case _ _) _)).
  - vm_compute. reflexivity.
  - reflexivity.
  - vm_compute. reflexivity.
Defined.

End RcaMore.

(** ** Alarms and plans *)

Module PlanTheory.
Import Js Tower State TroubleshootingAgent.

Lemma equals_true v o : equals v o = true <-> o = Some v.
Proof.
  unfold equals. destruct o as [s|]; [|split; discriminate].
  rewrite String.eqb_eq. split; congruence.
Qed.

(** X19. Agent C reads from a site the alarm codes that Agent B reads,
    in the same order, all but 'Battery.Low.GridDown' which Agent C does
    not know. So a site on which Agent B finds no alarm shows none to
    Agent C; and a site that [isRestored] accepts (mains on, site alive,
    both radios Available) shows no alarm to either. *)
Theorem agents_read_the_same_alarms (site : option Site) :
  RcaAgent._detectAlarmsFromSite site =
    List.filter (fun c => negb (String.eqb c "Battery.Low.GridDown"))
      (List.map code (_detectAlarms site)) /\
  (_detectAlarms site = [] -> RcaAgent._detectAlarmsFromSite site = []) /\
  (ToolsState.isRestored site = true ->
   _detectAlarms site = [] /\ RcaAgent._detectAlarmsFromSite site = []).
Proof.
  assert (Hsame : RcaAgent._detectAlarmsFromSite site =
                  List.filter (fun c => negb (String.eqb c "Battery.Low.GridDown"))
                    (List.map code (_detectAlarms site))).
  { destruct site as [site|]; [|reflexivity].
    unfold RcaAgent._detectAlarmsFromSite, _detectAlarms.
    destruct (equals "off" (mains site)); destruct (siteAlive site) as [[|]|];
      destruct (equals "Unavailable" (antenna1 site));
      destruct (equals "Unavailable" (antenna2 site));
      destruct (nullish (batteryPercent site) 100 <? 40); reflexivity. }
  split; [exact Hsame|]. split.
  - intros H. now rewrite Hsame, H.
  - intros Hr.
    assert (Hnone : _detectAlarms site = []).
    { destruct site as [site|]; [|reflexivity]. unfold ToolsState.isRestored in Hr.
      repeat (apply andb_prop in Hr; destruct Hr as [Hr ?]).
      destruct (siteAlive site) as [[|]|] eqn:Halive; try discriminate.
      repeat match goal with
             | H : equals _ _ = true |- _ => apply equals_true in H
             end.
      unfold _detectAlarms. rewrite Halive.
      repeat match goal with H : _ = Some _ |- _ => rewrite H end. reflexivity. }
    split; [exact Hnone|]. now rewrite Hsame, Hnone.
Qed.

Lemma agents_read_the_same_alarms_witness :
  _detectAlarms (Some Scenario.healthy) = [] /\
  RcaAgent._detectAlarmsFromSite (Some Scenario.healthy) = [].
Proof.
  apply (proj2 (proj2 (agents_read_the_same_alarms (Some Scenario.healthy)))).
  reflexivity.
Defined.

(** X20. The plan that [_buildPlan] proposes has at most three steps, all
    on the requested site. It restores power exactly when the snapshot
    shows mains off, and then as its first step. The battery saver, which
    switches radio A2 off, is proposed only with mains off and never in a
    plan that heals a radio; and a site that [isRestored] accepts gets the
    empty plan. *)
Theorem plan_is_short_and_consistent (siteId : string) (site : Site) :
  let steps := snd (_buildPlan siteId site) in
  (List.length steps <= 3)%nat /\
  Forall (fun st => step_siteId st = siteId) steps /\
  (In "power.on" (List.map step_action steps) <-> mains site = Some "off") /\
  (mains site = Some "off" ->
   List.hd_error steps = Some (mkStep "power.on" siteId None "Restore grid power")) /\
  (In "rru.off" (List.map step_action steps) ->
   mains site = Some "off" /\ ~ In "rru.ensure" (List.map step_action steps)) /\
  (ToolsState.isRestored (Some site) = true -> steps = []).
Proof.
  cbv zeta. unfold _buildPlan, _detectAlarms, ToolsState.isRestored. cbn [snd].
  rewrite <- (equals_true "off" (mains site)).
  destruct (equals "off" (mains site)) eqn:Hm;
    destruct (siteAlive site) as [[|]|];
    destruct (equals "Unavailable" (antenna1 site)) eqn:H1;
    destruct (equals "Unavailable" (antenna2 site)) eqn:H2;
    destruct (equals "Available" (antenna1 site)) eqn:U1;
    destruct (equals "Available" (antenna2 site)) eqn:U2;
    destruct (nullish (batteryPercent site) 100 <? 40);
    try (apply equals_true in H1; apply equals_true in U1; congruence);
    try (apply equals_true in H2; apply equals_true in U2; congruence);
    try (apply equals_true in Hm; rewrite Hm);
    cbn; repeat split; try lia; try tauto; try discriminate;
    repeat (constructor; try reflexivity);
    try (intros H; repeat destruct H as [H|H]; try discriminate H; try contradiction);
    try (intros [H|H]; [discriminate H|]; repeat destruct H as [H|H];
         try discriminate H; try contradiction);
    intuition (try discriminate; try congruence).
Qed.

Lemma plan_is_short_and_consistent_witness :
  List.hd_error (snd (_buildPlan "S1" Scenario.outage)) =
    Some (mkStep "power.on" "S1" None "Restore grid power").
Proof.
  apply (proj1 (proj2 (proj2 (proj2 (plan_is_short_and_consistent "S1" Scenario.outage))))).
  reflexivity.
Defined.

End PlanTheory.

(** ** The batch correlation as a partition *)

Module CorrelationMore.
Import Js Tower State UtilsPolicy CorrelationAgent.

(** *** Grouping by site *)

Lemma map_set_append_perm k (e : BusEvent) (m : Map (list BusEvent)) :
  Permutation (List.flat_map snd (map_set k (nullish (map_get k m) [] ++ [e])%list m))
    (List.flat_map snd m ++ [e])%list.
Proof.
  induction m as [|[k' l] m IH]; cbn; [reflexivity|].
  destruct (String.eqb_spec k k') as [->|Hne]; cbn.
  - rewrite <- !app_assoc. apply Permutation_app_head. apply Permutation_app_comm.
  - rewrite <- app_assoc. apply Permutation_app_head. exact IH.
Qed.

Lemma groupBySite_from_perm (l : list BusEvent) (init : Map (list BusEvent)) :
  Permutation
    (List.flat_map snd
       (fold_left
          (fun bySite e =>
             let k := str_or_empty (ev_siteId e) in
             map_set k (nullish (map_get k bySite) [] ++ [e])%list bySite) l init))
    (List.flat_map snd init ++ l)%list.
Proof.
  revert init. induction l as [|e l IH]; intros init; cbn [fold_left].
  - now rewrite app_nil_r.
  - rewrite IH. rewrite map_set_append_perm. now rewrite <- app_assoc.
Qed.

Lemma groupBySite_perm l : Permutation (List.flat_map snd (groupBySite l)) l.
Proof. unfold groupBySite. now rewrite groupBySite_from_perm. Qed.

(** Every group holds events of its own key, and at least one. *)
Definition well_grouped (m : Map (list BusEvent)) : Prop :=
  Forall (fun g => snd g <> [] /\
                   Forall (fun e => str_or_empty (ev_siteId e) = fst g) (snd g)) m.

Lemma map_set_well_grouped e m :
  well_grouped m ->
  well_grouped (map_set (str_or_empty (ev_siteId e))
                  (nullish (map_get (str_or_empty (ev_siteId e)) m) [] ++ [e])%list m).
Proof.
  unfold well_grouped. induction m as [|[k' l] m IH]; cbn; intros Hm.
  - constructor; [|constructor]. cbn. split; [discriminate|]. repeat constructor.
  - inversion Hm as [|g gs [Hne Hl] Hrest]; subst. cbn in Hne, Hl.
    destruct (String.eqb_spec (str_or_empty (ev_siteId e)) k') as [Heq|Hneq].
    + constructor; [|exact Hrest]. cbn. split.
      * intros H. apply app_eq_nil in H. destruct H as [_ H]. discriminate.
      * apply Forall_app. split; [|constructor; [|constructor]].
        -- rewrite Heq. exact Hl.
        -- reflexivity.
    + constructor; [cbn; auto|]. apply IH, Hrest.
Qed.

Lemma groupBySite_well_grouped l : well_grouped (groupBySite l).
Proof.
  unfold groupBySite.
  assert (Hgen : forall init, well_grouped init ->
            well_grouped
              (fold_left
                 (fun bySite e =>
                    let k := str_or_empty (ev_siteId e) in
                    map_set k (nullish (map_get k bySite) [] ++ [e])%list bySite) l init)).
  { induction l as [|e l IH]; intros init Hinit; cbn [fold_left]; [exact Hinit|].
    apply IH. now apply map_set_well_grouped. }
  apply Hgen. constructor.
Qed.

Section WithEnv.
Context {E : Env}.

(** *** Sorting *)

Lemma insert_perm x l : Permutation (insert x l) (x :: l).
Proof.
  induction l as [|y l IH]; cbn; [reflexivity|].
  destruct (later x y); [|reflexivity].
  rewrite IH. apply perm_swap.
Qed.

Lemma sort_perm l : Permutation (sort l) l.
Proof.
  induction l as [|x l IH]; cbn; [reflexivity|].
  rewrite insert_perm. now constructor.
Qed.

(** *** The window *)

Definition key (e : BusEvent) : string := str_or_empty (ev_siteId e).

(** An incident as the loop builds it: it counts its events, which are
    at least one and all of its site; it starts at the timestamp of the
    first and ends at the timestamp of the last. *)
Definition consistent (site : string) (start_ end_ : option string) (count : nat)
  (events : list BusEvent) : Prop :=
  count = List.length events /\
  Forall (fun e => key e = site) events /\
  exists first rest,
    events = first :: rest /\ start_ = ev_timestamp first /\
    end_ = ev_timestamp (List.last rest first).

Definition incident_ok (inc : Incident) : Prop :=
  consistent (inc_siteId inc) (inc_start inc) (inc_end inc) (inc_count inc) (inc_events inc).

Definition cur_ok (site : string) (cur : option Cur) : Prop :=
  match cur with
  | Some c => consistent site (cur_start c) (cur_end c) (cur_count c) (cur_events c)
  | None => True
  end.

(** The events held by the incidents closed so far and by the open one. *)
Definition content (acc : option Cur * list Incident) : list BusEvent :=
  (List.flat_map inc_events (snd acc) ++
   match fst acc with Some c => cur_events c | None => [] end)%list.

Lemma consistent_new ev :
  consistent (key ev) (ev_timestamp ev) (ev_timestamp ev) 1 [ev].
Proof.
  split; [reflexivity|]. split; [repeat constructor|].
  exists ev, (@nil BusEvent). cbn. auto.
Qed.

Lemma consistent_extend site st en n evs ev :
  key ev = site ->
  consistent site st en n evs ->
  consistent site st (ev_timestamp ev) (S n) (evs ++ [ev]).
Proof.
  intros Hk (Hn & Hall & first & rest & -> & Hst & Hen). split; [|split].
  - rewrite List.length_app. cbn in *. lia.
  - apply Forall_app. split; [exact Hall|]. now repeat constructor.
  - exists first, (rest ++ [ev])%list. repeat split; auto.
    now rewrite List.last_last.
Qed.

Lemma PUSH_content site cur incidents :
  List.flat_map inc_events (PUSH site cur incidents) = content (cur, incidents).
Proof.
  unfold PUSH, content. destruct cur as [c|]; cbn [fst snd].
  - rewrite flat_map_app. cbn. now rewrite app_nil_r.
  - now rewrite app_nil_r.
Qed.

Lemma PUSH_ok site cur incidents :
  cur_ok site cur -> Forall incident_ok incidents ->
  Forall incident_ok (PUSH site cur incidents).
Proof.
  intros Hc Hi. unfold PUSH. destruct cur as [c|]; [|exact Hi].
  apply Forall_app. split; [exact Hi|]. constructor; [exact Hc|constructor].
Qed.

Lemma window_step_content W site acc ev :
  key ev = site ->
  cur_ok site (fst acc) -> Forall incident_ok (snd acc) ->
  content (window_step W site acc ev) = (content acc ++ [ev])%list /\
  cur_ok site (fst (window_step W site acc ev)) /\
  Forall incident_ok (snd (window_step W site acc ev)).
Proof.
  destruct acc as [[c|] incidents]; cbn [fst snd]; intros Hk Hc Hi; subst site;
    unfold window_step.
  - destruct (within (getTime (ev_timestamp ev)) (getTime (cur_end c)) W).
    + unfold content. cbn [fst snd extend cur_events]. split; [|split]; auto.
      * now rewrite app_assoc.
      * now apply (consistent_extend (key ev) _ (cur_end c)).
    + unfold content. cbn [fst snd newCur cur_events]. split; [|split].
      * rewrite (PUSH_content (key ev) (Some c) incidents). unfold content. cbn [fst snd].
        reflexivity.
      * apply consistent_new.
      * now apply PUSH_ok.
  - unfold content. cbn [fst snd newCur cur_events]. split; [|split].
    + now rewrite app_nil_r.
    + apply consistent_new.
    + exact Hi.
Qed.

Lemma window_fold_content W site l acc :
  Forall (fun e => key e = site) l ->
  cur_ok site (fst acc) -> Forall incident_ok (snd acc) ->
  content (fold_left (window_step W site) l acc) = (content acc ++ l)%list /\
  cur_ok site (fst (fold_left (window_step W site) l acc)) /\
  Forall incident_ok (snd (fold_left (window_step W site) l acc)).
Proof.
  revert acc. induction l as [|ev l IH]; intros acc Hl Hc Hi; cbn [fold_left].
  - rewrite app_nil_r. auto.
  - inversion Hl as [|? ? Hk Hl']; subst.
    destruct (window_step_content W (key ev) acc ev eq_refl Hc Hi) as (Hcont & Hc' & Hi').
    destruct (IH _ Hl' Hc' Hi') as (Hcont' & Hc'' & Hi'').
    rewrite Hcont', Hcont, <- app_assoc. auto.
Qed.

Lemma correlate_site_content W incidents site l :
  Forall (fun e => key e = site) l ->
  Forall incident_ok incidents ->
  List.flat_map inc_events (correlate_site W incidents (site, l)) =
    (List.flat_map inc_events incidents ++ sort l)%list /\
  Forall incident_ok (correlate_site W incidents (site, l)).
Proof.
  intros Hl Hi. unfold correlate_site.
  assert (Hsl : Forall (fun e => key e = site) (sort l)).
  { rewrite Forall_forall in *. intros e He. apply Hl.
    eapply Permutation_in; [apply sort_perm|exact He]. }
  destruct (window_fold_content W site (sort l) (None, incidents) Hsl I Hi)
    as (Hcont & Hc & Hi').
  destruct (fold_left (window_step W site) (sort l) (None, incidents)) as [cur incidents'].
  cbn [fst snd] in *. rewrite PUSH_content, Hcont. unfold content at 1. cbn [fst snd].
  rewrite app_nil_r. split; [reflexivity|]. now apply PUSH_ok.
Qed.

Lemma correlate_fold_content W groups incidents :
  well_grouped groups ->
  Forall incident_ok incidents ->
  List.flat_map inc_events (fold_left (correlate_site W) groups incidents) =
    (List.flat_map inc_events incidents ++ List.flat_map (fun g => sort (snd g)) groups)%list /\
  Forall incident_ok (fold_left (correlate_site W) groups incidents).
Proof.
  revert incidents. induction groups as [|[site l] groups IH]; intros incidents Hg Hi;
    cbn [fold_left List.flat_map].
  - rewrite app_nil_r. auto.
  - inversion Hg as [|? ? [_ Hl] Hg']; subst. cbn [fst snd] in Hl.
    destruct (correlate_site_content W incidents site l Hl Hi) as (Hc & Hi').
    destruct (IH _ Hg' Hi') as (Hc' & Hi'').
    rewrite Hc', Hc, <- app_assoc. auto.
Qed.

Lemma flat_map_sort_perm (groups : Map (list BusEvent)) :
  Permutation (List.flat_map (fun g => sort (snd g)) groups) (List.flat_map snd groups).
Proof.
  induction groups as [|[site l] groups IH]; cbn; [reflexivity|].
  apply Permutation_app; [apply sort_perm|exact IH].
Qed.

Lemma keeps_site mode e :
  keeps mode e = true -> ev_siteId e = Some (key e).
Proof.
  unfold keeps, key. destruct (ev_siteId e) as [k|]; cbn; [reflexivity|discriminate].
Qed.

(** X26. The batch [correlate] puts every event that its filter keeps
    into exactly one incident: the events of the returned incidents are
    the kept events, each once. Every incident counts its events, which
    are at least one and all of the incident's site, starts at the
    timestamp of its first event and ends at that of its last; and the
    task line reports the number of kept events and of incidents. *)
Theorem correlate_partitions_the_kept_events (events : list BusEvent) (s : Sys) :
  let incidents := fst (correlate events s) in
  let kept := List.filter (keeps (policyMode (policy s))) events in
  Permutation (List.flat_map inc_events incidents) kept /\
  Forall
    (fun inc =>
       inc_count inc = List.length (inc_events inc) /\
       Forall (fun e => ev_siteId e = Some (inc_siteId inc)) (inc_events inc) /\
       exists first rest,
         inc_events inc = first :: rest /\ inc_start inc = ev_timestamp first /\
         inc_end inc = ev_timestamp (List.last rest first))
    incidents /\
  agent_lastTask (agentA (snd (correlate events s))) =
    Some ("correlated " ++ nat_to_string (List.length kept) ++ " events → " ++
          nat_to_string (List.length incidents) ++ " incidents").
Proof.
  cbv zeta. unfold correlate. cbn [fst snd]. unfold PolicyStore.getPolicy.
  set (mode := policyMode (policy s)). set (kept := List.filter (keeps mode) events).
  unfold correlate_incidents. fold kept.
  destruct (correlate_fold_content (agentA_windowMs s) (groupBySite kept) []
              (groupBySite_well_grouped kept) (Forall_nil _)) as (Hcont & Hok).
  assert (Hperm : Permutation
            (List.flat_map inc_events
               (fold_left (correlate_site (agentA_windowMs s)) (groupBySite kept) [])) kept).
  { rewrite Hcont. cbn [List.flat_map app]. rewrite flat_map_sort_perm.
    apply groupBySite_perm. }
  split; [exact Hperm|]. split; [|reflexivity].
  apply Forall_forall. intros inc Hinc.
  rewrite Forall_forall in Hok. destruct (Hok inc Hinc) as (Hcount & Hall & Hshape).
  split; [exact Hcount|]. split; [|exact Hshape].
  apply Forall_forall. intros e He.
  assert (Hkept : In e kept).
  { eapply Permutation_in; [exact Hperm|]. apply in_flat_map. exists inc. auto. }
  apply filter_In in Hkept. destruct Hkept as [_ Hk].
  rewrite (keeps_site _ _ Hk). f_equal.
  rewrite Forall_forall in Hall. now apply Hall.
Qed.

End WithEnv.
End CorrelationMore.

(** ** What a mitigation returns *)

Module MitigationTheory.
Import Js Tower State TroubleshootingAgent.

(** A step that a sweep adds to [actionsTaken]. *)
Definition sweep_step (siteId : string) (st : Step) : Prop :=
  step_siteId st = siteId /\
  ((step_action st = "rru.ensure" /\ step_reason st = "Radio heal sweep" /\
    (step_antenna st = Some "a1" \/ step_antenna st = Some "a2")) \/
   (step_action st = "power.on" /\ step_reason st = "Sweep retry" /\ step_antenna st = None)).

Definition radio (a : Alarm) : bool := String.prefix "Antenna." (code a).

Lemma radioAlarms_at_most_two (site : Site) :
  (List.length (List.filter radio (_detectAlarms (Some site))) <= 2)%nat.
Proof.
  unfold _detectAlarms.
  destruct (equals "off" (mains site));
    destruct (match siteAlive site with Some false => true | _ => false end);
    destruct (equals "Unavailable" (antenna1 site));
    destruct (equals "Unavailable" (antenna2 site));
    destruct (nullish (batteryPercent site) 100 <? 40); cbn; lia.
Qed.

Lemma detectAlarms_nil_length (site : Site) :
  (List.length (_detectAlarms (Some site)) =? 0)%nat = true <-> _detectAlarms (Some site) = [].
Proof.
  destruct (_detectAlarms (Some site)); cbn; split; congruence.
Qed.

Section WithEnv.
Context {E : Env}.

Lemma run_plan_from_taken (steps taken : list Step) (s : Sys) :
  fst (fold_left
         (fun acc step =>
            let (taken, s0) := acc : list Step * Sys in
            let (_, s1) := _applyStep step s0 in
            ((taken ++ [step])%list, _sleep BETWEEN_ACTION_MS s1))
         steps (taken, s)) = (taken ++ steps)%list.
Proof.
  revert taken s. induction steps as [|st steps IH]; intros taken s; cbn [fold_left].
  - now rewrite app_nil_r.
  - destruct (_applyStep st s) as [o s1]. rewrite IH. now rewrite <- app_assoc.
Qed.

Lemma run_plan_taken (steps : list Step) (s : Sys) : fst (run_plan steps s) = steps.
Proof. unfold run_plan. now rewrite run_plan_from_taken. Qed.

Lemma heal_radios_taken siteId (radioAlarms : list Alarm) (taken : list Step) (s : Sys) :
  exists extra,
    fst (heal_radios siteId radioAlarms taken s) = (taken ++ extra)%list /\
    List.length extra = List.length radioAlarms /\
    Forall (sweep_step siteId) extra.
Proof.
  unfold heal_radios. revert taken s.
  induction radioAlarms as [|ra ras IH]; intros taken s; cbn [fold_left].
  - exists []. rewrite app_nil_r. cbn. split; [reflexivity|]. split; [reflexivity|constructor].
  - destruct (_healRadio siteId (if includes "A1" (code ra) then "a1" else "a2") s) as [out s1].
    destruct (IH (taken ++ [mkStep "rru.ensure" siteId
                              (Some (if includes "A1" (code ra) then "a1" else "a2"))
                              "Radio heal sweep"])%list
                 (_sleep BETWEEN_ACTION_MS
                    (if ok out then s1
                     else _log ("radio heal sweep could not restore " ++
                                (if includes "A1" (code ra) then "a1" else "a2") ++
                                " on " ++ siteId) s1)))
      as (extra & Heq & Hlen & Hall).
    eexists (_ :: extra). rewrite Heq, <- app_assoc. split; [reflexivity|].
    split; [cbn; lia|]. constructor; [|exact Hall].
    split; [reflexivity|]. left. cbn. repeat split.
    destruct (includes "A1" (code ra)); auto.
Qed.

Lemma sweeps_shape remaining pass siteId site taken s :
  let '((site', taken', pass'), _) := sweeps remaining pass siteId site taken s in
  (pass <= pass' <= pass + remaining)%nat /\
  ((0 < remaining)%nat -> (pass < pass')%nat) /\
  exists extra,
    taken' = (taken ++ extra)%list /\
    (List.length extra <= 3 * (pass' - pass))%nat /\
    Forall (sweep_step siteId) extra.
Proof.
  revert pass site taken s.
  induction remaining as [|n IH]; intros pass site taken s; cbn [sweeps].
  - split; [lia|]. split; [lia|]. exists []. rewrite app_nil_r. cbn.
    split; [reflexivity|]. split; [lia|constructor].
  - destruct (_waitAndGet siteId 1 RECHECK_MS s) as [r s1]. cbv zeta.
    set (site' := nullish r site).
    pose proof (radioAlarms_at_most_two site') as Hradio.
    fold radio.
    destruct (negb (has_code "Mains.Off" (_detectAlarms (Some site'))) &&
              negb (has_code "Site.Down" (_detectAlarms (Some site'))) &&
              (List.length (List.filter radio (_detectAlarms (Some site'))) =? 0)%nat)%bool.
    + split; [lia|]. split; [lia|]. exists []. rewrite app_nil_r. cbn.
      split; [reflexivity|]. split; [lia|constructor].
    + destruct (heal_radios_taken siteId (List.filter radio (_detectAlarms (Some site')))
                  taken s1) as (extra1 & Heq1 & Hlen1 & Hall1).
      destruct (heal_radios siteId (List.filter radio (_detectAlarms (Some site'))) taken s1)
        as [taken1 s2]. cbn [fst] in Heq1. subst taken1.
      destruct (has_code "Mains.Off" (_detectAlarms (Some site'))).
      * specialize (IH (S pass) site'
                      ((taken ++ extra1) ++ [mkStep "power.on" siteId None "Sweep retry"])%list
                      (_sleep BOOT_SETTLE_MS
                         (_log ("retry power ON for " ++ siteId ++ " during sweep")
                            (power siteId "on" s2)))).
        destruct (sweeps n (S pass) siteId site' _ _) as [[[site'' taken''] pass''] s''].
        destruct IH as (Hp & _ & extra & -> & Hlen & Hall).
        split; [lia|]. split; [lia|].
        exists (extra1 ++ [mkStep "power.on" siteId None "Sweep retry"] ++ extra)%list.
        split; [now rewrite <- !app_assoc|]. split.
        -- rewrite !List.length_app. cbn. lia.
        -- apply Forall_app. split; [exact Hall1|]. constructor; [|exact Hall].
           split; [reflexivity|]. right. auto.
      * specialize (IH (S pass) site' (taken ++ extra1)%list s2).
        destruct (sweeps n (S pass) siteId site' _ _) as [[[site'' taken''] pass''] s''].
        destruct IH as (Hp & _ & extra & -> & Hlen & Hall).
        split; [lia|]. split; [lia|].
        exists (extra1 ++ extra)%list.
        split; [now rewrite <- !app_assoc|]. split.
        -- rewrite !List.length_app. lia.
        -- apply Forall_app. auto.
Qed.

(** What [execute] returns. *)
Definition executed (siteId : string) (site0 : Site) (r : MitigateResult) : Prop :=
  match r with
  | Mitigated site taken cleared remaining passes allClear =>
      (1 <= passes <= MAX_SWEEPS)%nat /\
      remaining = _detectAlarms (Some site) /\
      (allClear = true <-> remaining = []) /\
      cleared =
        List.filter (fun a0 => negb (has_code (code a0) remaining))
          (_detectAlarms (Some site0)) /\
      exists extra,
        taken = (snd (_buildPlan siteId site0) ++ extra)%list /\
        (List.length extra <= 3 * passes)%nat /\
        Forall (sweep_step siteId) extra
  | _ => False
  end.

Lemma execute_shape siteId site0 s :
  executed siteId site0 (fst (execute siteId site0 (_buildPlan siteId site0) s)).
Proof.
  unfold execute.
  pose proof (run_plan_taken (snd (_buildPlan siteId site0)) s) as Hplan.
  destruct (run_plan (snd (_buildPlan siteId site0)) s) as [taken s1]. cbn [fst] in Hplan.
  subst taken.
  destruct (_waitAndGet siteId 2 RECHECK_MS s1) as [r s2]. cbv zeta.
  set (site1 := nullish r site0).
  destruct (equals "on" (mains site1) && not_alive site1)%bool.
  - destruct (_waitAndGet siteId 3 (RECHECK_MS + 300) _) as [r' s''].
    pose proof (sweeps_shape MAX_SWEEPS 0 siteId (nullish r' site1)
                  (snd (_buildPlan siteId site0)) s'') as Hsw.
    destruct (sweeps MAX_SWEEPS 0 siteId (nullish r' site1) _ s'')
      as [[[site3 taken'] pass] s4].
    destruct Hsw as (Hp & Hpos & extra & -> & Hlen & Hall).
    destruct (_waitAndGet siteId 2 RECHECK_MS s4) as [r4 s5]. cbn [fst executed].
    split; [unfold MAX_SWEEPS in *; lia|]. split; [reflexivity|].
    split; [apply detectAlarms_nil_length|]. split; [reflexivity|].
    exists extra. split; [reflexivity|]. split; [lia|exact Hall].
  - pose proof (sweeps_shape MAX_SWEEPS 0 siteId site1
                  (snd (_buildPlan siteId site0)) s2) as Hsw.
    destruct (sweeps MAX_SWEEPS 0 siteId site1 _ s2) as [[[site3 taken'] pass] s4].
    destruct Hsw as (Hp & Hpos & extra & -> & Hlen & Hall).
    destruct (_waitAndGet siteId 2 RECHECK_MS s4) as [r4 s5]. cbn [fst executed].
    split; [unfold MAX_SWEEPS in *; lia|]. split; [reflexivity|].
    split; [apply detectAlarms_nil_length|]. split; [reflexivity|].
    exists extra. split; [reflexivity|]. split; [lia|exact Hall].
Qed.

(** X27. What [mitigateSite] returns for a site id that is a plain key,
    case by case. It fails only because Agent B is not running (and then
    changes nothing) or because the site is not in the snapshot. Under a policy other than E2E
    automation it returns the alarms and the plan of the snapshot it read.
    Under E2E automation the result is consistent: between one and
    [MAX_SWEEPS] passes, the remaining alarms are the alarms of the
    returned site, [allClear] says that none remain, the cleared alarms
    are the initial ones whose code no longer appears, and the actions
    taken are the initial plan followed by at most three sweep steps per
    pass, each a radio heal or a power retry on this very site. *)
Theorem mitigateSite_outcome (siteId : string) (s : Sys) :
  plain_key siteId = true ->
  let e2e :=
    String.eqb (toLowerCase (PolicyStore.waysOfWorking (policy s))) "e2e automation" in
  match fst (mitigateSite siteId s) with
  | Failed err =>
      (err = "Agent not running" /\ agent_status (agentB s) <> running /\
       snd (mitigateSite siteId s) = s) \/
      (err = "site_not_found" /\ agent_status (agentB s) = running /\
       fst (_fetchSite siteId s) = None)
  | ApprovalRequired plan alarms site =>
      agent_status (agentB s) = running /\ e2e = false /\
      fst (_fetchSite siteId s) = Some site /\
      (alarms, plan) = _buildPlan siteId site
  | Mitigated site taken cleared remaining passes allClear =>
      agent_status (agentB s) = running /\ e2e = true /\
      exists site0,
        fst (_fetchSite siteId s) = Some site0 /\
        (1 <= passes <= MAX_SWEEPS)%nat /\
        remaining = _detectAlarms (Some site) /\
        (allClear = true <-> remaining = []) /\
        cleared =
          List.filter (fun a0 => negb (has_code (code a0) remaining))
            (_detectAlarms (Some site0)) /\
        exists extra,
          taken = (snd (_buildPlan siteId site0) ++ extra)%list /\
          (List.length extra <= 3 * passes)%nat /\
          Forall (sweep_step siteId) extra
  end.
Proof.
  intros _. cbv zeta. unfold mitigateSite, PolicyStore.getPolicy.
  destruct (agent_status (agentB s)) eqn:Hst;
    try (cbn [fst snd]; left; repeat split; auto; discriminate).
  destruct (_fetchSite siteId s) as [[site|] s1] eqn:Hfetch; cbn [fst snd].
  - destruct (String.eqb (toLowerCase (PolicyStore.waysOfWorking (policy s)))
                "e2e automation") eqn:He2e; cbn [negb].
    + pose proof (execute_shape siteId site
                    (_log ("mitigate: start " ++ siteId ++ " (mains=" ++ show (mains site) ++
                           ", alive=" ++ show_bool (siteAlive site) ++ ", batt=" ++
                           show_Z (batteryPercent site) ++ "%, policy.wow=" ++
                           String (ascii_of_nat 34)
                             (PolicyStore.waysOfWorking (policy s)) ++
                           String (ascii_of_nat 34) ")") s1)) as Hex.
      destruct (fst (execute siteId site (_buildPlan siteId site) _)) eqn:Hres;
        try contradiction.
      repeat split; auto. exists site. split; [reflexivity|exact Hex].
    + unfold propose. cbn [fst]. repeat split; auto.
  - right. auto.
Qed.

End WithEnv.

(** The outage of S1 under the policy E2E automation, Agent B running. *)
Definition blackout : Sites := [("S1", Scenario.outage)].

Definition automated : @Sys (Scenario.constant blackout) :=
  @Scenario.server (Scenario.constant blackout)
    (PolicyStore.mkPolicy "Critical First" "E2E automation" ">95%" "2025-01-01T00:00:00Z" 1 None)
    false running running 1000.

Lemma mitigateSite_outcome_witness :
  match fst (@mitigateSite (Scenario.constant blackout) "S1" automated) with
  | Failed err =>
      (err = "Agent not running" /\ agent_status (agentB automated) <> running /\
       snd (@mitigateSite (Scenario.constant blackout) "S1" automated) = automated) \/
      (err = "site_not_found" /\ agent_status (agentB automated) = running /\
       fst (@_fetchSite (Scenario.constant blackout) "S1" automated) = None)
  | ApprovalRequired plan alarms site =>
      agent_status (agentB automated) = running /\
      String.eqb (toLowerCase (PolicyStore.waysOfWorking (policy automated)))
        "e2e automation" = false /\
      fst (@_fetchSite (Scenario.constant blackout) "S1" automated) = Some site /\
      (alarms, plan) = _buildPlan "S1" site
  | Mitigated site taken cleared remaining passes allClear =>
      agent_status (agentB automated) = running /\
      String.eqb (toLowerCase (PolicyStore.waysOfWorking (policy automated)))
        "e2e automation" = true /\
      exists site0,
        fst (@_fetchSite (Scenario.constant blackout) "S1" automated) = Some site0 /\
        (1 <= passes <= MAX_SWEEPS)%nat /\
        remaining = _detectAlarms (Some site) /\
        (allClear = true <-> remaining = []) /\
        cleared =
          List.filter (fun a0 => negb (has_code (code a0) remaining))
            (_detectAlarms (Some site0)) /\
        exists extra,
          taken = (snd (_buildPlan "S1" site0) ++ extra)%list /\
          (List.length extra <= 3 * passes)%nat /\
          Forall (sweep_step "S1") extra
  end.
Proof.
  apply (@mitigateSite_outcome (Scenario.constant blackout) "S1" automated).
  reflexivity.
Defined.

End MitigationTheory.

(** ** What the handling of an event leaves alone *)

Module FrameTheory.
Import Js Tower State SupervisorStore Supervisor.

Section WithEnv.
Context {E : Env}.

(** What the handling of an event is not to change: the policy, the
    manual toggle and the life cycle of the Supervisor. *)
Definition settings (s : Sys) : PolicyStore.Policy * bool * Status * option Z * Z :=
  (policy s, autoEnabled s, status (supervisor s), startedAt (supervisor s),
   runtimeSec (supervisor s)).

(** From [s] to [s']: the settings are the same, the history has grown
    by entries that satisfy [P], no running agent was stopped, and the
    casebook has only grown. *)
Definition advances (P : Effect -> Prop) (s s' : Sys) : Prop :=
  settings s' = settings s /\
  (exists added, history s' = (history s ++ added)%list /\ Forall P added) /\
  (agent_status (agentA s) = running -> agent_status (agentA s') = running) /\
  (agent_status (agentB s) = running -> agent_status (agentB s') = running) /\
  (agent_status (agentC s) = running -> agent_status (agentC s') = running) /\
  (exists more, casebook s' = (casebook s ++ more)%list).

Lemma advances_refl P s : advances P s s.
Proof.
  repeat split; auto; [exists []|exists []]; rewrite app_nil_r; auto.
Qed.

Lemma advances_trans P s1 s2 s3 : advances P s1 s2 -> advances P s2 s3 -> advances P s1 s3.
Proof.
  intros (Hs & (a & Ha & HPa) & HA & HB & HC & (m & Hm))
         (Hs' & (a' & Ha' & HPa') & HA' & HB' & HC' & (m' & Hm')).
  repeat split; auto.
  - congruence.
  - exists (a ++ a')%list. split; [now rewrite Ha', Ha, app_assoc|].
    apply Forall_app. auto.
  - exists (m ++ m')%list. now rewrite Hm', Hm, app_assoc.
Qed.

(** A change of the state that touches neither the settings, nor the
    history, nor the casebook, nor the status of an agent. *)
Definition silent (s s' : Sys) : Prop :=
  settings s' = settings s /\ history s' = history s /\ casebook s' = casebook s /\
  (agent_status (agentA s) = running -> agent_status (agentA s') = running) /\
  (agent_status (agentB s) = running -> agent_status (agentB s') = running) /\
  (agent_status (agentC s) = running -> agent_status (agentC s') = running).

Lemma silent_advances P s s' : silent s s' -> advances P s s'.
Proof.
  intros (Hs & Hh & Hc & HA & HB & HC). repeat split; auto.
  - exists []. rewrite app_nil_r. auto.
  - exists []. now rewrite app_nil_r.
Qed.

Lemma effect_advances P w e s : P e -> advances P s (with_world w e s).
Proof.
  intros He. repeat split; auto.
  - exists [e]. split; [reflexivity|]. constructor; [exact He|constructor].
  - exists []. cbn. now rewrite app_nil_r.
Qed.

(** The entries every call may add: reads of the state and waits. *)
Definition allows_reads (P : Effect -> Prop) : Prop :=
  (forall r, P (GetState r)) /\ (forall ms, P (Sleep ms)).

(** The commands on one site. *)
Definition allows_commands (P : Effect -> Prop) (siteId : string) : Prop :=
  (forall st, P (Power siteId st)) /\ (forall antenna st, P (Rru siteId antenna st)).

(** *** The Supervisor's own operations *)

Lemma adv_log P msg s : advances P s (_log msg s).
Proof. apply silent_advances. repeat split; auto. Qed.

Lemma adv_note P msg s : advances P s (supervisorNote msg s).
Proof. apply silent_advances. repeat split; auto. Qed.

Lemma adv_incrementTasksRouted P n s : advances P s (incrementTasksRouted n s).
Proof. apply silent_advances. repeat split; auto. Qed.

Lemma adv_addApprovalRequest P siteId actions reason s :
  advances P s (snd (addApprovalRequest siteId actions reason s)).
Proof. apply silent_advances. repeat split; auto. Qed.

(** *** The agents' logs and life cycles *)

Lemma adv_agentB_log P msg s : advances P s (TroubleshootingAgent._log msg s).
Proof. apply silent_advances. repeat split; auto. Qed.

Lemma adv_agentC_log P msg s : advances P s (RcaAgent._log msg s).
Proof. apply silent_advances. repeat split; auto. Qed.

Lemma adv_agentB_start P s : advances P s (TroubleshootingAgent.start s).
Proof.
  apply silent_advances. unfold silent, TroubleshootingAgent.start, AgentBase.start. cbn.
  destruct (agent_status (agentB s)) eqn:Hb; cbn; repeat split; auto.
Qed.

Lemma adv_agentC_start P s : advances P s (RcaAgent.start s).
Proof.
  apply silent_advances. unfold silent, RcaAgent.start, AgentBase.start. cbn.
  destruct (agent_status (agentC s)) eqn:Hc; cbn; repeat split; auto.
Qed.

Lemma adv_agentA_start P s : advances P s (CorrelationAgent.start s).
Proof.
  apply silent_advances. unfold CorrelationAgent.start.
  destruct (agent_status (agentA s)) eqn:HA;
    try (repeat split; auto; fail);
    destruct (String.eqb (agentA_delegation s) "disabled"); repeat split; auto.
Qed.

Lemma adv_correlate P evs s : advances P s (snd (CorrelationAgent.correlate evs s)).
Proof. apply silent_advances. repeat split; auto. Qed.

Lemma adv_agentB_task P t s : advances P s (with_agentB (AgentBase.set_agent_task t) s).
Proof. apply silent_advances. repeat split; auto. Qed.

Lemma adv_agentC_task P t s : advances P s (with_agentC (AgentBase.set_agent_task t) s).
Proof. apply silent_advances. repeat split; auto. Qed.

Lemma adv_lastBySite P f s : advances P s (with_lastBySite f s).
Proof. apply silent_advances. repeat split; auto. Qed.

Lemma adv_casebook_push P c s : advances P s (with_casebook (fun cb => (cb ++ [c])%list) s).
Proof.
  repeat split; auto.
  - exists []. cbn. now rewrite app_nil_r.
  - exists [c]. reflexivity.
Qed.

(** *** Reads, waits and commands *)

Lemma adv_fetchSite P siteId s :
  allows_reads P -> advances P s (snd (_fetchSite siteId s)).
Proof.
  intros [Hr _]. rewrite TroubleshootingTheory._fetchSite_effect. cbn [snd].
  apply effect_advances, Hr.
Qed.

Lemma adv_sleep P ms s : allows_reads P -> advances P s (_sleep ms s).
Proof. intros [_ Hs]. apply effect_advances, Hs. Qed.

Lemma adv_power P siteId st s : allows_commands P siteId -> advances P s (power siteId st s).
Proof. intros [Hp _]. apply effect_advances, Hp. Qed.

Lemma adv_rru P siteId antenna st s :
  allows_commands P siteId -> advances P s (rru siteId antenna st s).
Proof. intros [_ Hr]. apply effect_advances, Hr. Qed.

(** *** Agent B *)

Create HintDb adv.

#[local] Hint Resolve adv_log adv_note adv_incrementTasksRouted adv_agentB_log adv_agentC_log
  adv_agentB_start adv_agentC_start adv_agentA_start adv_sleep adv_power adv_rru
  adv_agentB_task adv_agentC_task adv_lastBySite adv_casebook_push : adv.

(** [advances P s t] for a state [t] reached from [s] by steps that the
    hints or the hypotheses cover. *)
Ltac adv :=
  first
    [ apply advances_refl
    | eapply advances_trans; [|solve [eauto with adv]]; adv ].

Lemma adv_addApproval_hint P siteId actions reason s r s' :
  addApprovalRequest siteId actions reason s = (r, s') -> advances P s s'.
Proof. intros H. pose proof (adv_addApprovalRequest P siteId actions reason s) as A.
  now rewrite H in A. Qed.

Section Reads.
Variable P : Effect -> Prop.
Hypothesis HR : allows_reads P.

#[local] Hint Resolve HR : adv.

Ltac crack :=
  repeat
    match goal with
    | |- context [_fetchSite ?a ?x] =>
        let H := fresh "Hf" in
        pose proof (adv_fetchSite P a x HR) as H;
        destruct (_fetchSite a x); cbn [fst snd] in H |- *
    | |- context [if ?c then _ else _] => destruct c
    | |- context [match ?r with Some _ => _ | None => _ end] => destruct r
    end.

Lemma adv_waitAndGet siteId tries ms s :
  advances P s (snd (TroubleshootingAgent._waitAndGet siteId tries ms s)).
Proof.
  revert s. induction tries as [|n IH]; intros s; cbn [TroubleshootingAgent._waitAndGet snd].
  - apply advances_refl.
  - match goal with
    | |- context [_fetchSite ?a ?x] =>
        pose proof (adv_fetchSite P a x HR) as Hf; destruct (_fetchSite a x) as [last s2]
    end.
    cbn [snd] in Hf. destruct last; cbn [snd].
    + adv.
    + eapply advances_trans; [|apply IH]. adv.
Qed.

Ltac crack_wait :=
  match goal with
  | |- context [TroubleshootingAgent._waitAndGet ?a ?n ?ms ?x] =>
      let H := fresh "Hw" in
      pose proof (adv_waitAndGet a n ms x) as H;
      destruct (TroubleshootingAgent._waitAndGet a n ms x); cbn [fst snd] in H |- *
  end.

Lemma adv_heal_attempt attempt siteId antenna s :
  allows_commands P siteId ->
  advances P s (snd (TroubleshootingAgent.heal_attempt attempt siteId antenna s)).
Proof.
  intros HC. unfold TroubleshootingAgent.heal_attempt. cbv zeta.
  repeat (crack; try crack_wait); cbn [fst snd]; adv.
Qed.

Lemma adv_heal_loop remaining attempt siteId antenna s :
  allows_commands P siteId ->
  advances P s (snd (TroubleshootingAgent.heal_loop remaining attempt siteId antenna s)).
Proof.
  intros HC. revert attempt s.
  induction remaining as [|n IH]; intros attempt s; cbn [TroubleshootingAgent.heal_loop].
  - cbn [snd]. adv.
  - pose proof (adv_heal_attempt attempt siteId antenna s HC) as Ha.
    destruct (TroubleshootingAgent.heal_attempt attempt siteId antenna s) as [done s'].
    cbn [snd] in Ha. destruct done; cbn [snd]; [exact Ha|].
    eapply advances_trans; [exact Ha|apply IH].
Qed.

Lemma adv_healRadio siteId antenna s :
  allows_commands P siteId ->
  advances P s (snd (TroubleshootingAgent._healRadio siteId antenna s)).
Proof. apply adv_heal_loop. Qed.

Lemma adv_applyStep step s :
  allows_commands P (step_siteId step) ->
  advances P s (snd (TroubleshootingAgent._applyStep step s)).
Proof.
  intros HC. unfold TroubleshootingAgent._applyStep. cbv zeta.
  repeat match goal with
         | |- context [if ?c then _ else _] => destruct c
         end; cbn [snd]; try adv.
  now apply adv_healRadio.
Qed.

Lemma adv_run_plan_from siteId steps taken s :
  allows_commands P siteId ->
  Forall (fun st => step_siteId st = siteId) steps ->
  advances P s
    (snd (fold_left
            (fun acc step =>
               let (taken, s0) := acc : list Step * Sys in
               let (_, s1) := TroubleshootingAgent._applyStep step s0 in
               ((taken ++ [step])%list, _sleep TroubleshootingAgent.BETWEEN_ACTION_MS s1))
            steps (taken, s))).
Proof.
  intros HC Hall. revert taken s.
  induction Hall as [|step steps Hstep _ IH]; intros taken s; cbn [fold_left].
  - apply advances_refl.
  - pose proof (adv_applyStep step s) as Ha. rewrite Hstep in Ha. specialize (Ha HC).
    destruct (TroubleshootingAgent._applyStep step s) as [o s1]. cbn [snd] in Ha.
    eapply advances_trans; [|apply IH]. adv.
Qed.

Lemma adv_run_plan siteId steps s :
  allows_commands P siteId ->
  Forall (fun st => step_siteId st = siteId) steps ->
  advances P s (snd (TroubleshootingAgent.run_plan steps s)).
Proof. apply adv_run_plan_from. Qed.

Lemma adv_heal_radios siteId radioAlarms actionsTaken s :
  allows_commands P siteId ->
  advances P s
    (snd (TroubleshootingAgent.heal_radios siteId radioAlarms actionsTaken s)).
Proof.
  intros HC. unfold TroubleshootingAgent.heal_radios. revert actionsTaken s.
  induction radioAlarms as [|ra l IH]; intros taken s; cbn [fold_left].
  - apply advances_refl.
  - match goal with
    | |- context [TroubleshootingAgent._healRadio siteId ?a s] =>
        pose proof (adv_healRadio siteId a s HC) as Hh;
        destruct (TroubleshootingAgent._healRadio siteId a s) as [out s1]
    end.
    cbn [snd] in Hh. eapply advances_trans; [|apply IH].
    destruct (TroubleshootingAgent.ok out); adv.
Qed.

Lemma adv_sweeps remaining pass siteId site actionsTaken s :
  allows_commands P siteId ->
  advances P s
    (snd (TroubleshootingAgent.sweeps remaining pass siteId site actionsTaken s)).
Proof.
  intros HC. revert pass site actionsTaken s.
  induction remaining as [|n IH]; intros pass site taken s; cbn [TroubleshootingAgent.sweeps].
  - apply advances_refl.
  - crack_wait.
    match goal with
    | |- context [if ?c then _ else _] => destruct c
    end; cbn [snd]; [exact Hw|].
    match goal with
    | |- context [TroubleshootingAgent.heal_radios siteId ?ra ?tk ?x] =>
        pose proof (adv_heal_radios siteId ra tk x HC) as Hh;
        destruct (TroubleshootingAgent.heal_radios siteId ra tk x) as [taken' s2]
    end.
    cbn [snd] in Hh.
    match goal with
    | |- context [if ?c then _ else _] => destruct c
    end; (eapply advances_trans; [|apply IH]); adv.
Qed.

Lemma adv_propose siteId site initial s :
  advances P s (snd (TroubleshootingAgent.propose siteId site initial s)).
Proof. unfold TroubleshootingAgent.propose. cbn [snd]. adv. Qed.

Lemma adv_execute siteId site initial s :
  allows_commands P siteId ->
  Forall (fun st => step_siteId st = siteId) (snd initial) ->
  advances P s (snd (TroubleshootingAgent.execute siteId site initial s)).
Proof.
  intros HC Hall. unfold TroubleshootingAgent.execute. cbv zeta.
  pose proof (adv_run_plan siteId (snd initial) s HC Hall) as Hp.
  destruct (TroubleshootingAgent.run_plan (snd initial) s) as [taken s1]. cbn [snd] in Hp.
  cbv beta iota. crack_wait. cbv beta iota.
  match goal with
  | |- context [if ?c then _ else _] => destruct c
  end; [crack_wait|]; cbv beta iota;
    match goal with
    | |- context [TroubleshootingAgent.sweeps ?n ?p siteId ?st ?tk ?x] =>
        pose proof (adv_sweeps n p siteId st tk x HC) as Hs;
        destruct (TroubleshootingAgent.sweeps n p siteId st tk x) as [[[site3 taken'] pass] s4]
    end; cbn [snd] in Hs; cbv beta iota; crack_wait; cbv beta iota;
    match goal with
    | |- context [if ?c then _ else _] => destruct c
    end; cbn [snd]; adv.
Qed.

Lemma buildPlan_site siteId site :
  Forall (fun st => step_siteId st = siteId) (snd (TroubleshootingAgent._buildPlan siteId site)).
Proof.
  unfold TroubleshootingAgent._buildPlan. cbn [snd].
  repeat (apply Forall_app; split);
    match goal with
    | |- context [if ?c then _ else _] => destruct c
    end; repeat constructor.
Qed.

Lemma adv_mitigateSite siteId s :
  (isE2E s = true -> allows_commands P siteId) ->
  advances P s (snd (TroubleshootingAgent.mitigateSite siteId s)).
Proof.
  intros HC. unfold TroubleshootingAgent.mitigateSite.
  destruct (agent_status (agentB s)); try apply advances_refl.
  cbv zeta. unfold PolicyStore.getPolicy.
  change (String.eqb (toLowerCase (PolicyStore.waysOfWorking (policy s))) "e2e automation")
    with (isE2E s).
  pose proof (adv_fetchSite P siteId s HR) as Hf.
  destruct (_fetchSite siteId s) as [[site|] s1]; cbn [snd] in Hf |- *; [|adv].
  destruct (isE2E s); cbn [negb].
  - eapply advances_trans; [|apply adv_execute; [now apply HC|apply buildPlan_site]]. adv.
  - eapply advances_trans; [|apply adv_propose]. adv.
Qed.

(** *** Agent C *)

Lemma adv_recordIncident siteId cause actions resolution s :
  advances P s (snd (RcaAgent.recordIncident siteId cause actions resolution s)).
Proof.
  unfold RcaAgent.recordIncident.
  set (s0 := match agent_status (agentC s) with running => s | _ => RcaAgent.start s end).
  assert (H0 : advances P s s0).
  { subst s0. destruct (agent_status (agentC s)); adv. }
  destruct (RcaAgent._isNoise siteId cause); cbn [snd]; [exact H0|].
  assert (Hd : advances P s (snd (RcaAgent._dedup siteId cause resolution s0))).
  { unfold RcaAgent._dedup. crack; cbn [snd]; adv. }
  destruct (RcaAgent._dedup siteId cause resolution s0) as [dup s1]. cbn [snd] in Hd.
  destruct dup; cbn [snd]; [exact Hd|].
  rewrite TroubleshootingTheory._fetchSite_effect. cbv zeta. cbn [case_dispatchSuggested].
  pose proof (effect_advances P (snd (sim_state (world s1)))
                (GetState (fst (sim_state (world s1)))) s1 (proj1 HR _)) as Hf.
  crack; cbn [snd]; adv.
Qed.

(** *** The Supervisor *)

Lemma advances_isE2E s s' : advances P s s' -> isE2E s' = isE2E s /\ autoEffective s' = autoEffective s.
Proof.
  intros (Hs & _). unfold settings in Hs. injection Hs as Hp Ha _ _ _.
  unfold autoEffective, isE2E. now rewrite Hp, Ha.
Qed.

Lemma adv_record_investigating siteId s : advances P s (record_investigating siteId s).
Proof.
  unfold record_investigating.
  pose proof (adv_recordIncident siteId "correlated_alarm_cluster" [] "investigating" s) as Hr.
  destruct (RcaAgent.recordIncident siteId "correlated_alarm_cluster" [] "investigating" s).
  cbn [snd] in Hr. adv.
Qed.

Lemma adv_ensure_agentB s : advances P s (ensure_agentB s).
Proof. unfold ensure_agentB. destruct (agent_status (agentB s)); adv. Qed.

#[local] Hint Resolve adv_ensure_agentB adv_record_investigating : adv.

Lemma adv_hitl_path siteId s :
  (isE2E s = true -> allows_commands P siteId) ->
  advances P s (hitl_path siteId s).
Proof.
  intros HC. unfold hitl_path. cbv zeta.
  pose proof (adv_ensure_agentB s) as H1.
  pose proof (adv_mitigateSite siteId (ensure_agentB s)) as H2.
  rewrite (proj1 (advances_isE2E _ _ H1)) in H2. specialize (H2 HC).
  destruct (TroubleshootingAgent.mitigateSite siteId (ensure_agentB s)) as [out s2].
  cbn [snd] in H2. destruct out; adv.
Qed.

Lemma adv_auto_path siteId s :
  (isE2E s = true -> allows_commands P siteId) ->
  advances P s (auto_path siteId s).
Proof.
  intros HC. unfold auto_path. cbv zeta.
  match goal with
  | |- context [TroubleshootingAgent.mitigateSite siteId ?x] =>
      assert (H1 : advances P s x) by adv;
      pose proof (adv_mitigateSite siteId x) as H2;
      rewrite (proj1 (advances_isE2E _ _ H1)) in H2; specialize (H2 HC);
      destruct (TroubleshootingAgent.mitigateSite siteId x) as [result s4]
  end.
  cbn [snd] in H2.
  match goal with
  | |- context [if ?c then _ else _] => destruct c
  end;
    match goal with
    | |- context [RcaAgent.recordIncident ?a ?b ?c ?d ?x] =>
        pose proof (adv_recordIncident a b c d x) as H3;
        destruct (RcaAgent.recordIncident a b c d x) as [rr s5]
    end; cbn [snd] in H3; adv.
Qed.

Lemma adv_orchestrate siteId evt s :
  (isE2E s = true -> allows_commands P siteId) ->
  advances P s (orchestrate siteId evt s).
Proof.
  intros HC. unfold orchestrate. cbv zeta.
  set (s1 := match agent_status (agentA s) with
             | running => s
             | _ => CorrelationAgent.start s
             end).
  assert (H1 : advances P s s1).
  { subst s1. destruct (agent_status (agentA s)); adv. }
  pose proof (adv_correlate P (correlateInput siteId evt s1) s1) as H2.
  destruct (CorrelationAgent.correlate (correlateInput siteId evt s1) s1) as [incidents s2].
  cbn [snd] in H2. destruct incidents as [|inc incidents]; [adv|].
  match goal with
  | |- context [record_investigating siteId ?x] =>
      assert (H4 : advances P s (record_investigating siteId x))
        by (eapply advances_trans; [|apply adv_record_investigating]; adv)
  end.
  match goal with
  | |- context [if ?c then _ else _] => destruct c
  end.
  - eapply advances_trans; [exact H4|]. apply adv_hitl_path.
    now rewrite (proj1 (advances_isE2E _ _ H4)).
  - eapply advances_trans; [exact H4|]. apply adv_auto_path.
    now rewrite (proj1 (advances_isE2E _ _ H4)).
Qed.

Lemma adv_process evt s :
  (isE2E s = true -> forall siteId, siteId_of evt = Some siteId -> allows_commands P siteId) ->
  advances P s (process evt s).
Proof.
  intros HC. unfold process. cbv zeta.
  match goal with
  | |- context [status (supervisor ?x)] =>
      assert (H1 : advances P s x) by adv; destruct (status (supervisor x)); try adv
  end.
  destruct (siteId_of evt) as [siteId|] eqn:Hsite; [|adv].
  destruct (actionable evt); [|adv].
  eapply advances_trans; [exact H1|]. apply adv_orchestrate.
  rewrite (proj1 (advances_isE2E _ _ H1)). intros He. now apply HC.
Qed.

Lemma adv_handleEvent evt processed s :
  (isE2E s = true -> forall siteId, siteId_of evt = Some siteId -> allows_commands P siteId) ->
  advances P s (snd (handleEvent evt (processed, s))).
Proof.
  intros HC. unfold handleEvent.
  destruct (processed !! eventId evt); cbn [snd]; [adv|now apply adv_process].
Qed.

End Reads.

End WithEnv.
End FrameTheory.

(** ** Orchestration *)

Module OrchestrationTheory.
Import Js Tower State SupervisorStore Supervisor SupervisorStart FrameTheory.

Section WithEnv.
Context {E : Env}.

Lemma anything_allowed siteId :
  allows_reads (fun _ : Effect => True) /\ allows_commands (fun _ : Effect => True) siteId.
Proof. repeat split. Qed.

(** X21. The handling of an event, whatever the event and whatever the
    simulator answers, leaves the policy, the manual toggle and the
    Supervisor's life cycle (status, startedAt, runtimeSec) as they
    were, stops no agent that was running, and only appends to Agent C's
    casebook. *)
Theorem handleEvent_leaves_settings_and_agents
  (evt : BusEvent) (processed : gmap string Z) (s : Sys) :
  let s' := snd (handleEvent evt (processed, s)) in
  policy s' = policy s /\ autoEnabled s' = autoEnabled s /\
  status (supervisor s') = status (supervisor s) /\
  startedAt (supervisor s') = startedAt (supervisor s) /\
  runtimeSec (supervisor s') = runtimeSec (supervisor s) /\
  (agent_status (agentA s) = running -> agent_status (agentA s') = running) /\
  (agent_status (agentB s) = running -> agent_status (agentB s') = running) /\
  (agent_status (agentC s) = running -> agent_status (agentC s') = running) /\
  exists more, casebook s' = (casebook s ++ more)%list.
Proof.
  cbv zeta.
  destruct (adv_handleEvent (fun _ => True) (proj1 (anything_allowed EmptyString))
              evt processed s) as (Hs & _ & HA & HB & HC & Hcb).
  { intros _ siteId _. apply anything_allowed. }
  unfold settings in Hs. injection Hs as Hp Ha Hst Hsa Hrt. repeat split; auto.
Qed.

(** X22. Unless the stored policy is E2E automation, the handling of an
    event sends no command to the simulator, whatever the manual toggle
    says: all it adds to the requests made are reads of the state and
    waits. *)
Theorem no_command_unless_policy_is_e2e
  (evt : BusEvent) (processed : gmap string Z) (s : Sys) :
  isE2E s = false ->
  exists added,
    history (snd (handleEvent evt (processed, s))) = (history s ++ added)%list /\
    Forall (fun e => is_device_request e = false) added.
Proof.
  intros Hpol.
  destruct (adv_handleEvent (fun e => is_device_request e = false)
              (conj (fun _ => eq_refl) (fun _ => eq_refl)) evt processed s)
    as (_ & Hh & _).
  { rewrite Hpol. discriminate. }
  exact Hh.
Qed.

(** An entry of the history that is no command, or a command on the
    given site. *)
Definition aimed_at (site : option string) (e : Effect) : Prop :=
  match e with
  | Power sites _ => site = Some sites
  | Rru s _ _ => site = Some s
  | _ => True
  end.

(** X23. Every command that the handling of an event sends to the
    simulator, power or RRU, names the site of that event (its [siteId],
    trimmed) and no other site. *)
Theorem commands_name_the_site_of_the_event
  (evt : BusEvent) (processed : gmap string Z) (s : Sys) :
  exists added,
    history (snd (handleEvent evt (processed, s))) = (history s ++ added)%list /\
    Forall (aimed_at (siteId_of evt)) added.
Proof.
  destruct (adv_handleEvent (aimed_at (siteId_of evt))
              (conj (fun _ => I) (fun _ => I)) evt processed s)
    as (_ & Hh & _).
  { intros _ siteId Hsite. rewrite Hsite. split; intros; reflexivity. }
  exact Hh.
Qed.

(** *** The cold start *)

Definition anything : Effect -> Prop := fun _ => True.

Lemma adv_sweep_alarms siteId alarms st count :
  advances anything (snd st)
    (snd (fst (fold_left
                 (fun acc' alarm =>
                    let (st, count) := acc' : (gmap string Z * Sys) * nat in
                    (handleEvent (synthesized siteId alarm (snd st)) st, S count))
                 alarms (st, count)))) /\
  snd (fold_left
         (fun acc' alarm =>
            let (st, count) := acc' : (gmap string Z * Sys) * nat in
            (handleEvent (synthesized siteId alarm (snd st)) st, S count))
         alarms (st, count)) = (count + List.length alarms)%nat.
Proof.
  revert st count. induction alarms as [|a alarms IH]; intros st count; cbn [fold_left].
  - cbn. split; [apply advances_refl|lia].
  - destruct (IH (handleEvent (synthesized siteId a (snd st)) st) (S count)) as [Hadv Hcount].
    split.
    + eapply advances_trans; [|exact Hadv]. destruct st as [p s]. cbn [snd].
      apply adv_handleEvent; [apply (anything_allowed EmptyString)|].
      intros _ site _. apply anything_allowed.
    + rewrite Hcount. cbn [List.length]. lia.
Qed.

(** The alarms that a snapshot lists, site after site. *)
Definition listed (sites : Sites) : list string :=
  List.flat_map (fun entry => nullish (alarms (snd entry)) []) sites.

Lemma adv_sweep_sites sites st count :
  advances anything (snd st) (snd (fst (fold_left sweep_site sites (st, count)))) /\
  snd (fold_left sweep_site sites (st, count)) = (count + List.length (listed sites))%nat.
Proof.
  revert st count. induction sites as [|entry sites IH]; intros st count; cbn [fold_left].
  - cbn. split; [apply advances_refl|lia].
  - unfold sweep_site at 2 4.
    destruct (adv_sweep_alarms (fst entry) (nullish (alarms (snd entry)) []) st count)
      as [Ha Hc].
    destruct (fold_left _ (nullish (alarms (snd entry)) []) (st, count)) as [st1 count1].
    cbn [fst snd] in Ha, Hc. destruct (IH st1 count1) as [Hadv Hcount]. split.
    + eapply advances_trans; [exact Ha|exact Hadv].
    + rewrite Hcount, Hc. cbn [listed List.flat_map]. rewrite List.length_app.
      fold (listed sites). lia.
Qed.

Lemma adv_coldStartSweep snap st :
  advances anything (snd st) (snd (coldStartSweep snap st)).
Proof.
  unfold coldStartSweep. destruct snap as [sites|]; [|apply advances_refl].
  destruct (adv_sweep_sites sites st O) as [Hadv _].
  destruct (fold_left sweep_site sites (st, O)) as [st' count]. cbn [fst snd] in Hadv.
  destruct (0 <? count)%nat; cbn [snd]; [|exact Hadv].
  eapply advances_trans; [exact Hadv|apply adv_log].
Qed.

Lemma ensureAgentsRunning_running s :
  agent_status (agentA (ensureAgentsRunning s)) = running /\
  agent_status (agentB (ensureAgentsRunning s)) = running /\
  agent_status (agentC (ensureAgentsRunning s)) = running.
Proof.
  unfold ensureAgentsRunning.
  set (s1 := match agent_status (agentA s) with
             | running => s | _ => CorrelationAgent.start s end).
  set (s2 := match agent_status (agentB s1) with
             | running => s1 | _ => TroubleshootingAgent.start s1 end).
  assert (HA : agent_status (agentA s1) = running).
  { subst s1. destruct (agent_status (agentA s)) eqn:H; try exact H;
      unfold CorrelationAgent.start; rewrite H;
      destruct (String.eqb (agentA_delegation s) "disabled"); reflexivity. }
  assert (HB : agent_status (agentB s2) = running /\ agentA s2 = agentA s1).
  { subst s2. destruct (agent_status (agentB s1)) eqn:H; (split; [|reflexivity]);
      try exact H;
      unfold TroubleshootingAgent.start, AgentBase.start; cbn [agentB with_agentB];
      rewrite H; reflexivity. }
  destruct HB as [HB HA2]. rewrite <- HA2 in HA.
  destruct (agent_status (agentC s2)) eqn:HC;
    try (split; [exact HA|]; split; [exact HB|exact HC]);
    (split; [exact HA|]; split; [exact HB|]);
    unfold RcaAgent.start, AgentBase.start; cbn [agentC with_agentC]; rewrite HC; reflexivity.
Qed.

Lemma start_cases (snap : option Sites) (processed : gmap string Z) (s : Sys) :
  match status (supervisor s) with
  | running => start snap (processed, s) = ("Already running", (processed, s))
  | paused => start snap (processed, s) = ("Resumed", (processed, snd (resume s)))
  | _ =>
      let s' := snd (snd (start snap (processed, s))) in
      fst (start snap (processed, s)) = "OK: started" /\
      status (supervisor s') = running /\
      startedAt (supervisor s') = Some (now s) /\
      runtimeSec (supervisor s') = runtimeSec (supervisor s) /\
      agent_status (agentA s') = running /\
      agent_status (agentB s') = running /\
      agent_status (agentC s') = running
  end.
Proof.
  assert (Hup : forall s3 : Sys,
            s3 = ensureAgentsRunning
                   (_log "started"
                      (with_supervisor
                         (fun sup => set_lifecycle running (Some (now s)) (runtimeSec sup) sup) s)) ->
            let s' := snd (coldStartSweep snap (processed, s3)) in
            status (supervisor s') = running /\
            startedAt (supervisor s') = Some (now s) /\
            runtimeSec (supervisor s') = runtimeSec (supervisor s) /\
            agent_status (agentA s') = running /\
            agent_status (agentB s') = running /\
            agent_status (agentC s') = running).
  { intros s3 Hs3. cbv zeta.
    destruct (adv_coldStartSweep snap (processed, s3)) as (Hs & _ & HA & HB & HC & _).
    cbn [snd] in *. unfold settings in Hs. injection Hs as _ _ Hst Hsa Hrt.
    rewrite Hst, Hsa, Hrt.
    assert (Hsup : supervisor s3 =
                   supervisor (_log "started"
                      (with_supervisor
                         (fun sup => set_lifecycle running (Some (now s)) (runtimeSec sup) sup) s))).
    { rewrite Hs3. apply LifecycleTheory.supervisor_ensureAgentsRunning. }
    rewrite Hsup.
    destruct (ensureAgentsRunning_running
                (_log "started"
                   (with_supervisor
                      (fun sup => set_lifecycle running (Some (now s)) (runtimeSec sup) sup) s)))
      as (HA3 & HB3 & HC3).
    rewrite <- Hs3 in HA3, HB3, HC3.
    repeat split; auto. }
  unfold start.
  destruct (status (supervisor s)); try reflexivity;
    cbv zeta; cbn [fst snd]; (split; [reflexivity|]); now apply Hup.
Qed.

(** X24. [start()] is refused on a running Supervisor and resumes a
    paused one, in both cases without a cold start. From idle or stopped
    it answers 'OK: started' and, whatever the cold-start snapshot held
    and whatever its alarms set in motion, the Supervisor is then running
    since the instant of the call with its runtimeSec untouched, and the
    three agents are running. *)
Theorem start_brings_supervisor_and_agents_up
  (snap : option Sites) (processed : gmap string Z) (s : Sys) :
  (status (supervisor s) = running ->
   start snap (processed, s) = ("Already running", (processed, s))) /\
  (status (supervisor s) = paused ->
   start snap (processed, s) = ("Resumed", (processed, snd (resume s)))) /\
  (status (supervisor s) = idle \/ status (supervisor s) = stopped ->
   let s' := snd (snd (start snap (processed, s))) in
   fst (start snap (processed, s)) = "OK: started" /\
   status (supervisor s') = running /\
   startedAt (supervisor s') = Some (now s) /\
   runtimeSec (supervisor s') = runtimeSec (supervisor s) /\
   agent_status (agentA s') = running /\
   agent_status (agentB s') = running /\
   agent_status (agentC s') = running).
Proof.
  pose proof (start_cases snap processed s) as H.
  split; [|split]; intros Hst.
  - now rewrite Hst in H.
  - now rewrite Hst in H.
  - destruct Hst as [Hst|Hst]; rewrite Hst in H; exact H.
Qed.

(** *** The life cycle over any run of calls *)

(** The calls that reach the Supervisor. *)
Inductive Call :=
| Start (snap : option Sites)
| Stop
| Pause
| Resume
| Deliver (evt : BusEvent).

Definition call (st : gmap string Z * Sys) (c : Call) : gmap string Z * Sys :=
  match c with
  | Start snap => snd (start snap st)
  | Stop => (fst st, snd (stop (snd st)))
  | Pause => (fst st, snd (pause (snd st)))
  | Resume => (fst st, snd (resume (snd st)))
  | Deliver evt => handleEvent evt st
  end.

(** [startedAt] is set exactly while the Supervisor is running. *)
Definition clock_runs_when_running (sup : Supervisor) : Prop :=
  status sup = running <-> startedAt sup <> None.

Lemma call_keeps_clock st c :
  clock_runs_when_running (supervisor (snd st)) ->
  clock_runs_when_running (supervisor (snd (call st c))) /\
  runtimeSec (supervisor (snd st)) <= runtimeSec (supervisor (snd (call st c))).
Proof.
  destruct st as [p s]. cbn [snd fst]. unfold clock_runs_when_running. intros Hinv.
  destruct c as [snap| | | |evt]; cbn [call fst snd].
  - pose proof (start_cases snap p s) as H.
    destruct (status (supervisor s)) eqn:Hst.
    + destruct H as (_ & Hs & Ha & Hr & _). rewrite Hs, Ha, Hr. split; [|lia].
      split; [discriminate|reflexivity].
    + rewrite H. cbn [snd]. split; [rewrite Hst; exact Hinv|lia].
    + rewrite H. cbn [snd]. unfold resume. rewrite Hst. cbn [snd].
      rewrite LifecycleTheory.supervisor_ensureAgentsRunning. cbn. split; [|lia].
      split; [discriminate|reflexivity].
    + destruct H as (_ & Hs & Ha & Hr & _). rewrite Hs, Ha, Hr. split; [|lia].
      split; [discriminate|reflexivity].
  - unfold stop. cbn [snd]. rewrite LifecycleTheory.supervisor_ensureAgentsStopped. cbn.
    split; [split; [discriminate|congruence]|].
    destruct (status (supervisor s)); lia.
  - unfold pause. destruct (status (supervisor s)) eqn:Hst; cbn [snd];
      try (split; [rewrite Hst; exact Hinv|lia]).
    cbn. split; [split; [discriminate|congruence]|lia].
  - unfold resume. destruct (status (supervisor s)) eqn:Hst; cbn [snd];
      try (split; [rewrite Hst; exact Hinv|lia]).
    rewrite LifecycleTheory.supervisor_ensureAgentsRunning. cbn.
    split; [split; [discriminate|reflexivity]|lia].
  - assert (Hadv : advances anything s (snd (handleEvent evt (p, s)))).
    { apply adv_handleEvent; [apply (anything_allowed EmptyString)|].
      intros _ siteId _. apply anything_allowed. }
    set (s' := snd (handleEvent evt (p, s))) in *.
    destruct Hadv as (Hs & _). unfold settings in Hs. injection Hs as _ _ Hst Hsa Hrt.
    rewrite Hst, Hsa, Hrt. split; [exact Hinv|lia].
Qed.

(** X25. Along any run of start, stop, pause, resume and event
    deliveries, from a state where [startedAt] is set exactly when the
    Supervisor is running (as at module load), that stays so, and
    [runtimeSec] never decreases. So whenever the Supervisor is not
    running, the [runtimeSec] that [summary()] reports is the stored one,
    with nothing added for the time since. *)
Theorem clock_runs_exactly_when_running (calls : list Call) (processed : gmap string Z) (s : Sys) :
  clock_runs_when_running (supervisor s) ->
  let s' := snd (fold_left call calls (processed, s)) in
  clock_runs_when_running (supervisor s') /\
  runtimeSec (supervisor s) <= runtimeSec (supervisor s') /\
  (status (supervisor s') <> running ->
   sum_runtimeSec (summary s') = runtimeSec (supervisor s')).
Proof.
  intros Hinv. cbv zeta.
  assert (Hrun : forall st,
            clock_runs_when_running (supervisor (snd st)) ->
            clock_runs_when_running (supervisor (snd (fold_left call calls st))) /\
            runtimeSec (supervisor (snd st)) <=
              runtimeSec (supervisor (snd (fold_left call calls st)))).
  { induction calls as [|c calls IH]; intros st Hst; cbn [fold_left]; [split; [exact Hst|lia]|].
    destruct (call_keeps_clock st c Hst) as [Hc Hle].
    destruct (IH (call st c) Hc) as [Hc' Hle']. split; [exact Hc'|lia]. }
  destruct (Hrun (processed, s) Hinv) as [Hc Hle]. cbn [snd] in Hle.
  split; [exact Hc|]. split; [exact Hle|].
  intros Hnot. unfold summary. cbn [sum_runtimeSec].
  destruct (startedAt (supervisor (snd (fold_left call calls (processed, s))))) as [t|] eqn:Ht.
  - exfalso. apply Hnot. apply Hc. rewrite Ht. discriminate.
  - lia.
Qed.

End WithEnv.

Lemma no_command_unless_policy_is_e2e_witness :
  let s := @Scenario.server Scenario.scripted Scenario.hitl_policy true running running
             (Scenario.mkScripted 1000 [] (Some [("S1", Scenario.outage)])) in
  exists added,
    history (snd (@handleEvent Scenario.scripted (Scenario.mains_failure "T1") (∅, s))) =
      (history s ++ added)%list /\
    Forall (fun e => is_device_request e = false) added.
Proof.
  apply (@no_command_unless_policy_is_e2e Scenario.scripted (Scenario.mains_failure "T1") ∅
           (@Scenario.server Scenario.scripted Scenario.hitl_policy true running running
              (Scenario.mkScripted 1000 [] (Some [("S1", Scenario.outage)])))).
  reflexivity.
Defined.

Lemma start_brings_supervisor_and_agents_up_witness :
  @start Scenario.scripted None (∅, LifecycleTheory.loaded) =
    ("OK: started", snd (@start Scenario.scripted None (∅, LifecycleTheory.loaded))) /\
  status (supervisor (snd (snd (@start Scenario.scripted None (∅, LifecycleTheory.loaded))))) =
    running.
Proof.
  destruct (proj2 (proj2 (@start_brings_supervisor_and_agents_up Scenario.scripted None ∅
                            LifecycleTheory.loaded)) (or_introl eq_refl))
    as (Hmsg & Hst & _).
  split; [reflexivity|exact Hst].
Defined.

Lemma clock_runs_exactly_when_running_witness :
  let s' := snd (fold_left (@call Scenario.scripted)
                   [Start None; Deliver (Scenario.mains_failure "T1"); Pause; Stop]
                   (∅, LifecycleTheory.loaded)) in
  clock_runs_when_running (supervisor s') /\
  runtimeSec (supervisor LifecycleTheory.loaded) <= runtimeSec (supervisor s') /\
  (status (supervisor s') <> running ->
   @sum_runtimeSec (@summary Scenario.scripted s') = runtimeSec (supervisor s')).
Proof.
  apply (@clock_runs_exactly_when_running Scenario.scripted
           [Start None; Deliver (Scenario.mains_failure "T1"); Pause; Stop] ∅
           LifecycleTheory.loaded).
  split; [discriminate|]. intros H. exfalso. apply H. reflexivity.
Defined.

End OrchestrationTheory.

(** ** From an event to an approval request *)

Module ApprovalFlowTheory.
Import Js Tower State SupervisorStore Supervisor SupervisorTheory.

Section WithEnv.
Context {E : Env}.

(** [mitigateSite] with Agent B running, a policy other than E2E
    automation and the site in every snapshot: it answers with the plan
    of the site it read, and issues no command. *)
Lemma view_mitigateSite_plans siteId s :
  agent_status (agentB s) = running ->
  isE2E s = false ->
  (forall w, exists sites site, fst (sim_state w) = Some sites /\ map_get siteId sites = Some site) ->
  exists site b,
    fst (TroubleshootingAgent.mitigateSite siteId s) =
      TroubleshootingAgent.ApprovalRequired
        (snd (TroubleshootingAgent._buildPlan siteId site))
        (fst (TroubleshootingAgent._buildPlan siteId site)) site /\
    (exists sites, fst (sim_state (world s)) = Some sites /\ map_get siteId sites = Some site) /\
    view (snd (TroubleshootingAgent.mitigateSite siteId s)) = with_B b (view s) /\
    agent_tasks b = agent_tasks (agentB s).
Proof.
  intros Hrun He2e Hsim.
  destruct (Hsim (world s)) as (sites & site & Hsites & Hsite).
  unfold TroubleshootingAgent.mitigateSite. rewrite Hrun.
  unfold PolicyStore.getPolicy. unfold isE2E in He2e. rewrite He2e.
  rewrite TroubleshootingTheory._fetchSite_effect. rewrite Hsites.
  cbn [TroubleshootingTheory.site_in]. rewrite Hsite.
  cbn [negb]. unfold TroubleshootingAgent.propose. cbn [fst snd].
  exists site. eexists. split; [reflexivity|]. split; [eauto|]. split.
  - unfold view. cbn. rewrite filter_app. cbn. rewrite app_nil_r. reflexivity.
  - reflexivity.
Qed.

(** X28. The Supervisor is running, neither the policy nor the manual
    toggle allows automation, and an actionable event that is not a
    duplicate arrives for a site that Agent A's filter keeps and that
    every snapshot of the simulator holds. Then [handleEvent] enqueues
    exactly one approval request: it carries the next approval id, the
    site, and the plan that Agent B built from the site's entry in the
    snapshot; the last note announces it. Nothing is routed to Agent B as
    a task, and no [power] or [rru] request is made. *)
Theorem event_without_automation_queues_one_approval
  (evt : BusEvent) (siteId : string) (processed : gmap string Z) (s : Sys) :
  status (supervisor s) = running ->
  processed !! eventId evt = None ->
  siteId_of evt = Some siteId ->
  actionable evt = true ->
  CorrelationAgent.keeps (CorrelationAgent.policyMode (policy s)) (probe siteId evt) = true ->
  autoEffective s = false ->
  (forall w, exists sites site, fst (sim_state w) = Some sites /\ map_get siteId sites = Some site) ->
  let s' := snd (handleEvent evt (processed, s)) in
  exists item site,
    approvals (supervisor s') = (approvals (supervisor s) ++ [item])%list /\
    appr_id item = nat_to_string (nextApprovalId (supervisor s)) /\
    appr_siteId item = siteId /\
    appr_reason item = "Troubleshooting HITL plan requires approval" /\
    appr_actions item = snd (TroubleshootingAgent._buildPlan siteId site) /\
    (exists w sites, fst (sim_state w) = Some sites /\ map_get siteId sites = Some site) /\
    nextApprovalId (supervisor s') = S (nextApprovalId (supervisor s)) /\
    lastNote (supervisor s') =
      Some ("Approval requested #" ++ appr_id item ++ " for " ++ siteId) /\
    tasksRouted (supervisor s') = tasksRouted (supervisor s) /\
    agent_tasks (agentB s') = agent_tasks (agentB s) /\
    List.filter is_device_request (history s') = List.filter is_device_request (history s).
Proof.
  intros Hrun Hfresh Hsite Hact Hkeep Hauto Hsim s'.
  assert (He2e : isE2E s = false /\ autoEnabled s = false).
  { unfold autoEffective in Hauto. cbv zeta in Hauto.
    now apply Bool.orb_false_iff in Hauto. }
  destruct He2e as [He2e Htoggle].
  subst s'. unfold handleEvent. rewrite Hfresh. cbn [snd].
  unfold process. rewrite Hsite.
  set (s1 := _log _ s).
  assert (Hv1 : view s1 = view s) by reflexivity.
  replace (status (supervisor s1)) with running by (rewrite <- Hrun; reflexivity).
  rewrite Hact. unfold orchestrate.
  set (sA := match agent_status (agentA s1) with
             | running => s1 | _ => CorrelationAgent.start s1 end).
  assert (HvA : view sA = view s).
  { subst sA. destruct (agent_status (agentA s1)); rewrite ?view_agentA_start; exact Hv1. }
  pose proof (view_correlate (correlateInput siteId evt sA) sA) as Hv2.
  assert (Hincs : exists inc,
             fst (CorrelationAgent.correlate (correlateInput siteId evt sA) sA) = [inc]).
  { cbn [CorrelationAgent.correlate fst]. unfold correlateInput.
    apply correlate_single. unfold PolicyStore.getPolicy.
    replace (policy sA) with (policy s) by (symmetry; exact (f_equal v_policy HvA)).
    exact Hkeep. }
  destruct Hincs as (inc & Hincs).
  destruct (CorrelationAgent.correlate (correlateInput siteId evt sA) sA) as [incidents s2].
  cbn [fst snd] in Hv2, Hincs. subst incidents. rewrite HvA in Hv2.
  set (s3 := _log _ s2).
  assert (Hv3 : view s3 = view s) by (rewrite <- Hv2; reflexivity).
  unfold record_investigating.
  destruct (view_recordIncident siteId "correlated_alarm_cluster" [] "investigating" s3
              (kept_site_is_not_noise _ _ _ Hkeep))
    as (cb4 & lb4 & l4 & Hv4 & _).
  destruct (RcaAgent.recordIncident siteId "correlated_alarm_cluster" [] "investigating" s3)
    as [r4 s4']. cbn [snd] in Hv4.
  set (s4 := _log _ s4').
  assert (Hv4' : view s4 = with_records cb4 lb4 (view s)) by (rewrite <- Hv3, <- Hv4; reflexivity).
  assert (Hauto4 : autoEffective s4 = false).
  { unfold autoEffective, isE2E.
    replace (autoEnabled s4) with (autoEnabled s) by (symmetry; exact (f_equal v_auto Hv4')).
    replace (policy s4) with (policy s) by (symmetry; exact (f_equal v_policy Hv4')).
    unfold isE2E in He2e. rewrite He2e, Htoggle. reflexivity. }
  rewrite Hauto4. cbn [negb]. unfold hitl_path.
  destruct (view_ensure_agentB s4) as (b5 & Hv5 & Hb5run & Hb5tasks & _).
  assert (HB4 : agentB s4 = agentB s)
    by (transitivity (v_agentB (view s4)); [reflexivity|rewrite Hv4'; reflexivity]).
  rewrite HB4 in Hb5tasks.
  set (s5 := ensure_agentB s4) in *.
  rewrite Hv4' in Hv5.
  destruct (view_mitigateSite_plans siteId s5)
    as (site & b6 & Hres & Hsnap & Hv6 & Hb6tasks).
  { transitivity (agent_status (v_agentB (view s5))); [reflexivity|]. rewrite Hv5. exact Hb5run. }
  { unfold isE2E.
    replace (policy s5) with (policy s) by (symmetry; exact (f_equal v_policy Hv5)).
    exact He2e. }
  { exact Hsim. }
  destruct (TroubleshootingAgent.mitigateSite siteId s5) as [out s6].
  cbn [fst snd] in Hres, Hv6. subst out. rewrite Hv5 in Hv6.
  replace (agentB s5) with b5 in Hb6tasks
    by (symmetry; transitivity (v_agentB (view s5)); [reflexivity|rewrite Hv5; reflexivity]).
  unfold addApprovalRequest.
  assert (Happr : approvals (supervisor s6) = approvals (supervisor s))
    by exact (f_equal v_approvals Hv6).
  assert (Hnext : nextApprovalId (supervisor s6) = nextApprovalId (supervisor s))
    by exact (f_equal v_next Hv6).
  eexists _, site. cbn. rewrite Happr, Hnext.
  split; [reflexivity|]. split; [reflexivity|]. split; [reflexivity|].
  split; [reflexivity|]. split; [reflexivity|].
  split; [destruct Hsnap as (sites & Hs & Hm); eauto|].
  split; [reflexivity|]. split; [reflexivity|].
  split; [exact (f_equal v_routed Hv6)|].
  split.
  - transitivity (agent_tasks (v_agentB (view s6))); [reflexivity|].
    rewrite Hv6. cbn. rewrite Hb6tasks. exact Hb5tasks.
  - exact (f_equal v_requests Hv6).
Qed.

End WithEnv.

(** Scenario 2 of the specification: an outage of S1 under the
    human-in-the-loop policy, the manual toggle off. *)
Definition outage_fleet : Sites := [("S1", Scenario.outage)].

Definition waiting : @Sys (Scenario.constant outage_fleet) :=
  @Scenario.server (Scenario.constant outage_fleet) Scenario.hitl_policy false running stopped 1000.

Lemma event_without_automation_witness :
  let s' := snd (@handleEvent (Scenario.constant outage_fleet)
                   (Scenario.mains_failure "2025-01-01T00:00:00Z") (∅, waiting)) in
  exists item site,
    approvals (supervisor s') = (approvals (supervisor waiting) ++ [item])%list /\
    appr_id item = nat_to_string (nextApprovalId (supervisor waiting)) /\
    appr_siteId item = "S1" /\
    appr_reason item = "Troubleshooting HITL plan requires approval" /\
    appr_actions item = snd (TroubleshootingAgent._buildPlan "S1" site) /\
    (exists w sites, fst (@sim_state (Scenario.constant outage_fleet) w) = Some sites /\
                     map_get "S1" sites = Some site) /\
    nextApprovalId (supervisor s') = S (nextApprovalId (supervisor waiting)) /\
    lastNote (supervisor s') =
      Some ("Approval requested #" ++ appr_id item ++ " for " ++ "S1") /\
    tasksRouted (supervisor s') = tasksRouted (supervisor waiting) /\
    agent_tasks (agentB s') = agent_tasks (agentB waiting) /\
    List.filter is_device_request (history s') =
      List.filter is_device_request (history waiting).
Proof.
  apply (@event_without_automation_queues_one_approval (Scenario.constant outage_fleet)
           (Scenario.mains_failure "2025-01-01T00:00:00Z") "S1" ∅ waiting).
  - reflexivity.
  - reflexivity.
  - reflexivity.
  - reflexivity.
  - reflexivity.
  - reflexivity.
  - intros w. exists outage_fleet, Scenario.outage. split; reflexivity.
Defined.

End ApprovalFlowTheory.

(** ** The subscriptions of Agent A *)

Module ListenerTheory.
Import Js Tower State IncidentBus CorrelationAgent.

Definition is_onIncident (l : Listener) : bool :=
  match l with AgentA_onIncident => true | _ => false end.

(** How many times [publish(evt)] calls Agent A's [_onIncident]. *)
Definition handler_calls {E : Env} (evt : BusEvent) (s : Sys) : nat :=
  List.length (List.filter is_onIncident (List.map fst (publish evt (bus s)))).

Lemma calls_attach evt em :
  List.length (List.filter is_onIncident (List.map fst (publish evt (agentA_attachBus em)))) =
  S (List.length (List.filter is_onIncident (List.map fst (publish evt em)))).
Proof.
  unfold publish, emit, agentA_attachBus, onIncident.
  rewrite BusTheory.listeners_on. cbn [String.eqb Ascii.eqb Bool.eqb].
  rewrite !List.map_map. cbn [fst]. rewrite !List.map_id.
  rewrite List.filter_app, List.length_app. cbn. lia.
Qed.

Section WithEnv.
Context {E : Env}.

Lemma stop_keeps_bus s : bus (stop s) = bus s.
Proof. reflexivity. Qed.

Lemma stop_stops s : agent_status (agentA (stop s)) = stopped.
Proof.
  unfold stop, AgentBase.stop. cbn. destruct (agent_status (agentA s)); reflexivity.
Qed.

Lemma start_attaches s :
  agent_status (agentA s) <> running ->
  bus (start s) = agentA_attachBus (bus s) /\ agent_status (agentA (start s)) = running.
Proof.
  intros Hst. unfold start.
  destruct (agent_status (agentA s)) eqn:H; try contradiction;
    destruct (String.eqb (agentA_delegation s) "disabled"); split; reflexivity.
Qed.

Lemma restart_attaches s :
  bus (start (stop s)) = agentA_attachBus (bus s) /\
  agent_status (agentA (start (stop s))) = running.
Proof.
  destruct (start_attaches (stop s)) as [Hb Hr].
  - rewrite stop_stops. discriminate.
  - rewrite Hb, stop_keeps_bus. auto.
Qed.

(** X29. [start()] subscribes Agent A's handler to the bus and [stop()]
    removes nothing. So every stop and start of a running Agent A adds one
    more subscription: after [n] restarts a published event calls
    [_onIncident] [n] more times than before, and stopping the agent does
    not change that number. *)
Theorem each_restart_adds_a_handler (n : nat) (evt : BusEvent) (s : Sys) :
  agent_status (agentA s) = running ->
  let s' := Nat.iter n (fun s0 => start (stop s0)) s in
  agent_status (agentA s') = running /\
  handler_calls evt s' = (handler_calls evt s + n)%nat /\
  handler_calls evt (stop s') = handler_calls evt s'.
Proof.
  intros Hrun. cbv zeta. induction n as [|n IH]; [cbn [Nat.iter nat_rect]|rewrite Nat.iter_succ].
  - split; [exact Hrun|]. split; [now rewrite Nat.add_0_r|reflexivity].
  - destruct IH as (_ & Hcalls & _).
    destruct (restart_attaches (Nat.iter n (fun s0 => start (stop s0)) s)) as [Hb Hr].
    split; [exact Hr|]. split.
    + unfold handler_calls in *. rewrite Hb, calls_attach, Hcalls.
      now rewrite Nat.add_succ_r.
    + unfold handler_calls. now rewrite stop_keeps_bus.
Qed.

End WithEnv.

Definition listening : @Sys Scenario.scripted :=
  @Scenario.server Scenario.scripted Scenario.hitl_policy false running running
    (Scenario.mkScripted 1000 [] None).

Lemma each_restart_adds_a_handler_witness :
  let s' := Nat.iter 2 (fun s0 => @start Scenario.scripted (@stop Scenario.scripted s0))
              listening in
  agent_status (agentA s') = running /\
  handler_calls (Scenario.mains_failure "2025-01-01T00:00:00Z") s' =
    (handler_calls (Scenario.mains_failure "2025-01-01T00:00:00Z") listening + 2)%nat /\
  handler_calls (Scenario.mains_failure "2025-01-01T00:00:00Z") (@stop Scenario.scripted s') =
    handler_calls (Scenario.mains_failure "2025-01-01T00:00:00Z") s'.
Proof.
  apply (@each_restart_adds_a_handler Scenario.scripted 2
           (Scenario.mains_failure "2025-01-01T00:00:00Z") listening).
  reflexivity.
Defined.

End ListenerTheory.

(** ** The streaming correlation *)

Module StreamTheory.
Import Js Tower State UtilsPolicy CorrelationAgent CorrelationStream.

(** The alarm events that [_onIncident] merges: an [alarm.raised] or
    [alarm.cleared] of a known site whose alarm is not noise, and is
    critical when the policy is 'critical first'. *)
Definition alarm_of (e : BusEvent) : string :=
  str_or_empty (or_ (or_ (ev_alarm e) (ev_type e)) (Some "unknown")).

Definition let_through (mode : string) (e : BusEvent) : bool :=
  ((type_is "alarm.raised" e || type_is "alarm.cleared" e) &&
   truthy (ev_siteId e) &&
   negb (String.eqb (str_or_empty (ev_siteId e)) "unknown") &&
   negb (isNoiseAlarm (alarm_of e)) &&
   negb (String.eqb mode "critical first" && negb (isCriticalAlarm (alarm_of e))))%bool.

(** [out] of [_closeOpenIncident] for the incident [inc]. *)
Definition close (siteId : string) (inc : Incident) (reason : string) : Closed :=
  mkClosed siteId (inc_start inc) (inc_end inc) (inc_count inc) (inc_types inc)
    (inc_events inc) reason.

Lemma set_add_has x s : existsb (opt_eqb x) (set_add x s) = true.
Proof.
  unfold set_add. destruct (existsb (opt_eqb x) s) eqn:H; [exact H|].
  rewrite existsb_app. cbn. destruct x as [x|]; cbn; [rewrite String.eqb_refl|];
    now rewrite Bool.orb_true_r.
Qed.

Lemma opt_eqb_eq x y : opt_eqb x y = true -> x = y.
Proof.
  destruct x as [x|], y as [y|]; cbn; try discriminate; auto.
  intros H. apply String.eqb_eq in H. now subst.
Qed.

Lemma critical_member (x : option string) (types : list (option string)) :
  existsb (opt_eqb x) types = true ->
  isCriticalAlarm (str_or_empty x) = true ->
  existsb (fun t => isCriticalAlarm (str_or_empty t)) types = true.
Proof.
  intros Hin Hc. apply existsb_exists in Hin. destruct Hin as (y & Hy & Heq).
  apply opt_eqb_eq in Heq. subst y. apply existsb_exists. eauto.
Qed.

Lemma existsb_nonempty {A} (f : A -> bool) l :
  existsb f l = true -> (List.length l =? 0)%nat = false.
Proof. destruct l; cbn; [discriminate|reflexivity]. Qed.

Section WithEnv.
Context {E : Env}.

Lemma _closeOpenIncident_other siteId reason perSite s k :
  k <> siteId ->
  fst (_closeOpenIncident siteId reason (perSite, s)) !! k = perSite !! k.
Proof.
  intros Hne. unfold _closeOpenIncident, _ensureSite.
  destruct (perSite !! siteId) as [b|] eqn:Hb; cbn [fst snd].
  - destruct (open b); cbn [fst]; [|reflexivity]. now rewrite lookup_insert_ne.
  - cbn. now rewrite lookup_insert_ne.
Qed.

Lemma _closeOpenIncident_open siteId reason perSite s b o :
  perSite !! siteId = Some b -> open b = Some o ->
  fst (_closeOpenIncident siteId reason (perSite, s)) !! siteId =
    Some (mkSiteBuf None (closed b ++ [close siteId o reason])).
Proof.
  intros Hb Ho. unfold _closeOpenIncident, _ensureSite. rewrite Hb, Ho. cbn [fst].
  now rewrite lookup_insert_eq.
Qed.

Lemma _closeOpenIncident_none siteId reason perSite s b :
  perSite !! siteId = Some b -> open b = None ->
  _closeOpenIncident siteId reason (perSite, s) = (perSite, s).
Proof.
  intros Hb Ho. unfold _closeOpenIncident, _ensureSite. now rewrite Hb, Ho.
Qed.

Lemma open_new_other siteId evt perSite s k :
  k <> siteId -> fst (open_new siteId evt (perSite, s)) !! k = perSite !! k.
Proof. intros Hne. unfold open_new. cbn [fst]. now rewrite lookup_insert_ne. Qed.

Lemma open_new_site siteId evt perSite s :
  fst (open_new siteId evt (perSite, s)) !! siteId =
    Some (mkSiteBuf (Some (_newIncident siteId evt))
            (closed (nullish (perSite !! siteId) (mkSiteBuf None [])))).
Proof. unfold open_new. cbn [fst]. now rewrite lookup_insert_eq. Qed.

(** What [merge] leaves in the buffer of the site. *)
Definition merged (siteId : string) (e : BusEvent) (old : option SiteBuf) (s : Sys)
  (b' : SiteBuf) (inc : Incident) : Prop :=
  open b' = Some inc /\
  match old with
  | Some {| open := Some o; closed := cl |} =>
      if within (Some (now s)) (getTime (inc_end o)) (agentA_windowMs s)
      then inc = _extend o e /\ closed b' = cl
      else inc = _newIncident siteId e /\
           closed b' = (cl ++ [close siteId o "window_elapsed"])%list
  | Some {| open := None; closed := cl |} => inc = _newIncident siteId e /\ closed b' = cl
  | None => inc = _newIncident siteId e /\ closed b' = []
  end.

Lemma merge_other siteId e perSite s k :
  k <> siteId -> fst (merge siteId e (perSite, s)) !! k = perSite !! k.
Proof.
  intros Hne. unfold merge, _ensureSite.
  destruct (perSite !! siteId) as [[[o|] cl]|] eqn:Hb; cbn [open closed].
  - destruct (within _ _ _).
    + cbn [fst]. now rewrite lookup_insert_ne.
    + destruct (_closeOpenIncident siteId "window_elapsed" (perSite, s)) as [p2 s2] eqn:Hc.
      rewrite open_new_other by exact Hne.
      change p2 with (fst (p2, s2)). rewrite <- Hc.
      now apply _closeOpenIncident_other.
  - now rewrite open_new_other.
  - rewrite open_new_other by exact Hne. now rewrite lookup_insert_ne.
Qed.

Lemma merge_site siteId e perSite s :
  exists b' inc,
    fst (merge siteId e (perSite, s)) !! siteId = Some b' /\
    merged siteId e (perSite !! siteId) s b' inc.
Proof.
  unfold merge, _ensureSite, merged.
  destruct (perSite !! siteId) as [[[o|] cl]|] eqn:Hb; cbn [open closed].
  - destruct (within _ _ _).
    + cbn [fst]. rewrite lookup_insert_eq. eexists _, _. split; [reflexivity|]. cbn. auto.
    + pose proof (_closeOpenIncident_open siteId "window_elapsed" perSite s _ o Hb eq_refl)
        as Hc.
      destruct (_closeOpenIncident siteId "window_elapsed" (perSite, s)) as [p2 s2].
      cbn [fst closed] in Hc. rewrite open_new_site, Hc. cbn [nullish closed].
      eexists _, _. split; [reflexivity|]. cbn. auto.
  - rewrite open_new_site, Hb. cbn [nullish closed].
    eexists _, _. split; [reflexivity|]. cbn. auto.
  - rewrite open_new_site, lookup_insert_eq. cbn [nullish closed].
    eexists _, _. split; [reflexivity|]. cbn. auto.
Qed.

Lemma merged_holds_event siteId e old s b' inc :
  merged siteId e old s b' inc ->
  existsb (opt_eqb (or_ (ev_alarm e) (ev_type e))) (inc_types inc) = true /\
  inc_end inc = ev_timestamp e /\
  List.last (inc_events inc) e = e /\ In e (inc_events inc).
Proof.
  intros [_ H].
  assert (Hnew : inc = _newIncident siteId e ->
                 existsb (opt_eqb (or_ (ev_alarm e) (ev_type e))) (inc_types inc) = true /\
                 inc_end inc = ev_timestamp e /\
                 List.last (inc_events inc) e = e /\ In e (inc_events inc)).
  { intros ->. cbn. repeat split; auto.
    destruct (or_ (ev_alarm e) (ev_type e)) as [x|]; cbn; [rewrite String.eqb_refl|];
      reflexivity. }
  destruct old as [[[o|] cl]|]; try (apply Hnew; tauto).
  destruct (within _ _ _); [|apply Hnew; tauto].
  destruct H as [-> _]. cbn. split; [apply set_add_has|]. split; [reflexivity|].
  split; [apply List.last_last|]. apply in_or_app. right. now left.
Qed.


Lemma type_is_eq t e : type_is t e = true <-> ev_type e = Some t.
Proof.
  unfold type_is. destruct (ev_type e) as [x|]; [|split; discriminate].
  rewrite String.eqb_eq. split; congruence.
Qed.

Lemma type_is_other t t' e : ev_type e = Some t -> t <> t' -> type_is t' e = false.
Proof.
  intros H Hne. unfold type_is. rewrite H. now apply String.eqb_neq.
Qed.

Lemma hasCritical_holds (inc : Incident) (x : option string) :
  existsb (opt_eqb x) (inc_types inc) = true ->
  isCriticalAlarm (str_or_empty x) = true ->
  hasCritical (Some inc) = true.
Proof.
  intros Hin Hc. unfold hasCritical.
  rewrite (existsb_nonempty _ _ Hin). now apply (critical_member x).
Qed.

(** X30. Agent A is running and an [alarm.raised] or [alarm.cleared]
    event arrives for a known site, its alarm not noise and, under the
    policy 'critical first', critical. Then [_onIncident] touches the
    buffer of that site alone. The event is merged into the site's open
    incident: it extends the open one when that ended within the window,
    and otherwise starts a new one, the old one being closed with the
    reason [window_elapsed]. The incident stays open unless the event is
    an [alarm.cleared] and none of the incident's types is critical, in
    which case it is closed at once with the reason [alarm_cleared]; under
    'critical first' it always stays open. *)
Theorem alarm_event_is_merged (evt : StreamEvent) (perSite : gmap string SiteBuf) (s : Sys) :
  let e := se_event evt in
  let siteId := str_or_empty (ev_siteId e) in
  agent_status (agentA s) = running ->
  let_through (policyMode (policy s)) e = true ->
  let perSite' := fst (_onIncident evt (perSite, s)) in
  (forall k, k <> siteId -> perSite' !! k = perSite !! k) /\
  exists b1 inc,
    merged siteId e (perSite !! siteId) s b1 inc /\
    In e (inc_events inc) /\ inc_end inc = ev_timestamp e /\
    perSite' !! siteId =
      (if (type_is "alarm.cleared" e && negb (hasCritical (Some inc)))%bool
       then Some (mkSiteBuf None (closed b1 ++ [close siteId inc "alarm_cleared"]))
       else Some b1) /\
    (policyMode (policy s) = "critical first" -> perSite' !! siteId = Some b1).
Proof.
  intros e siteId Hrun Hadm perSite'. subst perSite'.
  unfold let_through in Hadm. rewrite !Bool.andb_true_iff in Hadm.
  destruct Hadm as ((((Htype & Hsite) & Hunk) & Hnoise) & Hmode).
  apply Bool.negb_true_iff in Hunk, Hnoise, Hmode.
  change (String.eqb siteId "unknown" = false) in Hunk.
  assert (Hid : str_or_empty (or_ (ev_siteId e) (Some "unknown")) = siteId).
  { subst siteId. unfold or_. now rewrite Hsite. }
  assert (Htruthy : truthy (Some siteId) = true).
  { subst siteId. destruct (ev_siteId e) as [[|c r]|]; cbn in *; congruence. }
  assert (Hty : ev_type e = Some "alarm.raised" \/ ev_type e = Some "alarm.cleared").
  { apply Bool.orb_true_iff in Htype. rewrite !type_is_eq in Htype. exact Htype. }
  unfold _onIncident. fold e. rewrite Hrun. rewrite Hid.
  replace (type_is "bus.disconnected" e) with false
    by (destruct Hty as [H|H]; symmetry; apply (type_is_other _ _ _ H); discriminate).
  replace (type_is "bus.reconnected" e) with false
    by (destruct Hty as [H|H]; symmetry; apply (type_is_other _ _ _ H); discriminate).
  replace (type_is "state.update" e) with false
    by (destruct Hty as [H|H]; symmetry; apply (type_is_other _ _ _ H); discriminate).
  rewrite Htype. cbn [negb andb]. cbv zeta.
  rewrite Htruthy, Hunk. cbn [negb orb].
  fold (alarm_of e). rewrite Hnoise.
  unfold PolicyStore.getPolicy. rewrite Hmode.
  destruct (merge_site siteId e perSite s) as (b1 & inc & Hb1 & Hmerged).
  pose proof (merge_other siteId e perSite s) as Hother.
  destruct (merged_holds_event _ _ _ _ _ _ Hmerged) as (Htypes & Hend & _ & Hin).
  destruct (merge siteId e (perSite, s)) as [p1 s1] eqn:Hm. cbn [fst] in Hb1, Hother.
  assert (Hopen : open b1 = Some inc) by apply Hmerged.
  assert (Hcf : policyMode (policy s) = "critical first" -> hasCritical (Some inc) = true).
  { intros Hcfm. rewrite Hcfm in Hmode. cbn [String.eqb Ascii.eqb andb] in Hmode.
    change (negb (isCriticalAlarm (alarm_of e)) = false) in Hmode.
    apply Bool.negb_false_iff in Hmode.
    apply (hasCritical_holds inc (or_ (ev_alarm e) (ev_type e))); [exact Htypes|].
    unfold alarm_of in Hmode.
    assert (Hor : truthy (or_ (ev_alarm e) (ev_type e)) = true).
    { unfold or_. destruct (truthy (ev_alarm e)) eqn:Ha; [exact Ha|].
      destruct Hty as [H|H]; rewrite H; reflexivity. }
    unfold or_ at 1 in Hmode. now rewrite Hor in Hmode. }
  cbn [fst]. rewrite Hb1. cbn [nullish]. rewrite Hopen.
  destruct (type_is "alarm.cleared" e) eqn:Hcl; cbn [andb].
  - destruct (hasCritical (Some inc)) eqn:Hcrit; cbn [negb].
    + cbn [fst]. split; [exact Hother|]. exists b1, inc. rewrite Hcrit. cbn [negb].
      split; [exact Hmerged|]. split; [exact Hin|]. split; [exact Hend|].
      split; [exact Hb1|]. intros _. exact Hb1.
    + split.
      * intros k Hk. rewrite _closeOpenIncident_other by exact Hk. now apply Hother.
      * exists b1, inc. rewrite Hcrit. cbn [negb].
        split; [exact Hmerged|]. split; [exact Hin|]. split; [exact Hend|].
        split; [now apply _closeOpenIncident_open|].
        intros Hcfm. apply Hcf in Hcfm. congruence.
  - cbn [fst]. split; [exact Hother|]. exists b1, inc.
    split; [exact Hmerged|]. split; [exact Hin|]. split; [exact Hend|].
    split; [exact Hb1|]. intros _. exact Hb1.
Qed.

End WithEnv.
(** Agent A listening, its buffers empty, and the first alarm of S1. *)
Definition attentive : @Sys Scenario.scripted :=
  @Scenario.server Scenario.scripted Scenario.hitl_policy false running running
    (Scenario.mkScripted 1000 [] None).

Definition first_alarm : StreamEvent :=
  mkStreamEvent (Scenario.mains_failure "2025-01-01T00:00:00Z") None.

Lemma alarm_event_is_merged_witness :
  let perSite' := fst (@_onIncident Scenario.scripted first_alarm (∅, attentive)) in
  (forall k, k <> "S1" -> perSite' !! k = (∅ : gmap string SiteBuf) !! k) /\
  exists b1 inc,
    merged "S1" (se_event first_alarm) ((∅ : gmap string SiteBuf) !! "S1") attentive b1 inc /\
    In (se_event first_alarm) (inc_events inc) /\
    inc_end inc = ev_timestamp (se_event first_alarm) /\
    perSite' !! "S1" =
      (if (type_is "alarm.cleared" (se_event first_alarm) && negb (hasCritical (Some inc)))%bool
       then Some (mkSiteBuf None (closed b1 ++ [close "S1" inc "alarm_cleared"]))
       else Some b1) /\
    (policyMode (policy attentive) = "critical first" -> perSite' !! "S1" = Some b1).
Proof.
  apply (@alarm_event_is_merged Scenario.scripted first_alarm ∅ attentive); reflexivity.
Defined.

End StreamTheory.
